(** * Hyperfleet guest init: a shallow embedding of [src/guest/init.c]

    The development follows the layout of the C file: the base64 codec,
    the JSON helpers, the file and exec handlers, the connection handler
    and the shutdown sequence; then the signal handlers, the start-up
    functions and the listener thread.  C strings are lists of bytes
    (the bytes before the terminating NUL), pointers into a string are
    suffixes of the list, and buffers obtained from [malloc] carry their
    capacity so that every store is checked against it. *)

From Stdlib Require Import ZArith Lia Bool String List DecimalString DecimalZ.
From Stdlib Require Import Strings.Byte.
Import ListNotations.
Open Scope Z_scope.

(** ** Bytes and C strings *)

Abbreviation byte := Byte.byte.

(** [(unsigned char) c] used as an integer. *)
Definition byte_val (c : byte) : Z := Z.of_N (Byte.to_N c).

(** Storing an integer into a [char]: the low eight bits are kept. *)
Definition byte_of (z : Z) : byte :=
  match Byte.of_N (Z.to_N (z mod 256)) with
  | Some c => c
  | None => x00
  end.

Definition NUL : byte := x00.
Definition dquote : byte := x22.
Definition backslash : byte := x5c.

(** A C string literal.  The literals of the source are full of escaped
    double quotes; they are written here with an apostrophe in place of
    each escaped quote (no literal of the source contains an apostrophe). *)
Definition lit (s : string) : list byte :=
  map (fun c => if Byte.eqb c "'" then dquote else c) (list_byte_of_string s).

(** [strlen]: a string ends at its first NUL. *)
Fixpoint c_str (buf : list byte) : list byte :=
  match buf with
  | [] => []
  | c :: r => if Byte.eqb c NUL then [] else c :: c_str r
  end.

Definition len (s : list byte) : Z := Z.of_nat (length s).

(** [*p] for a pointer into a string: the terminator is read at its end. *)
Definition deref (p : list byte) : byte :=
  match p with
  | [] => NUL
  | c :: _ => c
  end.

(** ** Outcomes, the allocator and buffers

    A computation either completes or performs an access outside an
    object, which C leaves undefined.  The heap is the sequence of
    answers [malloc] will give: [true] grants the request, [false] is a
    NULL return; once the sequence is used up every request is granted. *)

Inductive outcome (A : Type) : Type :=
| Done (a : A)
| Fault.
Arguments Done {A} a.
Arguments Fault {A}.

Definition heap := list bool.

Definition M (A : Type) : Type := heap -> outcome (A * heap).

Definition ret {A : Type} (a : A) : M A := fun h => Done (a, h).

Definition bind {A B : Type} (m : M A) (f : A -> M B) : M B :=
  fun h =>
    match m h with
    | Done (a, h') => f a h'
    | Fault => Fault
    end.

Definition fault {A : Type} : M A := fun _ => Fault.

Notation "x <- m ;; k" := (bind m (fun x => k))
  (at level 61, m at next level, right associativity).

(** A heap on which every allocation succeeds. *)
Definition plentiful (h : heap) : Prop := Forall (fun b => b = true) h.

(** A buffer: its capacity in bytes and the bytes stored so far; the
    write index [j] of the source is the number of bytes stored. *)
Record buffer : Type := mkbuf { cap : Z; stored : list byte }.

Definition malloc (n : Z) : M (option buffer) :=
  fun h =>
    match h with
    | [] => Done (Some (mkbuf n []), [])
    | true :: h' => Done (Some (mkbuf n []), h')
    | false :: h' => Done (None, h')
    end.

(** [out[j++] = c]. *)
Definition put (out : buffer) (c : byte) : M buffer :=
  if len (stored out) <? cap out
  then ret (mkbuf (cap out) (stored out ++ [c]))
  else fault.

(** [out[j] = '\0']; the result is the string now held by the buffer. *)
Definition terminate (out : buffer) : M (list byte) :=
  if len (stored out) <? cap out then ret (stored out) else fault.

(** [data[i]] for an object of [length data] bytes. *)
Definition load (data : list byte) (i : Z) : M byte :=
  if (0 <=? i) && (i <? len data)
  then ret (nth (Z.to_nat i) data NUL)
  else fault.

(** ** Base64 *)

Definition BASE64_ENCODE_SIZE (n : Z) : Z := (n + 2) / 3 * 4 + 1.
Definition BASE64_DECODE_SIZE (n : Z) : Z := (n + 3) / 4 * 3.

Definition base64_table : list byte :=
  lit "ABCDEFGHIJKLMNOPQRSTUVWXYZabcdefghijklmnopqrstuvwxyz0123456789+/".

Definition base64_char (k : Z) : byte := nth (Z.to_nat k) base64_table NUL.

Definition base64_decode_table_data : list Z :=
  [ -1;-1;-1;-1;-1;-1;-1;-1;-1;-1;-1;-1;-1;-1;-1;-1;
    -1;-1;-1;-1;-1;-1;-1;-1;-1;-1;-1;-1;-1;-1;-1;-1;
    -1;-1;-1;-1;-1;-1;-1;-1;-1;-1;-1;62;-1;-1;-1;63;
    52;53;54;55;56;57;58;59;60;61;-1;-1;-1;-1;-1;-1;
    -1; 0; 1; 2; 3; 4; 5; 6; 7; 8; 9;10;11;12;13;14;
    15;16;17;18;19;20;21;22;23;24;25;-1;-1;-1;-1;-1;
    -1;26;27;28;29;30;31;32;33;34;35;36;37;38;39;40;
    41;42;43;44;45;46;47;48;49;50;51;-1;-1;-1;-1;-1;
    -1;-1;-1;-1;-1;-1;-1;-1;-1;-1;-1;-1;-1;-1;-1;-1;
    -1;-1;-1;-1;-1;-1;-1;-1;-1;-1;-1;-1;-1;-1;-1;-1;
    -1;-1;-1;-1;-1;-1;-1;-1;-1;-1;-1;-1;-1;-1;-1;-1;
    -1;-1;-1;-1;-1;-1;-1;-1;-1;-1;-1;-1;-1;-1;-1;-1;
    -1;-1;-1;-1;-1;-1;-1;-1;-1;-1;-1;-1;-1;-1;-1;-1;
    -1;-1;-1;-1;-1;-1;-1;-1;-1;-1;-1;-1;-1;-1;-1;-1;
    -1;-1;-1;-1;-1;-1;-1;-1;-1;-1;-1;-1;-1;-1;-1;-1;
    -1;-1;-1;-1;-1;-1;-1;-1;-1;-1;-1;-1;-1;-1;-1;-1 ].

(** [base64_decode_table[(unsigned char) c]]. *)
Definition base64_decode_table (c : byte) : Z :=
  nth (Z.to_nat (byte_val c)) base64_decode_table_data (-1).

Definition pad : byte := "="%byte.

(** The body of the encoding loop at index [i]. *)
Definition encode_step (data : list byte) (i : Z) (out : buffer) : M buffer :=
  x <- load data i ;;
  let n := Z.shiftl (byte_val x) 16 in
  n <- (if i + 1 <? len data
        then y <- load data (i + 1) ;; ret (Z.lor n (Z.shiftl (byte_val y) 8))
        else ret n) ;;
  n <- (if i + 2 <? len data
        then z <- load data (i + 2) ;; ret (Z.lor n (byte_val z))
        else ret n) ;;
  out <- put out (base64_char (Z.land (Z.shiftr n 18) 63)) ;;
  out <- put out (base64_char (Z.land (Z.shiftr n 12) 63)) ;;
  out <- put out (if i + 1 <? len data
                  then base64_char (Z.land (Z.shiftr n 6) 63) else pad) ;;
  put out (if i + 2 <? len data then base64_char (Z.land n 63) else pad).

(** [for (i = 0; i < len; i += 3)]: the loop runs [trips] more times. *)
Fixpoint encode_loop (trips : nat) (data : list byte) (i : Z) (out : buffer)
  : M buffer :=
  match trips with
  | O => ret out
  | S k => out <- encode_step data i out ;; encode_loop k data (i + 3) out
  end.

Definition base64_encode (data : list byte) : M (option (list byte)) :=
  let olen := BASE64_ENCODE_SIZE (len data) in
  o <- malloc olen ;;
  match o with
  | None => ret None
  | Some out =>
      out <- encode_loop (Z.to_nat ((len data + 2) / 3)) data 0 out ;;
      s <- terminate out ;;
      ret (Some s)
  end.

(** The body of the decoding loop at index [i]; [None] is the early
    [free(out); return NULL]. *)
Definition decode_step (data : list byte) (i : Z) (out : buffer)
  : M (option buffer) :=
  ca <- load data i ;;
  cb <- load data (i + 1) ;;
  cc <- load data (i + 2) ;;
  cd <- load data (i + 3) ;;
  let a := base64_decode_table ca in
  let b := base64_decode_table cb in
  let c := base64_decode_table cc in
  let d := base64_decode_table cd in
  if (a <? 0) || (b <? 0) then ret None
  else if negb (Byte.eqb cc pad) && (c <? 0) then ret None
  else if negb (Byte.eqb cd pad) && (d <? 0) then ret None
  else
    let n := Z.lor (Z.lor (Z.lor (Z.shiftl a 18) (Z.shiftl b 12))
                          (Z.shiftl (if c >=? 0 then c else 0) 6))
                   (if d >=? 0 then d else 0) in
    out <- put out (byte_of (Z.land (Z.shiftr n 16) 255)) ;;
    out <- (if negb (Byte.eqb cc pad)
            then put out (byte_of (Z.land (Z.shiftr n 8) 255)) else ret out) ;;
    out <- (if negb (Byte.eqb cd pad)
            then put out (byte_of (Z.land n 255)) else ret out) ;;
    ret (Some out).

(** [for (i = 0; i < len; i += 4)]. *)
Fixpoint decode_loop (trips : nat) (data : list byte) (i : Z) (out : buffer)
  : M (option buffer) :=
  match trips with
  | O => ret (Some out)
  | S k =>
      o <- decode_step data i out ;;
      match o with
      | None => ret None
      | Some out => decode_loop k data (i + 4) out
      end
  end.

(** [base64_decode(data, len, &out_len)]; [None] is a NULL return.  The
    two padding probes index the input at [len - 1] and [len - 2]. *)
Definition base64_decode (data : list byte) : M (option (list byte)) :=
  if negb (len data mod 4 =? 0) then ret None
  else
    let olen := BASE64_DECODE_SIZE (len data) in
    c1 <- load data (len data - 1) ;;
    let olen := if Byte.eqb c1 pad then olen - 1 else olen in
    c2 <- load data (len data - 2) ;;
    let olen := if Byte.eqb c2 pad then olen - 1 else olen in
    o <- malloc (olen + 1) ;;
    match o with
    | None => ret None
    | Some out =>
        o <- decode_loop (Z.to_nat ((len data + 3) / 4)) data 0 out ;;
        match o with
        | None => ret None
        | Some out => s <- terminate out ;; ret (Some s)
        end
    end.

(** [decode_bytes (encode_bytes b)] as the program computes it. *)
Definition base64_roundtrip (b : list byte) : M (option (list byte)) :=
  o <- base64_encode b ;;
  match o with
  | None => ret None
  | Some t => base64_decode t
  end.

(** The 24-bit group rebuilt by the decoder from four sextets. *)
Definition regroup (a b c d : Z) : Z :=
  Z.lor (Z.lor (Z.lor (Z.shiftl a 18) (Z.shiftl b 12)) (Z.shiftl c 6)) d.

Definition sextet (n k : Z) : Z := Z.land (Z.shiftr n k) 63.

(** *** The text of an encoding *)

Definition char_at (n k : Z) : byte := base64_char (sextet n k).

(** The text the encoder produces, group by group. *)
Fixpoint enc (b : list byte) : list byte :=
  match b with
  | [] => []
  | [x] =>
      let n := Z.shiftl (byte_val x) 16 in
      [char_at n 18; char_at n 12; pad; pad]
  | [x; y] =>
      let n := Z.lor (Z.shiftl (byte_val x) 16) (Z.shiftl (byte_val y) 8) in
      [char_at n 18; char_at n 12; char_at n 6; pad]
  | x :: y :: z :: r =>
      let n := Z.lor (Z.lor (Z.shiftl (byte_val x) 16) (Z.shiftl (byte_val y) 8))
                     (byte_val z) in
      [char_at n 18; char_at n 12; char_at n 6; base64_char (Z.land n 63)]
      ++ enc r
  end.

(** Number of 3-byte groups, the last one possibly partial. *)
Fixpoint groups (b : list byte) : nat :=
  match b with
  | [] => O
  | [_] => 1%nat
  | [_; _] => 1%nat
  | _ :: _ :: _ :: r => S (groups r)
  end.

Definition pad_count (c : byte) : Z := if Byte.eqb c pad then 1 else 0.

(** ** JSON helpers *)

Definition space : byte := " "%byte.
Definition colon : byte := ":"%byte.
Definition comma : byte := ","%byte.
Definition tab : byte := x09.
Definition newline : byte := x0a.
Definition creturn : byte := x0d.

Fixpoint starts_with (needle s : list byte) : bool :=
  match needle, s with
  | [], _ => true
  | _ :: _, [] => false
  | a :: needle', c :: s' => Byte.eqb a c && starts_with needle' s'
  end.

(** [strstr]: the suffix of [hay] at the first occurrence of [needle]. *)
Fixpoint strstr (hay needle : list byte) : option (list byte) :=
  if starts_with needle hay then Some hay
  else match hay with
       | [] => None
       | _ :: hay' => strstr hay' needle
       end.

(** [strchr]. *)
Fixpoint strchr (s : list byte) (c : byte) : option (list byte) :=
  match s with
  | [] => None
  | d :: s' => if Byte.eqb d c then Some s else strchr s' c
  end.

(** [snprintf(search, sizeof(search), fmt, key)] with the key between
    quotes: at most 255 characters are kept. *)
Definition search_key (key : list byte) : list byte :=
  firstn 255 (dquote :: key ++ [dquote]).

(** The loop that advances [start] over blanks, colons and tabs. *)
Fixpoint skip_separators (p : list byte) : list byte :=
  match p with
  | [] => []
  | c :: p' =>
      if Byte.eqb c space || Byte.eqb c colon || Byte.eqb c tab
      then skip_separators p' else p
  end.

(** The scan for the closing quote: the characters from [start] up to
    [end]; a backslash followed by a character steps over both. *)
Fixpoint string_body (p : list byte) : list byte :=
  match p with
  | [] => []
  | c :: p' =>
      if Byte.eqb c dquote then []
      else if Byte.eqb c backslash then
        match p' with
        | [] => [c]
        | d :: p'' => c :: d :: string_body p''
        end
      else c :: string_body p'
  end.

(** The [switch] of [json_get_string] on the character after a backslash. *)
Definition unescape_char (c : byte) : byte :=
  if Byte.eqb c "n" then newline
  else if Byte.eqb c "r" then creturn
  else if Byte.eqb c "t" then tab
  else if Byte.eqb c backslash then backslash
  else if Byte.eqb c dquote then dquote
  else c.

(** The [switch] of the cmd array parser in [handle_exec]. *)
Definition unescape_char_cmd (c : byte) : byte :=
  if Byte.eqb c "n" then newline
  else if Byte.eqb c "t" then tab
  else c.

(** The copying loop shared by both parsers, over the [len] characters
    of the body: a backslash is an escape only when [i + 1 < len]. *)
Fixpoint unescape_loop (sw : byte -> byte) (body : list byte) (out : buffer)
  : M buffer :=
  match body with
  | [] => ret out
  | c :: body' =>
      if Byte.eqb c backslash then
        match body' with
        | [] => put out c
        | d :: body'' =>
            out <- put out (sw d) ;; unescape_loop sw body'' out
        end
      else out <- put out c ;; unescape_loop sw body' out
  end.

(** [malloc(len + 1)], the copying loop and the terminator. *)
Definition unescape_string (sw : byte -> byte) (body : list byte)
  : M (option (list byte)) :=
  o <- malloc (len body + 1) ;;
  match o with
  | None => ret None
  | Some out =>
      out <- unescape_loop sw body out ;;
      s <- terminate out ;;
      ret (Some s)
  end.

Definition json_get_string (json key : list byte) : M (option (list byte)) :=
  let search := search_key key in
  match strstr json search with
  | None => ret None
  | Some start =>
      let start := skipn (length search) start in
      let start := skip_separators start in
      if negb (Byte.eqb (deref start) dquote) then ret None
      else unescape_string unescape_char (string_body (tl start))
  end.

(** [atoi]: leading white space, an optional sign, decimal digits.  The
    result is an [int]; a value outside its range, which C leaves
    undefined, wraps modulo 2^32 here. *)
Definition isspace (c : byte) : bool :=
  Byte.eqb c space || ((9 <=? byte_val c) && (byte_val c <=? 13)).

Definition isdigit (c : byte) : bool :=
  (48 <=? byte_val c) && (byte_val c <=? 57).

Fixpoint skip_spaces (p : list byte) : list byte :=
  match p with
  | [] => []
  | c :: p' => if isspace c then skip_spaces p' else p
  end.

Fixpoint digits_value (p : list byte) (acc : Z) : Z :=
  match p with
  | [] => acc
  | c :: p' =>
      if isdigit c then digits_value p' (acc * 10 + (byte_val c - 48)) else acc
  end.

Definition to_int (z : Z) : Z := (z + 2147483648) mod 4294967296 - 2147483648.

Definition atoi (p : list byte) : Z :=
  let p := skip_spaces p in
  to_int
    (match p with
     | c :: p' =>
         if Byte.eqb c "-" then - digits_value p' 0
         else if Byte.eqb c "+" then digits_value p' 0
         else digits_value p 0
     | [] => 0
     end).

(** [json_get_int]: [None] is the return value -1, which leaves [*value]
    untouched; [Some v] is the return value 0 after [*value = v]. *)
Definition json_get_int (json key : list byte) : option Z :=
  let search := search_key key in
  match strstr json search with
  | None => None
  | Some start =>
      let start := skipn (length search) start in
      Some (atoi (skip_separators start))
  end.

(** *** Escaping *)

Definition hex_digit (d : Z) : byte :=
  nth (Z.to_nat d) (lit "0123456789abcdef") NUL.

(** The text [snprintf] writes for the format [\u%04x] and an
    [unsigned char]. *)
Definition u_escape (c : byte) : list byte :=
  [backslash; "u"%byte;
   hex_digit (byte_val c / 4096 mod 16); hex_digit (byte_val c / 256 mod 16);
   hex_digit (byte_val c / 16 mod 16); hex_digit (byte_val c mod 16)].

(** [j += snprintf(out + j, 7, ...)]: six characters and a terminator
    are stored from index [j] on, and [j] advances by six. *)
Definition snprintf_u (out : buffer) (c : byte) : M buffer :=
  if len (stored out) + 7 <=? cap out
  then ret (mkbuf (cap out) (stored out ++ u_escape c))
  else fault.

Definition put2 (out : buffer) (a b : byte) : M buffer :=
  out <- put out a ;; put out b.

(** The [switch] of [json_escape] on one character. *)
Definition escape_step (out : buffer) (c : byte) : M buffer :=
  if Byte.eqb c dquote then put2 out backslash dquote
  else if Byte.eqb c backslash then put2 out backslash backslash
  else if Byte.eqb c newline then put2 out backslash "n"
  else if Byte.eqb c creturn then put2 out backslash "r"
  else if Byte.eqb c tab then put2 out backslash "t"
  else if byte_val c <? 32 then snprintf_u out c
  else put out c.

Fixpoint escape_loop (s : list byte) (out : buffer) : M buffer :=
  match s with
  | [] => ret out
  | c :: s' => out <- escape_step out c ;; escape_loop s' out
  end.

(** [json_escape(str)]: [str] is the memory the pointer designates; the
    string in it ends at the first NUL. *)
Definition json_escape (str : list byte) : M (option (list byte)) :=
  let s := c_str str in
  o <- malloc (len s * 2 + 1) ;;
  match o with
  | None => ret None
  | Some out =>
      out <- escape_loop s out ;;
      r <- terminate out ;;
      ret (Some r)
  end.

(** *** The escaped text *)

(** The characters written for one input character. *)
Definition escape_char (c : byte) : list byte :=
  if Byte.eqb c dquote then [backslash; dquote]
  else if Byte.eqb c backslash then [backslash; backslash]
  else if Byte.eqb c newline then [backslash; "n"%byte]
  else if Byte.eqb c creturn then [backslash; "r"%byte]
  else if Byte.eqb c tab then [backslash; "t"%byte]
  else if byte_val c <? 32 then u_escape c
  else [c].

Definition escaped (s : list byte) : list byte := flat_map escape_char s.

(** Characters whose escaped form is at most two characters long: all
    but the control characters that take the six-character form. *)
Definition short_escape (c : byte) : bool :=
  Byte.eqb c newline || Byte.eqb c creturn || Byte.eqb c tab
  || negb (byte_val c <? 32).

(** ** Responses *)

(** [strdup] and [asprintf] allocate the text they return. *)
Definition strdup (text : list byte) : M (option (list byte)) :=
  o <- malloc (len text + 1) ;;
  match o with
  | None => ret None
  | Some _ => ret (Some text)
  end.

Definition asprintf (text : list byte) : M (option (list byte)) := strdup text.

(** The conversion [%d]. *)
Definition decimal (z : Z) : list byte :=
  list_byte_of_string (NilZero.string_of_int (Z.to_int z)).

Definition error_response (msg : list byte) : list byte :=
  lit "{'success':false,'error':'" ++ msg ++ lit "'}" ++ [newline].

Definition out_of_memory : list byte := error_response (lit "out of memory").

(** [return response ? response : strdup(out of memory)]. *)
Definition or_out_of_memory (response : option (list byte))
  : M (option (list byte)) :=
  match response with
  | Some r => ret (Some r)
  | None => strdup out_of_memory
  end.

(** ** The exec supervisor *)

Definition MAX_REQUEST_SIZE : Z := 128 * 1024 * 1024.
Definition MAX_RESPONSE_SIZE : Z := 128 * 1024 * 1024.

(** The first [n] elements and the rest, counted with an integer. *)
Fixpoint take (n : Z) (l : list byte) : list byte :=
  match l with
  | [] => []
  | c :: l' => if 0 <? n then c :: take (n - 1) l' else []
  end.

Fixpoint drop (n : Z) (l : list byte) : list byte :=
  match l with
  | [] => []
  | c :: l' => if 0 <? n then drop (n - 1) l' else l
  end.

(** [WIFEXITED] and [WEXITSTATUS] as Linux defines them. *)
Definition WIFEXITED (status : Z) : bool := Z.land status 127 =? 0.
Definition WEXITSTATUS (status : Z) : Z := Z.shiftr (Z.land status 65280) 8.

(** What the parent observes of its child.  One [poll] is one turn of
    the supervising loop in which something happens: the bytes the child
    has written to each pipe since the previous turn, the answer of
    [waitpid(WNOHANG)] (with the bytes written between the two reads and
    the exit), the clock at the deadline test, and the status collected
    if the child is killed there.  Once the listed polls are over the
    child stays silent and alive until the clock has passed the deadline,
    and [kill_status] is what the blocking [waitpid] then collects. *)
Record reaped : Type := mkreaped {
  status_of : Z;
  out_last : list byte;
  err_last : list byte
}.

Record poll : Type := mkpoll {
  out_ready : list byte;
  err_ready : list byte;
  wait_nohang : option reaped;
  clock : Z;
  status_if_killed : Z
}.

Record child_run : Type := mkrun {
  start : Z;
  polls : list poll;
  kill_status : Z
}.

(** [n = read(fd, buf + len, MAX_RESPONSE_SIZE - len - 1); if (n > 0) len += n]:
    the new buffer contents and what stays in the pipe. *)
Definition pipe_read (pipe buf : list byte) : list byte * list byte :=
  let count := MAX_RESPONSE_SIZE - len buf - 1 in
  (buf ++ take count pipe, drop count pipe).

(** The [while (!done)] loop: the wait status and the two buffers. *)
Fixpoint supervise (timeout_ms start : Z) (kill_status : Z) (polls : list poll)
                   (pipe_out pipe_err out err : list byte)
  : Z * list byte * list byte :=
  match polls with
  | [] => (kill_status, out, err)
  | p :: polls' =>
      let (out, pipe_out) := pipe_read (pipe_out ++ out_ready p) out in
      let (err, pipe_err) := pipe_read (pipe_err ++ err_ready p) err in
      match wait_nohang p with
      | Some r =>
          let (out, _) := pipe_read (pipe_out ++ out_last r) out in
          let (err, _) := pipe_read (pipe_err ++ err_last r) err in
          (status_of r, out, err)
      | None =>
          if clock p - start >? Z.quot timeout_ms 1000
          then (status_if_killed p, out, err)
          else supervise timeout_ms start kill_status polls'
                         pipe_out pipe_err out err
      end
  end.

Definition exit_code_of (status : Z) : Z :=
  if WIFEXITED status then WEXITSTATUS status else -1.

Definition exec_response (exit_code : Z) (out err : list byte) : list byte :=
  lit "{'success':true,'data':{'exit_code':" ++ decimal exit_code
  ++ lit ",'stdout':'" ++ out ++ lit "','stderr':'" ++ err
  ++ lit "'}}" ++ [newline].

(** [stdout_escaped ? stdout_escaped : (empty string)]. *)
Definition or_empty (s : option (list byte)) : list byte :=
  match s with
  | Some t => t
  | None => []
  end.

(** The loop started on empty pipes and empty buffers. *)
Definition collected (timeout_ms : Z) (run : child_run)
  : Z * list byte * list byte :=
  supervise timeout_ms (start run) (kill_status run) (polls run) [] [] [] [].

(** [handle_exec] in the parent, from the two output buffers on. *)
Definition exec_parent (timeout_ms : Z) (run : child_run)
  : M (option (list byte)) :=
  stdout_buf <- malloc MAX_RESPONSE_SIZE ;;
  stderr_buf <- malloc MAX_RESPONSE_SIZE ;;
  match stdout_buf, stderr_buf with
  | Some _, Some _ =>
      let '(status, out, err) := collected timeout_ms run in
      let exit_code := exit_code_of status in
      stdout_escaped <- json_escape (out ++ [NUL]) ;;
      stderr_escaped <- json_escape (err ++ [NUL]) ;;
      response <- asprintf (exec_response exit_code (or_empty stdout_escaped)
                                          (or_empty stderr_escaped)) ;;
      or_out_of_memory response
  | _, _ => strdup out_of_memory
  end.

(** *** The request side of exec *)

Definition rbracket : byte := "]"%byte.
Definition lbracket : byte := "["%byte.

Fixpoint skip_cmd_separators (p : list byte) : list byte :=
  match p with
  | [] => []
  | c :: p' =>
      if Byte.eqb c space || Byte.eqb c comma || Byte.eqb c tab
         || Byte.eqb c newline
      then skip_cmd_separators p' else p
  end.

Definition at_end (p : list byte) : bool := Byte.eqb (deref p) NUL.

(** The loop over the cmd array; [fuel] bounds the number of turns and
    [None] means it was used up. *)
Fixpoint parse_cmd (fuel : nat) (p : list byte) (argv : list (list byte))
  : M (option (list (list byte))) :=
  if negb (at_end p) && negb (Byte.eqb (deref p) rbracket)
     && (Z.of_nat (length argv) <? 255)
  then
    match fuel with
    | O => ret None
    | S fuel' =>
        let p := skip_cmd_separators p in
        if Byte.eqb (deref p) dquote then
          let p := tl p in
          let body := string_body p in
          o <- unescape_string unescape_char_cmd body ;;
          let argv := match o with
                      | Some arg => argv ++ [arg]
                      | None => argv
                      end in
          let p := skipn (length body) p in
          let p := if Byte.eqb (deref p) dquote then tl p else p in
          parse_cmd fuel' p argv
        else if negb (at_end p) && negb (Byte.eqb (deref p) rbracket)
        then parse_cmd fuel' (tl p) argv
        else parse_cmd fuel' p argv
    end
  else ret (Some argv).

(** [int timeout_ms = 30000; json_get_int(json, timeout, &timeout_ms)]. *)
Definition exec_timeout_ms (json : list byte) : Z :=
  match json_get_int json (lit "timeout") with
  | Some v => v
  | None => 30000
  end.

(** What the kernel answers to [pipe], [pipe] and [fork] for a command. *)
Inductive spawn : Type :=
| PipeFailed
| ForkFailed
| Forked (run : child_run).

(** The search for the opening bracket of the cmd array; on failure, the
    error message of the response. *)
Definition find_cmd_array (json : list byte) : list byte + list byte :=
  match strstr json (lit "'cmd'") with
  | None => inl (lit "missing cmd")
  | Some arr_start =>
      match strchr arr_start lbracket with
      | None => inl (lit "cmd must be an array")
      | Some arr_start => inr arr_start
      end
  end.

(** The arguments read from the array that opens at [arr_start]; the
    fuel given is never used up (see [parse_cmd_total]). *)
Definition exec_argv (arr_start : list byte) : M (option (list (list byte))) :=
  parse_cmd (S (length arr_start)) (tl arr_start) [].

Definition handle_exec (kernel : list (list byte) -> spawn) (json : list byte)
  : M (option (list byte)) :=
  match find_cmd_array json with
  | inl msg => strdup (error_response msg)
  | inr arr_start =>
      o <- exec_argv arr_start ;;
      match o with
      | None => fault
      | Some [] => strdup (error_response (lit "empty command"))
      | Some argv =>
          let timeout_ms := exec_timeout_ms json in
          match kernel argv with
          | PipeFailed => strdup (error_response (lit "pipe failed"))
          | ForkFailed => strdup (error_response (lit "fork failed"))
          | Forked run => exec_parent timeout_ms run
          end
      end
  end.

(** A child that writes two bytes and a newline, then exits with 0. *)
Definition echo_hi : child_run :=
  mkrun 100 [mkpoll (lit "hi" ++ [newline]) [] (Some (mkreaped 0 [] [])) 100 9] 9.

(** A child that is still running when the deadline passes. *)
Definition sleep_10 : child_run :=
  mkrun 100 [mkpoll [] [] None 100 9; mkpoll [] [] None 101 9] 9.

(** *** The unescaped text *)

(** The string the copying loop produces from a body. *)
Fixpoint unescape (sw : byte -> byte) (body : list byte) : list byte :=
  match body with
  | [] => []
  | c :: body' =>
      if Byte.eqb c backslash then
        match body' with
        | [] => [c]
        | d :: body'' => sw d :: unescape sw body''
        end
      else c :: unescape sw body'
  end.

(** ** Requests and children used in the statements *)

Definition printf_request : list byte :=
  lit "{'operation':'exec','cmd':['/bin/printf','a\rb']}".

(** A request that asks for a negative timeout, and a child that is still
    running at the first poll and exits with status 0 at the second. *)
Definition negative_timeout_request : list byte :=
  lit "{'operation':'exec','cmd':['/bin/sleep','1'],'timeout':-5000}".

Definition default_timeout_request : list byte :=
  lit "{'operation':'exec','cmd':['/bin/sleep','1']}".

Definition sleep_1 : child_run :=
  mkrun 100 [mkpoll [] [] None 100 9;
             mkpoll [] [] (Some (mkreaped 0 [] [])) 101 9] 9.

Definition timeout_key : list byte := lit "'timeout'".


(** ** File operations

    The answers of the operating system are parameters: for each path,
    what [open], [fstat], [read], [write], [stat], [unlink] and [rmdir]
    return, with the text of [strerror(errno)] on failure. *)

Inductive read_result : Type :=
| ReadError (msg : list byte)
| ReadBytes (data : list byte).

Inductive open_result : Type :=
| OpenError (msg : list byte)
| FstatError (msg : list byte)
| Opened (st_size : Z) (r : read_result).

Inductive write_result : Type :=
| OpenForWriteError (msg : list byte)
| WriteError (msg : list byte)
| Written (n : Z).

(** A [struct stat] as far as the program looks at it; the modification
    time is held as the text [gmtime] and [strftime] give for it. *)
Record stat_info : Type := mkstat {
  st_size : Z;
  st_mode : Z;
  st_mtime_text : list byte
}.

Inductive stat_result : Type :=
| StatError (msg : list byte)
| Stat (st : stat_info).

Inductive unlink_result : Type :=
| Unlinked
| UnlinkError (msg : list byte)
| IsDirectory (rmdir_error : option (list byte)).

Record system : Type := mksystem {
  sys_read : list byte -> open_result;
  sys_write : list byte -> list byte -> write_result;
  sys_stat : list byte -> stat_result;
  sys_unlink : list byte -> unlink_result;
  sys_spawn : list (list byte) -> spawn
}.

Definition errno_response (call msg : list byte) : list byte :=
  error_response (call ++ lit ": " ++ msg).

(** What file_read answers when the file is read: the base64 text of
    the bytes and their number. *)
Definition file_read_response (data : list byte) : list byte :=
  lit "{'success':true,'data':{'content':'" ++ enc data
  ++ lit "','size':" ++ decimal (len data) ++ lit "}}" ++ [newline].

Definition handle_file_read (sys : system) (path : list byte)
  : M (option (list byte)) :=
  match sys_read sys path with
  | OpenError msg => asprintf (errno_response (lit "open") msg)
  | FstatError msg => asprintf (errno_response (lit "fstat") msg)
  | Opened size r =>
      if size >? MAX_REQUEST_SIZE
      then strdup (error_response (lit "file too large"))
      else
        buf <- malloc size ;;
        match buf with
        | None => strdup out_of_memory
        | Some _ =>
            match r with
            | ReadError msg => asprintf (errno_response (lit "read") msg)
            | ReadBytes data =>
                b64 <- base64_encode data ;;
                match b64 with
                | None => strdup (error_response (lit "base64 encode failed"))
                | Some b64 =>
                    response <- asprintf
                      (lit "{'success':true,'data':{'content':'" ++ b64
                       ++ lit "','size':" ++ decimal (len data) ++ lit "}}"
                       ++ [newline]) ;;
                    or_out_of_memory response
                end
            end
        end
  end.

Definition handle_file_write (sys : system) (path content : list byte)
  : M (option (list byte)) :=
  data <- base64_decode content ;;
  match data with
  | None => strdup (error_response (lit "base64 decode failed"))
  | Some data =>
      match sys_write sys path data with
      | OpenForWriteError msg => asprintf (errno_response (lit "open") msg)
      | WriteError msg => asprintf (errno_response (lit "write") msg)
      | Written n =>
          response <- asprintf
            (lit "{'success':true,'data':{'bytes_written':" ++ decimal n
             ++ lit "}}" ++ [newline]) ;;
          or_out_of_memory response
      end
  end.

(** The conversion [%o] for the twelve permission bits. *)
Definition octal_digit (d : Z) : byte := byte_of (48 + d).

Fixpoint octal_digits (fuel : nat) (v : Z) (acc : list byte) : list byte :=
  match fuel with
  | O => acc
  | S fuel' =>
      let acc := octal_digit (v mod 8) :: acc in
      if v / 8 =? 0 then acc else octal_digits fuel' (v / 8) acc
  end.

Definition octal (v : Z) : list byte := octal_digits 4 v [].

Definition S_ISDIR (mode : Z) : bool := Z.land mode 61440 =? 16384.

Definition stat_response (path : list byte) (st : stat_info) : list byte :=
  lit "{'success':true,'data':{'path':'" ++ path
  ++ lit "','size':" ++ decimal (st_size st)
  ++ lit ",'mode':'" ++ octal (Z.land (st_mode st) 4095)
  ++ lit "','mod_time':'" ++ st_mtime_text st
  ++ lit "','is_dir':" ++ (if S_ISDIR (st_mode st) then lit "true" else lit "false")
  ++ lit "}}" ++ [newline].

Definition handle_file_stat (sys : system) (path : list byte)
  : M (option (list byte)) :=
  match sys_stat sys path with
  | StatError msg => asprintf (errno_response (lit "stat") msg)
  | Stat st =>
      response <- asprintf (stat_response path st) ;;
      or_out_of_memory response
  end.

Definition handle_file_delete (sys : system) (path : list byte)
  : M (option (list byte)) :=
  match sys_unlink sys path with
  | Unlinked | IsDirectory None =>
      strdup (lit "{'success':true,'data':{}}" ++ [newline])
  | IsDirectory (Some msg) => asprintf (errno_response (lit "rmdir") msg)
  | UnlinkError msg => asprintf (errno_response (lit "unlink") msg)
  end.

(** ** The connection handler *)

(** [memchr(buf, c, total) != NULL]. *)
Definition memchr (buf : list byte) (c : byte) : bool :=
  existsb (Byte.eqb c) buf.

(** The reading loop.  The connection is what the peer has sent and how
    the kernel hands it over: [pending] holds the bytes not yet read, and
    [chunks] gives, for each coming call of [read], the largest number of
    bytes it returns; a call finds the end of the stream when no byte or
    no entry is left.  The result is the request buffer and the bytes
    left unread. *)
Fixpoint read_request (chunks : list Z) (pending request : list byte)
  : list byte * list byte :=
  if len request <? MAX_REQUEST_SIZE - 1 then
    match chunks with
    | [] => (request, pending)
    | k :: chunks' =>
        let count := MAX_REQUEST_SIZE - len request - 1 in
        let got := take (Z.min k count) pending in
        if len got <=? 0 then (request, pending)
        else
          let request := request ++ got in
          let pending := drop (len got) pending in
          if memchr request newline then (request, pending)
          else read_request chunks' pending request
    end
  else (request, pending).

Fixpoint bytes_eqb (s t : list byte) : bool :=
  match s, t with
  | [], [] => true
  | a :: s', b :: t' => Byte.eqb a b && bytes_eqb s' t'
  | _, _ => false
  end.

Definition missing (field : list byte) : M (option (list byte)) :=
  strdup (error_response (lit "missing " ++ field)).

(** The dispatch on the operation of a request string. *)
Definition dispatch (sys : system) (request : list byte)
  : M (option (list byte)) :=
  operation <- json_get_string request (lit "operation") ;;
  match operation with
  | None => missing (lit "operation")
  | Some operation =>
      if bytes_eqb operation (lit "ping") then
        strdup (lit "{'success':true,'data':{'pong':true}}" ++ [newline])
      else if bytes_eqb operation (lit "file_read") then
        path <- json_get_string request (lit "path") ;;
        match path with
        | Some path => handle_file_read sys path
        | None => missing (lit "path")
        end
      else if bytes_eqb operation (lit "file_write") then
        path <- json_get_string request (lit "path") ;;
        content <- json_get_string request (lit "content") ;;
        match path, content with
        | Some path, Some content => handle_file_write sys path content
        | _, _ => missing (lit "path or content")
        end
      else if bytes_eqb operation (lit "file_stat") then
        path <- json_get_string request (lit "path") ;;
        match path with
        | Some path => handle_file_stat sys path
        | None => missing (lit "path")
        end
      else if bytes_eqb operation (lit "file_delete") then
        path <- json_get_string request (lit "path") ;;
        match path with
        | Some path => handle_file_delete sys path
        | None => missing (lit "path")
        end
      else if bytes_eqb operation (lit "exec") then
        handle_exec (sys_spawn sys) request
      else strdup (error_response (lit "unknown operation"))
  end.

(** [handle_connection]: the response handed to [write], if any, and the
    bytes of the peer that were never read. *)
Definition handle_connection (sys : system) (chunks : list Z)
                             (pending : list byte)
  : M (option (list byte) * list byte) :=
  buf <- malloc MAX_REQUEST_SIZE ;;
  match buf with
  | None => ret (None, pending)
  | Some _ =>
      let (request, unread) := read_request chunks pending [] in
      response <- dispatch sys (c_str (request ++ [NUL])) ;;
      ret (response, unread)
  end.

(** A system in which every call fails, for requests that make none. *)
Definition barren : system :=
  mksystem (fun _ => OpenError (lit "No such file or directory"))
           (fun _ _ => OpenForWriteError (lit "Read-only file system"))
           (fun _ => StatError (lit "No such file or directory"))
           (fun _ => UnlinkError (lit "No such file or directory"))
           (fun _ => ForkFailed).

Definition total (chunks : list Z) : Z := fold_right Z.add 0 chunks.

(** *** Requests at the size limit *)

Definition ping_text : list byte := lit "{'operation':'ping'}".

Definition pong : list byte :=
  lit "{'success':true,'data':{'pong':true}}" ++ [newline].

(** [n] blanks. *)
Definition padding (n : Z) : list byte := repeat space (Z.to_nat n).

(** A ping request of [size] bytes: the text, blanks, and the newline. *)
Definition padded_ping (size : Z) : list byte :=
  ping_text ++ padding (size - 21) ++ [newline].

(** ** The path echoed by file_stat *)

(** A system in which every path is a regular file of three bytes. *)
Definition regular_files : system :=
  mksystem (fun _ => Opened 3 (ReadBytes (lit "abc")))
           (fun _ data => Written (len data))
           (fun _ => Stat (mkstat 3 33188 (lit "2024-01-01T00:00:00Z")))
           (fun _ => Unlinked)
           (fun _ => ForkFailed).

Definition stat_quote_request : list byte :=
  lit "{'operation':'file_stat','path':'/tmp/a\'b'}" ++ [newline].

Definition stat_quote_response : list byte :=
  lit "{'success':true,'data':{'path':'/tmp/a'b','size':3,'mode':'644','mod_time':'2024-01-01T00:00:00Z','is_dir':false}}"
  ++ [newline].

(** ** Shutdown

    The main thread after start-up, as a transition system: the reaping
    loop of [main_loop], then the statements of [do_shutdown] one by one.
    The state holds the program point, the globals the main thread reads,
    the number of children [waitpid] can still collect, and the system
    calls issued so far.  Log lines are not recorded.

    The main thread is not alone.  The handlers of [setup_signals] stay
    installed to the end, so a signal may set a flag between any two
    statements; the listener thread stores into [vsock_fd], the result
    of [socket] or -1 after a failed [bind] or [listen], whenever it
    comes to do so.  Both are steps of their own.  [CloseListener] is
    the point at which [do_shutdown] tests [vsock_fd]: a store that
    comes before the test comes before this point, and the test, the
    [close] and the store of -1 after it are one step. *)

Module Lifecycle.

Inductive signal : Type := SIGTERM | SIGKILL.

Inductive reboot_cmd : Type := RB_AUTOBOOT | RB_POWER_OFF.

Inductive event : Type :=
| ReapZombies
| Usleep (usec : Z)
| Close (fd : Z)
| Kill (pid : Z) (sig : signal)
| Sleep (sec : Z)
| Waitpid (collected : bool)
| Sync
| Umount2 (target : string)
| Reboot (cmd : reboot_cmd)
| Exit (code : Z).

Inductive ending : Type :=
| Rebooted
| PoweredOff
| Exited (code : Z).

Inductive point : Type :=
| MainLoop
| CloseListener
| SendTerm
| Grace
| SendKill
| ReapAll
| FirstSync
| Unmount (targets : list string)
| CallReboot
| CallExit
| Halted (e : ending).

Record state : Type := mkstate {
  at_point : point;
  vsock_fd : Z;
  shutdown_requested : bool;
  reboot_requested : bool;
  do_reboot : bool;
  children : nat;
  trace : list event
}.

Definition mount_points : list string :=
  ["/tmp"; "/run"; "/dev/pts"; "/dev"; "/sys"; "/proc"]%string.

Definition reboot_call (do_reboot : bool) : reboot_cmd :=
  if do_reboot then RB_AUTOBOOT else RB_POWER_OFF.

Definition reboot_ending (do_reboot : bool) : ending :=
  if do_reboot then Rebooted else PoweredOff.

(** [move s p es]: the state after issuing [es] and going to [p]. *)
Definition move (s : state) (p : point) (es : list event) : state :=
  mkstate p (vsock_fd s) (shutdown_requested s) (reboot_requested s)
          (do_reboot s) (children s) (trace s ++ es).

Inductive step : state -> state -> Prop :=
| step_loop (s : state) (fd : Z) (sd rb : bool) (n : nat) :
    (* one turn of the main loop; meanwhile signals may set the flags,
       the listener thread may open its socket, children may die *)
    at_point s = MainLoop ->
    shutdown_requested s = false -> reboot_requested s = false ->
    step s (mkstate MainLoop fd sd rb (do_reboot s) n
                    (trace s ++ [ReapZombies; Usleep 100000]))
| step_enter (s : state) :
    (* main_loop returns and main calls do_shutdown(reboot_requested) *)
    at_point s = MainLoop ->
    shutdown_requested s || reboot_requested s = true ->
    step s (mkstate CloseListener (vsock_fd s) (shutdown_requested s)
                    (reboot_requested s) (reboot_requested s) (children s)
                    (trace s))
| step_close (s : state) :
    at_point s = CloseListener -> 0 <= vsock_fd s ->
    step s (mkstate SendTerm (-1) (shutdown_requested s) (reboot_requested s)
                    (do_reboot s) (children s)
                    (trace s ++ [Close (vsock_fd s)]))
| step_no_listener (s : state) :
    at_point s = CloseListener -> vsock_fd s < 0 ->
    step s (move s SendTerm [])
| step_term (s : state) :
    at_point s = SendTerm -> step s (move s Grace [Kill (-1) SIGTERM])
| step_grace (s : state) :
    at_point s = Grace -> step s (move s SendKill [Sleep 2])
| step_kill (s : state) :
    at_point s = SendKill -> step s (move s ReapAll [Kill (-1) SIGKILL])
| step_reap (s : state) (n : nat) :
    at_point s = ReapAll -> children s = S n ->
    step s (mkstate ReapAll (vsock_fd s) (shutdown_requested s)
                    (reboot_requested s) (do_reboot s) n
                    (trace s ++ [Waitpid true]))
| step_reaped (s : state) :
    at_point s = ReapAll -> children s = O ->
    step s (move s FirstSync [Waitpid false])
| step_sync (s : state) :
    at_point s = FirstSync -> step s (move s (Unmount mount_points) [Sync])
| step_umount (s : state) (t : string) (ts : list string) :
    at_point s = Unmount (t :: ts) -> step s (move s (Unmount ts) [Umount2 t])
| step_second_sync (s : state) :
    at_point s = Unmount [] -> step s (move s CallReboot [Sync])
| step_reboot (s : state) :
    (* reboot does not return *)
    at_point s = CallReboot ->
    step s (move s (Halted (reboot_ending (do_reboot s)))
                 [Reboot (reboot_call (do_reboot s))])
| step_reboot_returns (s : state) :
    at_point s = CallReboot ->
    step s (move s CallExit [Reboot (reboot_call (do_reboot s))])
| step_exit (s : state) :
    at_point s = CallExit -> step s (move s (Halted (Exited 0)) [Exit 0])
| step_signal (s : state) (sd rb : bool) :
    (* SIGTERM or SIGINT arrives and its handler runs: flags are set,
       none is cleared *)
    (forall e, at_point s <> Halted e) ->
    step s (mkstate (at_point s) (vsock_fd s) (shutdown_requested s || sd)
                    (reboot_requested s || rb) (do_reboot s) (children s)
                    (trace s))
| step_listener (s : state) (fd : Z) :
    (* the listener thread stores into vsock_fd *)
    at_point s <> CloseListener -> (forall e, at_point s <> Halted e) ->
    step s (mkstate (at_point s) fd (shutdown_requested s)
                    (reboot_requested s) (do_reboot s) (children s)
                    (trace s)).

(** Executions: zero or more steps. *)
Inductive run (s : state) : state -> Prop :=
| run_here : run s s
| run_on (s1 s2 : state) : run s s1 -> step s1 s2 -> run s s2.

(** The entry of [do_shutdown(do_reboot)], with the trace started anew. *)
Definition enter (fd : Z) (sd rb : bool) (n : nat) : state :=
  mkstate CloseListener fd sd rb rb n [].

Definition broadcast_term : event := Kill (-1) SIGTERM.

(** How far a state is from the end of the shutdown. *)
Definition distance (s : state) : nat :=
  match at_point s with
  | MainLoop => 0
  | CloseListener => 21 + children s
  | SendTerm => 20 + children s
  | Grace => 19 + children s
  | SendKill => 18 + children s
  | ReapAll => 17 + children s
  | FirstSync => 16
  | Unmount ts => 3 + length ts
  | CallReboot => 2
  | CallExit => 1
  | Halted _ => 0
  end.

(** What a step of a signal handler or of the listener thread leaves as
    it is: the program point, the children, the calls issued and the
    argument of [do_shutdown]. *)
Definition stays (s s' : state) : Prop :=
  at_point s' = at_point s /\ children s' = children s /\
  trace s' = trace s /\ do_reboot s' = do_reboot s.

(** The main thread in its loop after start-up: the listener thread has
    not yet opened its socket, no signal has arrived. *)
Definition booted : state := mkstate MainLoop (-1) false false false 0 [].

(** The end of a shutdown during which the listener thread opened its
    socket, descriptor 5, after [do_shutdown] had found [vsock_fd]
    negative. *)
Definition listener_left_open : state :=
  mkstate (Halted PoweredOff) 5 true false false 0
          [Kill (-1) SIGTERM; Sleep 2; Kill (-1) SIGKILL; Waitpid false; Sync;
           Umount2 "/tmp"; Umount2 "/run"; Umount2 "/dev/pts";
           Umount2 "/dev"; Umount2 "/sys"; Umount2 "/proc";
           Sync; Reboot RB_POWER_OFF].

End Lifecycle.

(** *** What the decoding loop stores *)

(** Bytes the decoding loop stores for a group that ends in [cc], [cd]. *)
Definition group_output (cc cd : byte) : Z := 3 - pad_count cc - pad_count cd.

(** Bytes the decoding loop stores at most for a whole input: three for
    every group but the last. *)
Fixpoint decode_output (data : list byte) : Z :=
  match data with
  | _ :: _ :: cc :: cd :: rest =>
      match rest with
      | [] => group_output cc cd
      | _ => 3 + decode_output rest
      end
  | _ => 0
  end.

(** ** The child of exec *)

(** What the forked child becomes. *)
Inductive image : Type :=
| Runs (path : list byte) (argv : list (list byte))
| ExitsWith (code : Z).

(** [strcat(dst, s)]: the characters of [s] and a terminator are stored
    after the string held by [dst]. *)
Definition strcat (dst : buffer) (s : list byte) : M buffer :=
  if len (stored dst) + len s + 1 <=? cap dst
  then ret (mkbuf (cap dst) (stored dst ++ s))
  else fault.

(** The loop that joins the arguments with blanks into [cmd_line]. *)
Fixpoint join_args (first : bool) (argv : list (list byte)) (line : buffer)
  : M buffer :=
  match argv with
  | [] => ret line
  | arg :: argv' =>
      line <- (if first then ret line else strcat line [space]) ;;
      line <- strcat line arg ;;
      join_args false argv' line
  end.

Definition bin_sh : list byte := lit "/bin/sh".

(** The child after the descriptors are set up: [execve] of the program,
    on failure [execve] of the shell on the joined arguments, on failure
    of that [_exit(127)].  [can_exec] tells which paths [execve] accepts. *)
Definition exec_child (can_exec : list byte -> bool) (argv : list (list byte))
  : M image :=
  if can_exec (hd [] argv) then ret (Runs (hd [] argv) argv)
  else
    line <- join_args true argv (mkbuf 4096 []) ;;
    if can_exec bin_sh
    then ret (Runs bin_sh [bin_sh; lit "-c"; stored line])
    else ret (ExitsWith 127).

(** ** Further notions used in the properties *)

(** A character of the base64 alphabet. *)
Definition base64_digit (c : byte) : bool := 0 <=? base64_decode_table c.

(** A character of the base64 alphabet, or the padding character. *)
Definition base64_text (c : byte) : bool := base64_digit c || Byte.eqb c pad.

(** The four characters of a group the decoding loop accepts: two of the
    alphabet, then two that are of the alphabet or the padding. *)
Fixpoint base64_groups (data : list byte) : bool :=
  match data with
  | [] => true
  | ca :: cb :: cc :: cd :: rest =>
      base64_digit ca && base64_digit cb && base64_text cc && base64_text cd
      && base64_groups rest
  | _ => false
  end.

(** Whether a pointer result is not NULL. *)
Definition is_some {A : Type} (o : option A) : bool :=
  match o with
  | Some _ => true
  | None => false
  end.

(** A byte from 0x20 on. *)
Definition printable (c : byte) : bool := 32 <=? byte_val c.

(** The characters [json_get_string] and [json_get_int] skip after a key. *)
Definition is_separator (c : byte) : bool :=
  Byte.eqb c space || Byte.eqb c colon || Byte.eqb c tab.

(** A text that is one line: it ends with its only newline. *)
Definition one_line (text : list byte) : Prop :=
  exists body, text = body ++ [newline] /\ memchr body newline = false.

(** The characters [%d] can print. *)
Definition decimal_char (c : byte) : bool := isdigit c || Byte.eqb c "-".

(** The bytes of a string of the standard library. *)
Definition bytes_of_uint (d : Decimal.uint) : list byte :=
  list_byte_of_string (NilZero.string_of_uint d).

(** What a pipe has offered to the reads of the supervising loop by the
    time the loop ends: [ready] selects the bytes a poll finds in the
    pipe and [last] those written between the reads and the exit. *)
Fixpoint offered (ready : poll -> list byte) (last : reaped -> list byte)
                 (timeout_ms start : Z) (polls : list poll) : list byte :=
  match polls with
  | [] => []
  | p :: polls' =>
      ready p ++
      match wait_nohang p with
      | Some r => last r
      | None =>
          if clock p - start >? Z.quot timeout_ms 1000 then []
          else offered ready last timeout_ms start polls'
      end
  end.

(** The elements of a cmd array as a client writes them: each argument
    escaped between quotes, a comma between two of them. *)
Fixpoint cmd_items (first : bool) (args : list (list byte)) : list byte :=
  match args with
  | [] => []
  | a :: args' =>
      (if first then [] else [comma])
      ++ dquote :: escaped a ++ dquote :: cmd_items false args'
  end.

(** Characters whose escaped form the cmd array parser reads back:
    newline, tab and all that are not control characters. *)
Definition cmd_safe (c : byte) : bool :=
  Byte.eqb c newline || Byte.eqb c tab || negb (byte_val c <? 32).

(** The arguments with one blank between two of them. *)
Fixpoint joined (first : bool) (argv : list (list byte)) : list byte :=
  match argv with
  | [] => []
  | a :: argv' => (if first then [] else [space]) ++ a ++ joined false argv'
  end.

(** A character that stands for itself in a string: from 0x20 on, and
    neither the quote nor the backslash. *)
Definition plain (c : byte) : bool :=
  printable c && negb (Byte.eqb c dquote) && negb (Byte.eqb c backslash).

(** A file_write request as a client writes it, for a path of plain
    characters and a content already in base64. *)
Definition file_write_request (path content : list byte) : list byte :=
  lit "{'operation':'file_write','path':'" ++ path
  ++ lit "','content':'" ++ content ++ lit "'}" ++ [newline].

(** An exec request as a client writes it, without a timeout field. *)
Definition exec_request (args : list (list byte)) : list byte :=
  lit "{'operation':'exec','cmd':" ++ lbracket :: cmd_items true args
  ++ rbracket :: lit "}" ++ [newline].

(** The characters at which [json_get_int] goes on reading: those its
    own loop and [atoi] skip, a sign, a digit. *)
Definition numeric_start (c : byte) : bool :=
  is_separator c || isspace c || isdigit c
  || Byte.eqb c "-" || Byte.eqb c "+".

(** ** The calls of a shutdown, in full *)

Module ShutdownSequence.
Import Lifecycle.

(** The listener is closed when there is one. *)
Definition closing (fd0 : Z) : list event :=
  if 0 <=? fd0 then [Close fd0] else [].

Definition signalling : list event :=
  [Kill (-1) SIGTERM; Sleep 2; Kill (-1) SIGKILL].

(** [waitpid] collects the [n] children and then finds none. *)
Definition reaping (n : nat) : list event :=
  repeat (Waitpid true) n ++ [Waitpid false].

Definition unmounting : list event :=
  Sync :: map Umount2 mount_points ++ [Sync].

(** What the process does after [reboot], if that call returns. *)
Definition leaving (e : ending) : list event :=
  match e with
  | Exited _ => [Exit 0]
  | _ => []
  end.

(** The calls issued on reaching the point of a state, in a shutdown
    entered with listener [fd0], [n] children and argument [rb]. *)
Definition issued (fd0 : Z) (n : nat) (rb : bool) (s : state) : list event :=
  match at_point s with
  | MainLoop | CloseListener => []
  | SendTerm => closing fd0
  | Grace => closing fd0 ++ [Kill (-1) SIGTERM]
  | SendKill => closing fd0 ++ [Kill (-1) SIGTERM; Sleep 2]
  | ReapAll =>
      closing fd0 ++ signalling ++ repeat (Waitpid true) (n - children s)
  | FirstSync => closing fd0 ++ signalling ++ reaping n
  | Unmount ts =>
      closing fd0 ++ signalling ++ reaping n
      ++ Sync :: map Umount2 (firstn (length mount_points - length ts)
                                     mount_points)
  | CallReboot => closing fd0 ++ signalling ++ reaping n ++ unmounting
  | CallExit =>
      closing fd0 ++ signalling ++ reaping n ++ unmounting
      ++ [Reboot (reboot_call rb)]
  | Halted e =>
      closing fd0 ++ signalling ++ reaping n ++ unmounting
      ++ [Reboot (reboot_call rb)] ++ leaving e
  end.

(** What holds of every state of such a shutdown. *)
Record on_course (fd0 : Z) (n : nat) (rb : bool) (s : state) : Prop := mkcourse {
  course_trace : trace s = issued fd0 n rb s;
  course_arg : do_reboot s = rb;
  course_fd : at_point s = CloseListener -> vsock_fd s = fd0;
  course_children :
    match at_point s with
    | MainLoop => False
    | CloseListener | SendTerm | Grace | SendKill => children s = n
    | ReapAll => (children s <= n)%nat
    | Unmount ts => exists k, ts = skipn k mount_points
    | Halted e => e = reboot_ending rb \/ e = Exited 0
    | _ => True
    end
}.

(** A shutdown that powers off, entered with the listener on descriptor
    5 and one child to collect. *)
Definition powered_off : state :=
  mkstate (Halted PoweredOff) (-1) true false false 0
          [Close 5; Kill (-1) SIGTERM; Sleep 2; Kill (-1) SIGKILL;
           Waitpid true; Waitpid false; Sync;
           Umount2 "/tmp"; Umount2 "/run"; Umount2 "/dev/pts";
           Umount2 "/dev"; Umount2 "/sys"; Umount2 "/proc";
           Sync; Reboot RB_POWER_OFF].

End ShutdownSequence.

(** ** Start-up and the listener

    The calls of the start-up functions and of the listener thread go to
    the kernel, which is a parameter: it answers each call, given the
    calls made and answered before, with a return value and the value it
    leaves in [errno].  The functions below thread the list of the calls
    made so far.  Log lines are not recorded. *)

Module Boot.

Definition EBUSY : Z := 16.
Definition EEXIST : Z := 17.

Definition MS_NOSUID : Z := 2.
Definition MS_NODEV : Z := 4.
Definition MS_NOEXEC : Z := 8.
Definition S_IFCHR : Z := 8192.
Definition IFF_UP : Z := 1.
Definition IFF_RUNNING : Z := 64.
Definition AF_INET : Z := 2.
Definition SOCK_DGRAM : Z := 2.
Definition AF_VSOCK : Z := 40.
Definition SOCK_STREAM : Z := 1.
Definition VMADDR_CID_ANY : Z := 4294967295.
Definition VSOCK_PORT : Z := 52.

Inductive call : Type :=
| Stat (path : string)
| Mkdir (path : string) (mode : Z)
| Mount (source target fstype : string) (flags : Z) (data : option string)
| Mknod (path : string) (mode : Z) (major minor : Z)
| Symlink (target linkpath : string)
| Socket (domain type protocol : Z)
| GetFlags (fd : Z) (ifname : string)
| SetFlags (fd : Z) (ifname : string) (flags : Z)
| Close (fd : Z)
| Bind (fd cid port : Z)
| Listen (fd backlog : Z)
| Accept (fd : Z)
| PthreadCreate (client_fd : Z)
| PthreadDetach (client_fd : Z).

(** The return value of a call and the [errno] it leaves; for
    [SIOCGIFFLAGS] also the flags stored in the request. *)
Record answer : Type := mkanswer { ret : Z; errno : Z; ifr_flags : Z }.

Definition event : Type := (call * answer)%type.

Definition kernel : Type := list event -> call -> answer.

(** A computation that makes calls: from the calls made so far to a
    result and the calls made then. *)
Definition Sys (A : Type) : Type := list event -> A * list event.

Definition unit_sys {A : Type} (a : A) : Sys A := fun tr => (a, tr).

Definition then_sys {A B : Type} (m : Sys A) (f : A -> Sys B) : Sys B :=
  fun tr => let (a, tr') := m tr in f a tr'.

Notation "x <~ m ;; k" := (then_sys m (fun x => k))
  (at level 61, m at next level, right associativity).

Definition syscall (k : kernel) (c : call) : Sys answer :=
  fun tr => let a := k tr c in (a, tr ++ [(c, a)]).

Section WithKernel.
Variable k : kernel.

Definition mount_fs (source target fstype : string) (flags : Z)
                    (data : option string) : Sys Z :=
  st <~ syscall k (Stat target) ;;
  made <~ (if negb (ret st =? 0) then
             mk <~ syscall k (Mkdir target 493) ;;
             unit_sys (negb (negb (ret mk =? 0) && negb (errno mk =? EEXIST)))
           else unit_sys true) ;;
  if made then
    m <~ syscall k (Mount source target fstype flags data) ;;
    if negb (ret m =? 0) then
      if negb (errno m =? EBUSY) then unit_sys (-1) else unit_sys 0
    else unit_sys 0
  else unit_sys (-1).

(** The table of device nodes: path, mode, major and minor number. *)
Definition devices : list (string * Z * Z * Z) :=
  [("/dev/null", Z.lor S_IFCHR 438, 1, 3);
   ("/dev/zero", Z.lor S_IFCHR 438, 1, 5);
   ("/dev/full", Z.lor S_IFCHR 438, 1, 7);
   ("/dev/random", Z.lor S_IFCHR 438, 1, 8);
   ("/dev/urandom", Z.lor S_IFCHR 438, 1, 9);
   ("/dev/tty", Z.lor S_IFCHR 438, 5, 0);
   ("/dev/console", Z.lor S_IFCHR 384, 5, 1);
   ("/dev/ptmx", Z.lor S_IFCHR 438, 5, 2)]%string.

Fixpoint make_devices (ds : list (string * Z * Z * Z)) : Sys unit :=
  match ds with
  | [] => unit_sys tt
  | (path, mode, major, minor) :: ds' =>
      st <~ syscall k (Stat path) ;;
      _ <~ (if negb (ret st =? 0)
            then _ <~ syscall k (Mknod path mode major minor) ;; unit_sys tt
            else unit_sys tt) ;;
      make_devices ds'
  end.

Definition setup_filesystems : Sys Z :=
  r <~ mount_fs "proc" "/proc" "proc"
                (Z.lor (Z.lor MS_NOSUID MS_NODEV) MS_NOEXEC) None ;;
  if negb (r =? 0) then unit_sys (-1) else
  r <~ mount_fs "sysfs" "/sys" "sysfs"
                (Z.lor (Z.lor MS_NOSUID MS_NODEV) MS_NOEXEC) None ;;
  if negb (r =? 0) then unit_sys (-1) else
  r <~ mount_fs "devtmpfs" "/dev" "devtmpfs" MS_NOSUID (Some "mode=0755"%string) ;;
  r <~ (if negb (r =? 0)
        then mount_fs "tmpfs" "/dev" "tmpfs" MS_NOSUID (Some "mode=0755"%string)
        else unit_sys 0) ;;
  if negb (r =? 0) then unit_sys (-1) else
  _ <~ syscall k (Mkdir "/dev/pts" 493) ;;
  _ <~ mount_fs "devpts" "/dev/pts" "devpts" (Z.lor MS_NOSUID MS_NOEXEC)
                (Some "gid=5,mode=620,ptmxmode=666"%string) ;;
  _ <~ mount_fs "tmpfs" "/run" "tmpfs" (Z.lor MS_NOSUID MS_NODEV)
                (Some "mode=0755"%string) ;;
  _ <~ mount_fs "tmpfs" "/tmp" "tmpfs" (Z.lor MS_NOSUID MS_NODEV)
                (Some "mode=1777"%string) ;;
  _ <~ make_devices devices ;;
  _ <~ syscall k (Symlink "/proc/self/fd" "/dev/fd") ;;
  _ <~ syscall k (Symlink "/proc/self/fd/0" "/dev/stdin") ;;
  _ <~ syscall k (Symlink "/proc/self/fd/1" "/dev/stdout") ;;
  _ <~ syscall k (Symlink "/proc/self/fd/2" "/dev/stderr") ;;
  unit_sys 0.

Definition setup_loopback : Sys Z :=
  s <~ syscall k (Socket AF_INET SOCK_DGRAM 0) ;;
  let sock := ret s in
  if sock <? 0 then unit_sys (-1) else
  g <~ syscall k (GetFlags sock "lo") ;;
  if ret g <? 0 then
    _ <~ syscall k (Close sock) ;; unit_sys (-1)
  else
    let flags := Z.lor (ifr_flags g) (Z.lor IFF_UP IFF_RUNNING) in
    p <~ syscall k (SetFlags sock "lo" flags) ;;
    if ret p <? 0 then
      _ <~ syscall k (Close sock) ;; unit_sys (-1)
    else
      _ <~ syscall k (Close sock) ;; unit_sys 0.

Definition setup_networking : Sys Z :=
  _ <~ setup_loopback ;; unit_sys 0.

(** The two flags as the listener finds them at its loop test; signal
    handlers set them behind its back, so they are a parameter too. *)
Variable flags : list event -> bool * bool.

(** The accepting loop of [vsock_server]; [fuel] bounds the number of
    turns, and [false] means the loop is still running when it is used
    up. *)
Fixpoint serve (fuel : nat) (vsock_fd : Z) : Sys bool :=
  match fuel with
  | O => unit_sys false
  | S fuel' =>
      fun tr =>
        let (shutdown_requested, reboot_requested) := flags tr in
        if negb shutdown_requested && negb reboot_requested then
          (c <~ syscall k (Accept vsock_fd) ;;
           let client_fd := ret c in
           if client_fd <? 0 then serve fuel' vsock_fd
           else
             t <~ syscall k (PthreadCreate client_fd) ;;
             if negb (ret t =? 0) then
               _ <~ syscall k (Close client_fd) ;; serve fuel' vsock_fd
             else
               _ <~ syscall k (PthreadDetach client_fd) ;; serve fuel' vsock_fd)
            tr
        else (true, tr)
  end.

(** [vsock_server]: the value left in the global [vsock_fd], and
    whether the function has returned. *)
Definition vsock_server (fuel : nat) : Sys (Z * bool) :=
  s <~ syscall k (Socket AF_VSOCK SOCK_STREAM 0) ;;
  let vsock_fd := ret s in
  if vsock_fd <? 0 then unit_sys (vsock_fd, true) else
  b <~ syscall k (Bind vsock_fd VMADDR_CID_ANY VSOCK_PORT) ;;
  if ret b <? 0 then
    _ <~ syscall k (Close vsock_fd) ;; unit_sys (-1, true)
  else
    l <~ syscall k (Listen vsock_fd 16) ;;
    if ret l <? 0 then
      _ <~ syscall k (Close vsock_fd) ;; unit_sys (-1, true)
    else
      returned <~ serve fuel vsock_fd ;; unit_sys (vsock_fd, returned).

End WithKernel.

(** The mount calls with their answers, in the order of the calls. *)
Definition mounts (tr : list event) : list (string * answer) :=
  flat_map (fun e => match e with
                     | (Mount _ target _ _ _, a) => [(target, a)]
                     | _ => []
                     end) tr.

(** The targets of the mounts that succeeded. *)
Definition mounted (tr : list event) : list string :=
  map fst (filter (fun m => ret (snd m) =? 0) (mounts tr)).

(** The test of [mount_fs] on the answer of [mount]: done, or busy. *)
Definition settles (a : answer) : bool := (ret a =? 0) || (errno a =? EBUSY).

(** The targets [mount_fs] reports as mounted. *)
Definition settled (tr : list event) : list string :=
  map fst (filter (fun m => settles (snd m)) (mounts tr)).

(** The device nodes and links asked for. *)
Definition nodes (tr : list event) : list string :=
  flat_map (fun e => match e with
                     | (Mknod path _ _ _, _) => [path]
                     | (Symlink _ linkpath, _) => [linkpath]
                     | _ => []
                     end) tr.

Definition among (l : list string) (t : string) : bool :=
  existsb (String.eqb t) l.

(** The descriptors opened and closed, in the order of the calls. *)
Definition opened (tr : list event) : list Z :=
  flat_map (fun e => match e with
                     | (Socket _ _ _, a) => if ret a <? 0 then [] else [ret a]
                     | _ => []
                     end) tr.

Definition closed (tr : list event) : list Z :=
  flat_map (fun e => match e with
                     | (Close fd, _) => [fd]
                     | _ => []
                     end) tr.

(** The connections accepted, the descriptors handed to
    [pthread_create], and those for which it failed. *)
Definition accepted (tr : list event) : list Z :=
  flat_map (fun e => match e with
                     | (Accept _, a) => if ret a <? 0 then [] else [ret a]
                     | _ => []
                     end) tr.

Definition threads (tr : list event) : list Z :=
  flat_map (fun e => match e with
                     | (PthreadCreate fd, _) => [fd]
                     | _ => []
                     end) tr.

Definition refused (tr : list event) : list Z :=
  flat_map (fun e => match e with
                     | (PthreadCreate fd, a) => if ret a =? 0 then [] else [fd]
                     | _ => []
                     end) tr.

End Boot.

(** ** Signals

    The dispositions [setup_signals] installs and the handlers it names.
    A handler runs on the two flags; the kernel runs the handler
    installed for a signal when it delivers that signal. *)

Module Signals.

Inductive signo : Type :=
| SIGHUP | SIGINT | SIGUSR1 | SIGUSR2 | SIGTERM | SIGCHLD
| OtherSignal (n : Z).

Definition signo_eqb (a b : signo) : bool :=
  match a, b with
  | SIGHUP, SIGHUP | SIGINT, SIGINT | SIGUSR1, SIGUSR1
  | SIGUSR2, SIGUSR2 | SIGTERM, SIGTERM | SIGCHLD, SIGCHLD => true
  | OtherSignal n, OtherSignal m => n =? m
  | _, _ => false
  end.

Record globals : Type := mkglobals {
  shutdown_requested : bool;
  reboot_requested : bool
}.

Definition handle_sigterm (g : globals) : globals :=
  mkglobals true (reboot_requested g).

Definition handle_sigint (g : globals) : globals :=
  mkglobals (shutdown_requested g) true.

Definition handle_sigchld (g : globals) : globals := g.

Inductive disposition : Type :=
| SIG_DFL
| SIG_IGN
| Handler (f : globals -> globals).

Definition SA_NOCLDSTOP : Z := 1.

Record sigaction_t : Type := mksigaction {
  sa_handler : disposition;
  sa_flags : Z
}.

(** The table of dispositions of the process. *)
Definition table : Type := signo -> sigaction_t.

Definition sigaction (sig : signo) (sa : sigaction_t) (t : table) : table :=
  fun s => if signo_eqb s sig then sa else t s.

Definition setup_signals (t : table) : table :=
  let sa := mksigaction SIG_IGN 0 in
  let t := sigaction SIGHUP sa t in
  let t := sigaction SIGUSR1 sa t in
  let t := sigaction SIGUSR2 sa t in
  let sa := mksigaction (Handler handle_sigterm) (sa_flags sa) in
  let t := sigaction SIGTERM sa t in
  let sa := mksigaction (Handler handle_sigint) (sa_flags sa) in
  let t := sigaction SIGINT sa t in
  let sa := mksigaction (Handler handle_sigchld) SA_NOCLDSTOP in
  sigaction SIGCHLD sa t.

(** The delivery of a signal: [None] when the default action is taken. *)
Definition deliver (t : table) (sig : signo) (g : globals) : option globals :=
  match sa_handler (t sig) with
  | SIG_DFL => None
  | SIG_IGN => Some g
  | Handler f => Some (f g)
  end.

Fixpoint deliver_all (t : table) (sigs : list signo) (g : globals)
  : option globals :=
  match sigs with
  | [] => Some g
  | sig :: sigs' =>
      match deliver t sig g with
      | None => None
      | Some g' => deliver_all t sigs' g'
      end
  end.

(** The signals [setup_signals] gives a disposition. *)
Definition provided (sig : signo) : bool :=
  match sig with
  | OtherSignal _ => false
  | _ => true
  end.

(** The process as the kernel starts it: every signal at its default. *)
Definition at_exec : table := fun _ => mksigaction SIG_DFL 0.

End Signals.

(** ** From the main loop to the end *)

(** The main thread in its loop, a shutdown requested, the listener on
    descriptor 5 and one child alive. *)
Definition asked_to_stop : Lifecycle.state :=
  Lifecycle.mkstate Lifecycle.MainLoop 5 true false false 1 [].

Module MainLoopCourse.
Import Lifecycle.

(** What holds once the main loop has been left, in an execution from
    [s0]: the loop was left in a state [s1] with a request pending, the
    argument of [do_shutdown] is the reboot flag of [s1], and the flags
    set then are still set. *)
Definition decided (s0 s : state) : Prop :=
  at_point s = MainLoop \/
  exists s1,
    run s0 s1 /\ at_point s1 = MainLoop /\
    shutdown_requested s1 || reboot_requested s1 = true /\
    do_reboot s = reboot_requested s1 /\
    (reboot_requested s1 = true -> reboot_requested s = true) /\
    (shutdown_requested s1 = true -> shutdown_requested s = true) /\
    forall e, at_point s = Halted e ->
              e = reboot_ending (reboot_requested s1) \/ e = Exited 0.

(** The end of a shutdown asked for by SIGTERM, with a SIGINT arriving
    during the two seconds of grace. *)
Definition late_reboot_request : state :=
  mkstate (Halted PoweredOff) (-1) true true false 0
          [Close 5; Kill (-1) SIGTERM; Sleep 2; Kill (-1) SIGKILL;
           Waitpid true; Waitpid false; Sync;
           Umount2 "/tmp"; Umount2 "/run"; Umount2 "/dev/pts";
           Umount2 "/dev"; Umount2 "/sys"; Umount2 "/proc";
           Sync; Reboot RB_POWER_OFF].

End MainLoopCourse.

(** ** The allocator and the escape buffer *)

(** Whether the request number [i] to the allocator, counted from 0, is
    granted. *)
Definition granted (h : heap) (i : nat) : bool := nth i h true.

(** Whether [json_escape], its buffer granted, stays inside that buffer
    on a string. *)
Definition in_bounds (str : list byte) : bool :=
  match json_escape str [] with
  | Done _ => true
  | Fault => false
  end.

(** A child that prints the word red in colour, between the escape
    sequences of the terminal, and exits with 0. *)
Definition red_text : list byte :=
  x1b :: lit "[31mred" ++ x1b :: lit "[0m" ++ [newline].

Definition prints_red : child_run :=
  mkrun 100 [mkpoll red_text [] (Some (mkreaped 0 [] [])) 100 9] 9.

(** A system that forks for every command a child still running at the
    first poll and gone at the second. *)
Definition forking : system :=
  mksystem (fun _ => OpenError (lit "No such file or directory"))
           (fun _ _ => OpenForWriteError (lit "Read-only file system"))
           (fun _ => StatError (lit "No such file or directory"))
           (fun _ => UnlinkError (lit "No such file or directory"))
           (fun _ => Forked sleep_1).

(** * Properties *)

(** ** Base64: concrete runs *)

Example base64_encode_hello :
  base64_encode (lit "hello") [] = Done (Some (lit "aGVsbG8="), []).
Proof. reflexivity. Qed.

Example base64_decode_hello :
  base64_decode (lit "aGVsbG8=") [] = Done (Some (lit "hello"), []).
Proof. reflexivity. Qed.

Example base64_decode_bad_length :
  base64_decode (lit "abc") [] = Done (None, []).
Proof. reflexivity. Qed.

(** ** Basic facts about bytes, buffers and loads *)

Lemma byte_val_range (c : byte) : 0 <= byte_val c < 256.
Proof.
  unfold byte_val. pose proof (Byte.to_N_bounded c). lia.
Qed.

Lemma byte_of_val (c : byte) : byte_of (byte_val c) = c.
Proof.
  unfold byte_of. rewrite Z.mod_small by apply byte_val_range.
  unfold byte_val. rewrite N2Z.id, Byte.of_to_N. reflexivity.
Qed.

Lemma len_nil : len [] = 0.
Proof. reflexivity. Qed.

Lemma len_cons (c : byte) (s : list byte) : len (c :: s) = len s + 1.
Proof. unfold len. cbn [length]. lia. Qed.

Lemma len_app (s t : list byte) : len (s ++ t) = len s + len t.
Proof. unfold len. rewrite length_app. lia. Qed.

Lemma len_nonneg (s : list byte) : 0 <= len s.
Proof. unfold len. lia. Qed.

Ltac len_simpl := rewrite ?len_app, ?len_cons, ?len_nil.

Lemma load_here (pre suf : list byte) (c : byte) (h : heap) :
  load (pre ++ c :: suf) (len pre) h = Done (c, h).
Proof.
  unfold load. len_simpl.
  pose proof (len_nonneg pre). pose proof (len_nonneg suf).
  replace ((0 <=? len pre) && (len pre <? len pre + (len suf + 1))) with true
    by (symmetry; apply andb_true_iff; split; [apply Z.leb_le | apply Z.ltb_lt]; lia).
  unfold len. rewrite Nat2Z.id, nth_middle. reflexivity.
Qed.

Lemma load_at (pre mid suf : list byte) (c : byte) (i : Z) (h : heap) :
  i = len pre + len mid ->
  load (pre ++ mid ++ c :: suf) i h = Done (c, h).
Proof.
  intros ->. rewrite app_assoc, <- len_app. apply load_here.
Qed.

Lemma load_at1 (pre suf : list byte) (a c : byte) (h : heap) :
  load (pre ++ a :: c :: suf) (len pre + 1) h = Done (c, h).
Proof. apply (load_at pre [a]). len_simpl. lia. Qed.

Lemma load_at2 (pre suf : list byte) (a b c : byte) (h : heap) :
  load (pre ++ a :: b :: c :: suf) (len pre + 2) h = Done (c, h).
Proof. apply (load_at pre [a; b]). len_simpl. lia. Qed.

Lemma load_at3 (pre suf : list byte) (a b c d : byte) (h : heap) :
  load (pre ++ a :: b :: c :: d :: suf) (len pre + 3) h = Done (d, h).
Proof. apply (load_at pre [a; b; c]). len_simpl. lia. Qed.

Lemma load_outside (data : list byte) (i : Z) (h : heap) :
  i < 0 \/ len data <= i -> load data i h = Fault.
Proof.
  intros H. unfold load.
  destruct (Z.leb_spec 0 i); cbn [andb]; [|reflexivity].
  destruct (Z.ltb_spec i (len data)); [lia | reflexivity].
Qed.

Lemma put_room (out : buffer) (c : byte) (h : heap) :
  len (stored out) < cap out ->
  put out c h = Done (mkbuf (cap out) (stored out ++ [c]), h).
Proof.
  intros H. unfold put. rewrite (proj2 (Z.ltb_lt _ _) H). reflexivity.
Qed.

Lemma put_full (out : buffer) (c : byte) (h : heap) :
  cap out <= len (stored out) -> put out c h = Fault.
Proof.
  intros H. unfold put. rewrite (proj2 (Z.ltb_ge _ _) H). reflexivity.
Qed.

Lemma terminate_room (out : buffer) (h : heap) :
  len (stored out) < cap out -> terminate out h = Done (stored out, h).
Proof.
  intros H. unfold terminate. rewrite (proj2 (Z.ltb_lt _ _) H). reflexivity.
Qed.

Lemma malloc_plentiful (n : Z) (h : heap) :
  plentiful h -> malloc n h = Done (Some (mkbuf n []), tl h).
Proof.
  intros H. destruct h as [|b h]; [reflexivity|].
  inversion H; subst. reflexivity.
Qed.

Lemma plentiful_tl (h : heap) : plentiful h -> plentiful (tl h).
Proof.
  intros H. destruct h; [exact H|]. inversion H; assumption.
Qed.

(** ** Bit-level reasoning *)

Lemma testbit_small (x i : Z) : 0 <= x < 256 -> 8 <= i -> Z.testbit x i = false.
Proof.
  intros Hx Hi. destruct (Z.eq_dec x 0) as [->|Hn]; [apply Z.testbit_0_l|].
  apply Z.bits_above_log2; [lia|].
  assert (Z.log2 x < 8) by (apply Z.log2_lt_pow2; lia). lia.
Qed.

Ltac decide_cmp :=
  repeat match goal with
  | |- context [Z.leb ?a ?b] =>
      first [ rewrite (proj2 (Z.leb_le a b)) by lia
            | rewrite (proj2 (Z.leb_gt a b)) by lia
            | destruct (Z.leb_spec a b) ]
  | |- context [Z.ltb ?a ?b] =>
      first [ rewrite (proj2 (Z.ltb_lt a b)) by lia
            | rewrite (proj2 (Z.ltb_ge a b)) by lia
            | destruct (Z.ltb_spec a b) ]
  end.

Ltac bit_step :=
  first
    [ rewrite Z.lor_spec | rewrite Z.land_spec
    | rewrite Z.shiftr_spec by lia
    | rewrite Z.shiftl_spec by lia
    | rewrite Z.testbit_ones by lia
    | rewrite Z.testbit_0_l
    | match goal with
      | |- context [Z.testbit ?x ?j] =>
          first [ rewrite (Z.testbit_neg_r x j) by lia
                | rewrite (testbit_small x j) by (assumption || lia) ]
      end
    | progress (cbn [andb orb])
    | rewrite andb_false_r | rewrite andb_true_r
    | rewrite orb_false_r | rewrite orb_true_r ].

(** Equality of two integers, bit by bit. *)
Ltac bits :=
  apply Z.bits_inj'; intros ?i ?Hi;
  repeat (decide_cmp; bit_step); decide_cmp;
  repeat match goal with
  | |- context [Z.testbit ?x ?j] =>
      match goal with
      | i : Z |- _ => progress replace j with i by lia
      end
  end;
  try reflexivity.

Lemma sextet_range (n k : Z) : 0 <= sextet n k < 64.
Proof.
  unfold sextet. change 63 with (Z.ones 6). rewrite Z.land_ones by lia.
  apply Z.mod_pos_bound. reflexivity.
Qed.

Section Regroup.
Variables x y z : Z.
Hypothesis Hx : 0 <= x < 256.
Hypothesis Hy : 0 <= y < 256.
Hypothesis Hz : 0 <= z < 256.

Lemma regroup3 :
  let n := Z.lor (Z.lor (Z.shiftl x 16) (Z.shiftl y 8)) z in
  let m := regroup (sextet n 18) (sextet n 12) (sextet n 6) (Z.land n 63) in
  Z.land (Z.shiftr m 16) 255 = x /\ Z.land (Z.shiftr m 8) 255 = y /\
  Z.land m 255 = z.
Proof.
  intros n m. subst n m. unfold regroup, sextet.
  change 63 with (Z.ones 6). change 255 with (Z.ones 8).
  repeat split; bits.
Qed.

Lemma regroup2 :
  let n := Z.lor (Z.shiftl x 16) (Z.shiftl y 8) in
  let m := regroup (sextet n 18) (sextet n 12) (sextet n 6) 0 in
  Z.land (Z.shiftr m 16) 255 = x /\ Z.land (Z.shiftr m 8) 255 = y.
Proof.
  intros n m. subst n m. unfold regroup, sextet.
  change 63 with (Z.ones 6). change 255 with (Z.ones 8).
  repeat split; bits.
Qed.

Lemma regroup1 :
  let n := Z.shiftl x 16 in
  let m := regroup (sextet n 18) (sextet n 12) 0 0 in
  Z.land (Z.shiftr m 16) 255 = x.
Proof.
  intros n m. subst n m. unfold regroup, sextet.
  change 63 with (Z.ones 6). change 255 with (Z.ones 8).
  bits.
Qed.
End Regroup.

(** ** The encoder writes the expected text and stays inside its buffer *)

(** The two tables are inverse to each other on the 64 sextets, and no
    sextet is written as the padding character. *)
Lemma base64_tables_inverse (k : Z) :
  0 <= k < 64 ->
  base64_decode_table (base64_char k) = k /\
  Byte.eqb (base64_char k) pad = false.
Proof.
  intros Hk.
  assert (Hall : forallb
            (fun k => (base64_decode_table (base64_char k) =? k) &&
                      negb (Byte.eqb (base64_char k) pad))
            (map Z.of_nat (seq 0 64)) = true) by reflexivity.
  rewrite forallb_forall in Hall.
  specialize (Hall k). 
  assert (Hin : In k (map Z.of_nat (seq 0 64))).
  { apply in_map_iff. exists (Z.to_nat k). split; [lia|].
    apply in_seq. lia. }
  apply Hall in Hin. apply andb_true_iff in Hin. destruct Hin as [H1 H2].
  split; [apply Z.eqb_eq, H1 | apply negb_true_iff, H2].
Qed.

Lemma list_ind3 (P : list byte -> Prop) :
  P [] -> (forall x, P [x]) -> (forall x y, P [x; y]) ->
  (forall x y z r, P r -> P (x :: y :: z :: r)) ->
  forall l, P l.
Proof.
  intros H0 H1 H2 H3.
  assert (H : forall l, P l /\ (forall x, P (x :: l)) /\ (forall x y, P (x :: y :: l))).
  { induction l as [|c l [IH0 [IH1 IH2]]].
    - repeat split; auto.
    - repeat split; auto. }
  intros l. apply H.
Qed.

Lemma groups_trips (b : list byte) :
  Z.to_nat ((len b + 2) / 3) = groups b.
Proof.
  induction b as [| x | x y | x y z r IH] using list_ind3; try reflexivity.
  len_simpl. cbn [groups]. rewrite <- IH.
  replace (len r + 1 + 1 + 1 + 2) with ((len r + 2) + 1 * 3) by lia.
  rewrite Z.div_add by lia.
  pose proof (len_nonneg r).
  assert (0 <= (len r + 2) / 3) by (apply Z.div_pos; lia).
  lia.
Qed.

Lemma len_enc (b : list byte) : len (enc b) = 4 * Z.of_nat (groups b).
Proof.
  induction b as [| x | x y | x y z r IH] using list_ind3; try reflexivity.
  cbn [enc groups]. cbv zeta. len_simpl. rewrite IH. lia.
Qed.

Lemma groups_bound (b : list byte) :
  len b <= 3 * Z.of_nat (groups b) <= len b + 2.
Proof.
  induction b as [| x | x y | x y z r IH] using list_ind3;
    try (cbn; lia).
  cbn [groups]. len_simpl. lia.
Qed.

Ltac cmp :=
  repeat match goal with
  | |- context [Z.ltb ?a ?b] =>
      first [ rewrite (proj2 (Z.ltb_lt a b)) by lia
            | rewrite (proj2 (Z.ltb_ge a b)) by lia ]
  end;
  cbv beta.

Ltac puts :=
  repeat (rewrite put_room by (cbn [stored cap]; len_simpl; lia);
          cbn [stored cap]).

Lemma encode_loop_enc (suf : list byte) :
  forall (pre : list byte) (out : buffer) (h : heap),
    len (stored out) + 4 * Z.of_nat (groups suf) <= cap out ->
    encode_loop (groups suf) (pre ++ suf) (len pre) out h
    = Done (mkbuf (cap out) (stored out ++ enc suf), h).
Proof.
  induction suf as [| x | x y | x y z r IH] using list_ind3;
    intros pre out h Hroom; pose proof (len_nonneg pre).
  - cbn. rewrite app_nil_r. destruct out; reflexivity.
  - cbn [groups encode_loop enc] in *. unfold bind, encode_step, bind.
    rewrite load_here. len_simpl. cmp. unfold ret at 1 2. puts.
    unfold ret. rewrite <- !app_assoc. reflexivity.
  - cbn [groups encode_loop enc] in *. unfold bind, encode_step, bind.
    rewrite load_here. len_simpl. cmp.
    rewrite (load_at pre [x] [] y) by (len_simpl; lia).
    unfold ret at 1 2. puts.
    unfold ret. rewrite <- !app_assoc. reflexivity.
  - cbn [groups encode_loop enc] in *. unfold bind at 1.
    unfold encode_step, bind.
    rewrite load_here. len_simpl. pose proof (len_nonneg r). cmp.
    rewrite (load_at pre [x] (z :: r) y) by (len_simpl; lia).
    unfold ret at 1.
    rewrite (load_at pre [x; y] r z) by (len_simpl; lia).
    unfold ret at 1. puts.
    replace (pre ++ x :: y :: z :: r) with ((pre ++ [x; y; z]) ++ r)
      by (rewrite <- app_assoc; reflexivity).
    replace (len pre + 3) with (len (pre ++ [x; y; z])) by (len_simpl; lia).
    rewrite IH by (cbn [stored cap]; len_simpl; lia).
    cbn [stored cap]. cbv zeta. rewrite <- !app_assoc. reflexivity.
Qed.

(** The encoder never leaves its buffer and returns [enc]. *)
Lemma base64_encode_enc (b : list byte) (h : heap) :
  plentiful h -> base64_encode b h = Done (Some (enc b), tl h).
Proof.
  intros Hh. unfold base64_encode, bind.
  rewrite malloc_plentiful by assumption.
  rewrite groups_trips.
  pose proof (encode_loop_enc b [] (mkbuf (BASE64_ENCODE_SIZE (len b)) []) (tl h))
    as Hloop.
  cbn [app len_nil stored cap] in Hloop. change (len []) with 0 in Hloop.
  assert (Hsize : BASE64_ENCODE_SIZE (len b) = 4 * Z.of_nat (groups b) + 1).
  { unfold BASE64_ENCODE_SIZE. rewrite <- groups_trips.
    pose proof (len_nonneg b).
    rewrite Z2Nat.id by (apply Z.div_pos; lia). lia. }
  rewrite Hloop by lia.
  rewrite terminate_room by (cbn [stored cap]; rewrite len_enc; lia).
  reflexivity.
Qed.

(** ** The decoder inverts the encoder on every non-empty input *)

Lemma low_sextet_range (n : Z) : 0 <= Z.land n 63 < 64.
Proof. exact (sextet_range n 0). Qed.

Lemma decode_char_at (n k : Z) : base64_decode_table (char_at n k) = sextet n k.
Proof. apply base64_tables_inverse, sextet_range. Qed.

Lemma char_at_not_pad (n k : Z) : Byte.eqb (char_at n k) pad = false.
Proof. apply base64_tables_inverse, sextet_range. Qed.

Lemma decode_low_char (n : Z) :
  base64_decode_table (base64_char (Z.land n 63)) = Z.land n 63.
Proof. apply base64_tables_inverse, low_sextet_range. Qed.

Lemma low_char_not_pad (n : Z) : Byte.eqb (base64_char (Z.land n 63)) pad = false.
Proof. apply base64_tables_inverse, low_sextet_range. Qed.

Lemma decode_pad : base64_decode_table pad = -1.
Proof. reflexivity. Qed.

Lemma pad_is_pad : Byte.eqb pad pad = true.
Proof. reflexivity. Qed.

Lemma nonneg_tests (k : Z) : 0 <= k -> (k <? 0) = false /\ (k >=? 0) = true.
Proof.
  intros H. split; [apply Z.ltb_ge; lia|].
  rewrite Z.geb_leb. apply Z.leb_le. lia.
Qed.

(** Normalises the table lookups and sign tests met in [decode_step]. *)
Ltac decode_norm :=
  rewrite ?decode_char_at, ?decode_low_char, ?decode_pad,
          ?char_at_not_pad, ?low_char_not_pad, ?pad_is_pad;
  repeat match goal with
  | |- context [sextet ?n ?k <? 0] =>
      rewrite (proj1 (nonneg_tests _ (proj1 (sextet_range n k))))
  | |- context [sextet ?n ?k >=? 0] =>
      rewrite (proj2 (nonneg_tests _ (proj1 (sextet_range n k))))
  | |- context [Z.land ?n 63 <? 0] =>
      rewrite (proj1 (nonneg_tests _ (proj1 (low_sextet_range n))))
  | |- context [Z.land ?n 63 >=? 0] =>
      rewrite (proj2 (nonneg_tests _ (proj1 (low_sextet_range n))))
  end;
  change (-1 <? 0) with true; change (-1 >=? 0) with false;
  cbn [negb andb orb].

Lemma decode_loop_enc (b : list byte) :
  forall (pre : list byte) (out : buffer) (h : heap),
    len (stored out) + len b <= cap out ->
    decode_loop (groups b) (pre ++ enc b) (len pre) out h
    = Done (Some (mkbuf (cap out) (stored out ++ b)), h).
Proof.
  induction b as [| x | x y | x y z r IH] using list_ind3;
    intros pre out h Hroom; pose proof (len_nonneg pre).
  - cbn. rewrite app_nil_r. destruct out; reflexivity.
  - cbn [groups decode_loop enc] in *. cbv zeta. unfold bind, decode_step, bind.
    rewrite load_here, load_at1, load_at2, load_at3.
    revert Hroom. len_simpl. intros Hroom.
    decode_norm. puts. unfold ret.
    fold (regroup (sextet (Z.shiftl (byte_val x) 16) 18)
                  (sextet (Z.shiftl (byte_val x) 16) 12) 0 0).
    rewrite (regroup1 _ (byte_val_range x)), byte_of_val. reflexivity.
  - cbn [groups decode_loop enc] in *. cbv zeta. unfold bind, decode_step, bind.
    rewrite load_here, load_at1, load_at2, load_at3.
    revert Hroom. len_simpl. intros Hroom.
    decode_norm. puts. unfold ret.
    set (n := Z.lor (Z.shiftl (byte_val x) 16) (Z.shiftl (byte_val y) 8)).
    fold (regroup (sextet n 18) (sextet n 12) (sextet n 6) 0).
    destruct (regroup2 _ _ (byte_val_range x) (byte_val_range y)) as [Ex Ey].
    fold n in Ex, Ey. rewrite Ex, Ey, !byte_of_val, <- !app_assoc. reflexivity.
  - cbn [groups decode_loop enc] in *. cbv zeta. unfold bind at 1.
    unfold decode_step, bind.
    rewrite <- !app_comm_cons, app_nil_l.
    rewrite load_here, load_at1, load_at2, load_at3.
    revert Hroom. len_simpl. intros Hroom. pose proof (len_nonneg r).
    decode_norm. puts. unfold ret.
    set (n := Z.lor (Z.lor (Z.shiftl (byte_val x) 16) (Z.shiftl (byte_val y) 8))
                    (byte_val z)).
    fold (regroup (sextet n 18) (sextet n 12) (sextet n 6) (Z.land n 63)).
    destruct (regroup3 _ _ _ (byte_val_range x) (byte_val_range y)
                (byte_val_range z)) as [Ex [Ey Ez]].
    fold n in Ex, Ey, Ez. rewrite Ex, Ey, Ez, !byte_of_val.
    match goal with
    | |- context [pre ++ ?a :: ?b :: ?c :: ?d :: enc r] =>
        replace (pre ++ a :: b :: c :: d :: enc r)
          with ((pre ++ [a; b; c; d]) ++ enc r)
          by (rewrite <- app_assoc; reflexivity);
        replace (len pre + 4) with (len (pre ++ [a; b; c; d]))
          by (len_simpl; lia)
    end.
    rewrite IH by (cbn [stored cap]; len_simpl; lia).
    cbn [stored cap]. rewrite <- !app_assoc. reflexivity.
Qed.

(** The last two characters of a non-empty encoding tell how many bytes
    the last group holds. *)
Lemma enc_tail (b : list byte) :
  b <> [] ->
  exists pre c2 c1,
    enc b = pre ++ [c2; c1] /\
    3 * Z.of_nat (groups b) - pad_count c1 - pad_count c2 = len b.
Proof.
  induction b as [| x | x y | x y z r IH] using list_ind3; intros Hne.
  - contradiction.
  - eexists [_; _], pad, pad. split; [reflexivity|]. reflexivity.
  - eexists [_; _], _, pad. split; [reflexivity|].
    unfold pad_count. rewrite char_at_not_pad, pad_is_pad. reflexivity.
  - assert (Hr : r = [] \/ r <> []) by (destruct r; [left | right]; congruence).
    destruct Hr as [-> | Hr].
    + eexists [_; _], _, _. split; [reflexivity|].
      unfold pad_count. rewrite char_at_not_pad, low_char_not_pad. reflexivity.
    + destruct (IH Hr) as (pre & c2 & c1 & Henc & Hcount).
      eexists (_ :: _ :: _ :: _ :: pre), c2, c1. split.
      * cbn [enc]. cbv zeta. cbn [app]. rewrite Henc. reflexivity.
      * cbn [groups]. len_simpl. lia.
Qed.

Lemma base64_decode_enc (b : list byte) (h : heap) :
  plentiful h -> b <> [] ->
  base64_decode (enc b) h = Done (Some b, tl h).
Proof.
  intros Hh Hne.
  destruct (enc_tail b Hne) as (pre & c2 & c1 & Henc & Hcount).
  pose proof (len_enc b) as Hlen.
  pose proof (decode_loop_enc b []) as Hloop. cbn [app] in Hloop.
  change (len []) with 0 in Hloop.
  unfold base64_decode. rewrite Hlen.
  replace ((4 * Z.of_nat (groups b)) mod 4) with 0
    by (symmetry; rewrite Z.mul_comm; apply Z.mod_mul; lia).
  cbn [Z.eqb negb]. unfold bind.
  assert (Hg : Z.of_nat (groups b) = (len pre + 2) / 4 + 0 /\ len pre + 2 = 4 * Z.of_nat (groups b)).
  { rewrite Henc in Hlen. revert Hlen. len_simpl. intros Hlen.
    split; [|lia]. replace (len pre + 2) with (Z.of_nat (groups b) * 4) by lia.
    rewrite Z.div_mul by lia. lia. }
  destruct Hg as [_ Hg].
  replace (4 * Z.of_nat (groups b) - 1) with (len pre + 1) by lia.
  replace (4 * Z.of_nat (groups b) - 2) with (len pre) by lia.
  assert (L1 : forall h', load (enc b) (len pre + 1) h' = Done (c1, h'))
    by (intros; rewrite Henc; apply load_at1).
  assert (L2 : forall h', load (enc b) (len pre) h' = Done (c2, h'))
    by (intros; rewrite Henc; apply load_here).
  rewrite L1, L2, malloc_plentiful by assumption. cbv beta iota.
  assert (Htrips : Z.to_nat ((4 * Z.of_nat (groups b) + 3) / 4) = groups b).
  { replace (4 * Z.of_nat (groups b) + 3) with (3 + Z.of_nat (groups b) * 4) by lia.
    rewrite Z.div_add by lia. change (3 / 4) with 0. lia. }
  rewrite Htrips.
  assert (Hsize : BASE64_DECODE_SIZE (4 * Z.of_nat (groups b))
                  = 3 * Z.of_nat (groups b)).
  { unfold BASE64_DECODE_SIZE.
    replace (4 * Z.of_nat (groups b) + 3) with (3 + Z.of_nat (groups b) * 4) by lia.
    rewrite Z.div_add by lia. change (3 / 4) with 0. lia. }
  rewrite Hsize.
  assert (Hcap : (if Byte.eqb c2 pad
                  then (if Byte.eqb c1 pad then 3 * Z.of_nat (groups b) - 1
                        else 3 * Z.of_nat (groups b)) - 1
                  else (if Byte.eqb c1 pad then 3 * Z.of_nat (groups b) - 1
                        else 3 * Z.of_nat (groups b))) = len b).
  { unfold pad_count in Hcount.
    destruct (Byte.eqb c1 pad), (Byte.eqb c2 pad); lia. }
  rewrite Hcap.
  rewrite Hloop by (cbn [stored cap]; change (len []) with 0; lia).
  cbv beta iota.
  rewrite terminate_room by (cbn [stored cap app]; lia).
  reflexivity.
Qed.

(** Decoding what the encoder wrote gives the bytes back, for every
    non-empty byte sequence, as long as both allocations are granted. *)
Lemma base64_roundtrip_nonempty (b : list byte) (h : heap) :
  plentiful h -> b <> [] ->
  base64_roundtrip b h = Done (Some b, tl (tl h)).
Proof.
  intros Hh Hne. unfold base64_roundtrip, bind.
  rewrite base64_encode_enc by assumption.
  apply base64_decode_enc; [apply plentiful_tl; assumption | assumption].
Qed.

(** C10 (code defect).  The decoder probes [data[len - 1]] and
    [data[len - 2]] before looking at anything else; for the empty string,
    whose length 0 passes the multiple-of-four test, both indices lie
    before the input, so the call is an out-of-bounds read whatever the
    allocator would answer. *)
Theorem base64_decode_empty_reads_outside (h : heap) :
  base64_decode [] h = Fault.
Proof. reflexivity. Qed.

(** ** JSON helpers: concrete runs *)

(** C2 (code defect).  The encoding of the empty byte sequence is the
    empty string, and decoding it reads before the input instead of
    returning the empty sequence: the round trip is undefined at the
    empty input even when every allocation is granted. *)
Theorem base64_roundtrip_empty_faults :
  base64_encode [] [] = Done (Some [], []) /\ base64_roundtrip [] [] = Fault.
Proof. split; reflexivity. Qed.

Example json_get_string_operation :
  json_get_string (lit "{'operation':'ping'}") (lit "operation") []
  = Done (Some (lit "ping"), []).
Proof. reflexivity. Qed.

Example json_get_string_spaces :
  json_get_string (lit "{ 'path' : 'a\nb\\c' }") (lit "path") []
  = Done (Some ([ "a"%byte; newline; "b"%byte; backslash; "c"%byte ]), []).
Proof. reflexivity. Qed.

Example json_get_int_timeout :
  json_get_int (lit "{'operation':'exec','cmd':['/bin/echo','hi'],'timeout':5000}")
               (lit "timeout") = Some 5000.
Proof. reflexivity. Qed.

Example json_escape_text :
  json_escape ("a"%byte :: dquote :: newline :: "b"%byte :: NUL :: lit "zz") []
  = Done (Some (lit "a\'\nb"), []).
Proof. reflexivity. Qed.

(** ** What the escape function writes *)

Lemma put2_room (out : buffer) (a b : byte) (h : heap) :
  len (stored out) + 2 <= cap out ->
  put2 out a b h = Done (mkbuf (cap out) (stored out ++ [a; b]), h).
Proof.
  intros H. unfold put2, bind. puts. rewrite <- app_assoc. reflexivity.
Qed.

Lemma escape_step_short (out : buffer) (c : byte) (h : heap) :
  short_escape c = true ->
  len (stored out) + 2 <= cap out ->
  escape_step out c h = Done (mkbuf (cap out) (stored out ++ escape_char c), h) /\
  len (escape_char c) <= 2.
Proof.
  intros Hc Hroom. unfold escape_step, escape_char, short_escape in *.
  destruct (Byte.eqb c dquote); [rewrite put2_room by lia; split; reflexivity|].
  destruct (Byte.eqb c backslash); [rewrite put2_room by lia; split; reflexivity|].
  destruct (Byte.eqb c newline); [rewrite put2_room by lia; split; reflexivity|].
  destruct (Byte.eqb c creturn); [rewrite put2_room by lia; split; reflexivity|].
  destruct (Byte.eqb c tab); [rewrite put2_room by lia; split; reflexivity|].
  cbn [orb] in Hc. apply negb_true_iff in Hc. rewrite Hc.
  rewrite put_room by lia. split; [reflexivity | cbn; lia].
Qed.

Lemma escape_loop_short (s : list byte) :
  forall (out : buffer) (h : heap),
    forallb short_escape s = true ->
    len (stored out) + 2 * len s <= cap out ->
    escape_loop s out h = Done (mkbuf (cap out) (stored out ++ escaped s), h) /\
    len (escaped s) <= 2 * len s.
Proof.
  induction s as [|c s IH]; intros out h Hs Hroom.
  - cbn. rewrite app_nil_r. destruct out. split; [reflexivity | lia].
  - cbn [forallb] in Hs. apply andb_true_iff in Hs. destruct Hs as [Hc Hs].
    revert Hroom. len_simpl. intros Hroom. pose proof (len_nonneg s).
    destruct (escape_step_short out c h Hc) as [Hstep Hlen]; [lia|].
    cbn [escape_loop]. unfold bind. rewrite Hstep.
    destruct (IH (mkbuf (cap out) (stored out ++ escape_char c)) h Hs) as [Hloop Hl].
    { cbn [stored cap]. len_simpl. lia. }
    rewrite Hloop. cbn [stored cap escaped flat_map].
    rewrite <- app_assoc. split; [reflexivity|].
    len_simpl. fold (escaped s). lia.
Qed.

(** On a string without six-character escapes the function stays inside
    its buffer of [2 * len + 1] bytes and returns the escaped text. *)
Lemma json_escape_short (str : list byte) (h : heap) :
  plentiful h ->
  forallb short_escape (c_str str) = true ->
  json_escape str h = Done (Some (escaped (c_str str)), tl h) /\
  len (escaped (c_str str)) <= 2 * len (c_str str).
Proof.
  intros Hh Hs. unfold json_escape, bind.
  rewrite malloc_plentiful by assumption.
  destruct (escape_loop_short (c_str str)
              (mkbuf (len (c_str str) * 2 + 1) []) (tl h) Hs) as [Hloop Hl].
  { cbn [stored cap]. change (len []) with 0. lia. }
  rewrite Hloop. cbn [stored cap app].
  rewrite terminate_room by (cbn [stored cap]; lia).
  split; [reflexivity | exact Hl].
Qed.

(** Whenever the function returns a string, it is the escaped text. *)
Lemma escape_step_sound (out out' : buffer) (c : byte) (h h' : heap) :
  escape_step out c h = Done (out', h') ->
  out' = mkbuf (cap out) (stored out ++ escape_char c) /\ h' = h.
Proof.
  unfold escape_step, escape_char, put2, snprintf_u, put, bind, ret, fault.
  cbn [stored cap].
  repeat match goal with
  | |- context [if ?b then _ else _] => destruct b; cbn [stored cap]
  end; intros H; try discriminate; inversion H; subst;
    rewrite <- ?app_assoc; split; reflexivity.
Qed.

Lemma escape_loop_sound (s : list byte) :
  forall (out out' : buffer) (h h' : heap),
    escape_loop s out h = Done (out', h') ->
    out' = mkbuf (cap out) (stored out ++ escaped s) /\ h' = h.
Proof.
  induction s as [|c s IH]; intros out out' h h' H.
  - cbn in H. inversion H; subst. rewrite app_nil_r. destruct out'. split; reflexivity.
  - cbn [escape_loop] in H. unfold bind in H.
    destruct (escape_step out c h) as [[o1 h1]|] eqn:E; [|discriminate].
    apply escape_step_sound in E. destruct E as [-> ->].
    apply IH in H. destruct H as [-> ->]. cbn [stored cap escaped flat_map].
    rewrite <- app_assoc. split; reflexivity.
Qed.

Lemma json_escape_sound (str r : list byte) (h h' : heap) :
  json_escape str h = Done (Some r, h') -> r = escaped (c_str str).
Proof.
  unfold json_escape, bind. intros H.
  destruct (malloc (len (c_str str) * 2 + 1) h) as [[[out|] h1]|] eqn:Em;
    try discriminate.
  assert (out = mkbuf (len (c_str str) * 2 + 1) []).
  { unfold malloc in Em. destruct h as [|[] ?]; inversion Em; reflexivity. }
  subst out.
  destruct (escape_loop _ _ h1) as [[o2 h2]|] eqn:El; [|discriminate].
  apply escape_loop_sound in El. destruct El as [-> ->].
  unfold terminate in H. cbn [stored cap app] in H.
  destruct (len (escaped (c_str str)) <? len (c_str str) * 2 + 1);
    [|discriminate].
  inversion H. reflexivity.
Qed.

(** ** Exec: concrete runs *)

(** C9 (code defect).  The buffer holds [2 * len + 1] bytes, but a
    control byte below 0x20 other than newline, carriage return and tab is
    written as six characters plus the terminator of [snprintf]: for the
    one-byte string 0x01 the escaped form has length 6, above the assumed
    bound 2, and the seven bytes are stored into a buffer of three. *)
Theorem json_escape_control_byte_overruns_buffer :
  escaped [x01] = lit "\u0001" /\
  2 * len [x01] < len (escaped [x01]) /\
  json_escape [x01] [] = Fault.
Proof. repeat split; reflexivity. Qed.

Example handle_exec_echo :
  handle_exec (fun _ => Forked echo_hi)
              (lit "{'operation':'exec','cmd':['/bin/echo','hi']}") []
  = Done (Some (lit "{'success':true,'data':{'exit_code':0,'stdout':'hi\n','stderr':''}}"
                ++ [newline]), []).
Proof. vm_compute. reflexivity. Qed.

Example handle_exec_sleep :
  handle_exec (fun _ => Forked sleep_10)
              (lit "{'operation':'exec','cmd':['/bin/sleep','10'],'timeout':100}") []
  = Done (Some (lit "{'success':true,'data':{'exit_code':-1,'stdout':'','stderr':''}}"
                ++ [newline]), []).
Proof. vm_compute. reflexivity. Qed.

(** ** Unescaping: the copying loop and its result *)

Lemma unescape_loop_room (sw : byte -> byte) (n : nat) :
  forall (body : list byte) (out : buffer) (h : heap),
    (length body <= n)%nat ->
    len (stored out) + len body <= cap out ->
    unescape_loop sw body out h
    = Done (mkbuf (cap out) (stored out ++ unescape sw body), h) /\
    len (unescape sw body) <= len body.
Proof.
  induction n as [|n IH]; intros body out h Hn Hroom.
  - destruct body; [|cbn in Hn; lia]. cbn. rewrite app_nil_r.
    destruct out. split; [reflexivity | lia].
  - destruct body as [|c body]; [cbn; rewrite app_nil_r; destruct out; split;
                                   [reflexivity | lia]|].
    cbn [length] in Hn. revert Hroom. len_simpl. intros Hroom.
    pose proof (len_nonneg body).
    cbn [unescape_loop unescape].
    destruct (Byte.eqb c backslash).
    + destruct body as [|d body].
      * rewrite put_room by lia. split; [reflexivity | cbn; lia].
      * cbn [length] in Hn. revert Hroom. len_simpl. intros Hroom.
        pose proof (len_nonneg body).
        unfold bind. rewrite put_room by lia.
        destruct (IH body (mkbuf (cap out) (stored out ++ [sw d])) h) as [Hl Hb];
          [lia | cbn [stored cap]; len_simpl; lia |].
        rewrite Hl. cbn [stored cap]. rewrite <- app_assoc.
        split; [reflexivity | len_simpl; lia].
    + unfold bind. rewrite put_room by lia.
      destruct (IH body (mkbuf (cap out) (stored out ++ [c])) h) as [Hl Hb];
        [lia | cbn [stored cap]; len_simpl; lia |].
      rewrite Hl. cbn [stored cap]. rewrite <- app_assoc.
      split; [reflexivity | len_simpl; lia].
Qed.

Lemma malloc_answer (n : Z) (h : heap) :
  malloc n h = Done (if hd true h then Some (mkbuf n []) else None, tl h).
Proof. destruct h as [|[] h]; reflexivity. Qed.

(** The buffer of [len + 1] bytes is always large enough. *)
Lemma unescape_string_answer (sw : byte -> byte) (body : list byte) (h : heap) :
  unescape_string sw body h
  = Done (if hd true h then Some (unescape sw body) else None, tl h).
Proof.
  unfold unescape_string, bind. rewrite malloc_answer.
  destruct (hd true h); [|reflexivity].
  destruct (unescape_loop_room sw (length body) body
              (mkbuf (len body + 1) []) (tl h)) as [Hl Hb];
    [lia | cbn [stored cap]; change (len []) with 0; lia |].
  rewrite Hl. cbn [stored cap app].
  rewrite terminate_room by (cbn [stored cap]; lia). reflexivity.
Qed.

(** The five escapes of [json_get_string], and the pass-through of every
    other character after a backslash. *)
Lemma unescape_char_table :
  unescape_char "n" = newline /\ unescape_char "r" = creturn /\
  unescape_char "t" = tab /\ unescape_char backslash = backslash /\
  unescape_char dquote = dquote /\
  (forall c, c <> "n"%byte -> c <> "r"%byte -> c <> "t"%byte ->
             unescape_char c = c).
Proof.
  repeat split. intros c Hn Hr Ht. unfold unescape_char.
  destruct (Byte.eqb c "n") eqn:E1; [apply Byte.byte_dec_bl in E1; contradiction|].
  destruct (Byte.eqb c "r") eqn:E2; [apply Byte.byte_dec_bl in E2; contradiction|].
  destruct (Byte.eqb c "t") eqn:E3; [apply Byte.byte_dec_bl in E3; contradiction|].
  destruct (Byte.eqb c backslash) eqn:E4; [apply Byte.byte_dec_bl in E4; auto|].
  destruct (Byte.eqb c dquote) eqn:E5; [apply Byte.byte_dec_bl in E5; auto|].
  reflexivity.
Qed.

Lemma unescape_escape_char (c : byte) (rest : list byte) :
  short_escape c = true ->
  unescape unescape_char (escape_char c ++ rest) = c :: unescape unescape_char rest.
Proof.
  destruct c; intros H; try discriminate H; reflexivity.
Qed.

(** The parser of string fields undoes the escaping of every string that
    has no six-character escape. *)
Lemma unescape_escaped (s : list byte) :
  forallb short_escape s = true ->
  unescape unescape_char (escaped s) = s.
Proof.
  induction s as [|c s IH]; intros H; [reflexivity|].
  cbn [forallb] in H. apply andb_true_iff in H. destruct H as [Hc Hs].
  cbn [escaped flat_map]. rewrite unescape_escape_char by assumption.
  f_equal. apply IH, Hs.
Qed.

Lemma string_body_escape_char (c : byte) (rest : list byte) :
  short_escape c = true ->
  string_body (escape_char c ++ rest) = escape_char c ++ string_body rest.
Proof.
  destruct c; intros H; try discriminate H; reflexivity.
Qed.

(** An escaped string followed by a quote is scanned up to that quote. *)
Lemma string_body_escaped (s rest : list byte) :
  forallb short_escape s = true ->
  string_body (escaped s ++ dquote :: rest) = escaped s.
Proof.
  induction s as [|c s IH]; intros H; [reflexivity|].
  cbn [forallb] in H. apply andb_true_iff in H. destruct H as [Hc Hs].
  cbn [escaped flat_map]. rewrite <- app_assoc.
  rewrite string_body_escape_char by assumption.
  f_equal. apply IH, Hs.
Qed.

(** ** The cmd array parser terminates *)

Lemma skip_cmd_separators_length (p : list byte) :
  (length (skip_cmd_separators p) <= length p)%nat.
Proof.
  induction p as [|c p IH]; [apply Nat.le_refl|].
  cbn [skip_cmd_separators].
  destruct (Byte.eqb c space || Byte.eqb c comma || Byte.eqb c tab
            || Byte.eqb c newline); cbn [length]; lia.
Qed.

Lemma at_end_false_cons (p : list byte) :
  at_end p = false -> exists c p', p = c :: p'.
Proof.
  destruct p as [|c p']; [discriminate | eauto].
Qed.

Lemma parse_cmd_total (fuel : nat) :
  forall (p : list byte) (argv : list (list byte)) (h : heap),
    (length p < fuel)%nat ->
    exists argv' h', parse_cmd fuel p argv h = Done (Some argv', h').
Proof.
  induction fuel as [|fuel IH]; intros p argv h Hfuel; [lia|].
  cbn [parse_cmd].
  destruct (negb (at_end p) && negb (Byte.eqb (deref p) rbracket)
            && (Z.of_nat (length argv) <? 255)) eqn:Hgo;
    [|eexists _, _; reflexivity].
  pose proof (skip_cmd_separators_length p) as Hskip.
  set (q := skip_cmd_separators p) in *.
  destruct (Byte.eqb (deref q) dquote) eqn:Hq.
  - unfold bind. rewrite unescape_string_answer.
    apply IH.
    assert (Hq' : (length (tl q) < length q)%nat).
    { destruct q; [discriminate Hq | cbn; lia]. }
    pose proof (length_skipn (length (string_body (tl q))) (tl q)) as Hs.
    set (r := skipn (length (string_body (tl q))) (tl q)) in *.
    assert (Hr : (length (if Byte.eqb (deref r) dquote then tl r else r)
                  <= length r)%nat).
    { destruct (Byte.eqb (deref r) dquote); [|lia]. destruct r; cbn; lia. }
    lia.
  - destruct (negb (at_end q) && negb (Byte.eqb (deref q) rbracket)) eqn:Hmid.
    + apply IH. apply andb_true_iff in Hmid. destruct Hmid as [Hmid _].
      apply negb_true_iff, at_end_false_cons in Hmid.
      destruct Hmid as (c & q' & Eq). rewrite Eq in *. cbn [tl length] in *. lia.
    + destruct fuel; cbn [parse_cmd]; rewrite Hmid; cbn [andb];
        eexists _, _; reflexivity.
Qed.

Lemma exec_argv_total (arr_start : list byte) (h : heap) :
  exists argv h', exec_argv arr_start h = Done (Some argv, h').
Proof.
  apply parse_cmd_total. destruct arr_start; cbn; lia.
Qed.

(** ** Escapes in request strings *)

(** C5 (code defect).  The parser of string fields decodes the escape
    for carriage return, but the parser of the cmd array has no case for
    it: in an argument of exec the two characters backslash and r become
    the letter r, where the same text in a string field becomes a
    carriage return. *)
Theorem exec_cmd_carriage_return_not_decoded :
  find_cmd_array printf_request = inr (lit "['/bin/printf','a\rb']}") /\
  exec_argv (lit "['/bin/printf','a\rb']}") []
  = Done (Some [lit "/bin/printf"; lit "arb"], []) /\
  json_get_string (lit "{'path':'a\rb'}") (lit "path") []
  = Done (Some ["a"%byte; creturn; "b"%byte], []).
Proof. repeat split; reflexivity. Qed.

(** ** The timeout of exec *)

(** The claim C7 fails on the code: a negative timeout is not replaced
    by the default.  The value -5000 is used as it was parsed, the
    deadline test succeeds at once and the child is killed at the first
    poll, while the same child under the default timeout runs to its end. *)
Lemma negative_timeout_used_as_given :
  exec_timeout_ms negative_timeout_request = -5000 /\
  exec_timeout_ms negative_timeout_request <> 30000 /\
  handle_exec (fun _ => Forked sleep_1) negative_timeout_request []
  = Done (Some (exec_response (-1) [] []), []) /\
  handle_exec (fun _ => Forked sleep_1) default_timeout_request []
  = Done (Some (exec_response 0 [] []), []).
Proof.
  repeat split; try (vm_compute; reflexivity). discriminate.
Qed.

(** ** Exec after the fork *)

Lemma strdup_answer (text : list byte) (h : heap) :
  strdup text h = Done (if hd true h then Some text else None, tl h).
Proof.
  unfold strdup, bind. rewrite malloc_answer. destruct (hd true h); reflexivity.
Qed.

Lemma c_str_terminated (s : list byte) : c_str (s ++ [NUL]) = c_str s.
Proof.
  induction s as [|c s IH]; [reflexivity|].
  cbn [app c_str]. destruct (Byte.eqb c NUL); [reflexivity | f_equal; exact IH].
Qed.


Lemma exit_code_of_exit (k : Z) :
  0 <= k < 256 -> exit_code_of (k * 256) = k.
Proof.
  intros Hk. unfold exit_code_of, WIFEXITED, WEXITSTATUS.
  assert (E1 : Z.land (k * 256) 127 = 0).
  { change 127 with (Z.ones 7). rewrite Z.land_ones by lia.
    change (2 ^ 7) with 128. replace (k * 256) with (k * 2 * 128) by lia.
    apply Z.mod_mul. lia. }
  rewrite E1. cbn [Z.eqb].
  change 256 with (2 ^ 8). rewrite <- Z.shiftl_mul_pow2 by lia.
  change 65280 with (Z.shiftl 255 8).
  rewrite <- Z.shiftl_land, Z.shiftr_shiftl_l by lia.
  rewrite Z.sub_diag, Z.shiftl_0_r.
  change 255 with (Z.ones 8). rewrite Z.land_ones by lia.
  apply Z.mod_small. exact Hk.
Qed.

Lemma exit_code_of_sigkill : exit_code_of 9 = -1.
Proof. reflexivity. Qed.

(** The claim C1 fails on the code: the child of this request has been
    forked, the allocation of the second output buffer is refused, and
    the response is the error [out of memory]. *)
Lemma exec_error_after_fork :
  handle_exec (fun _ => Forked echo_hi)
              (lit "{'operation':'exec','cmd':['/bin/echo','hi']}")
              [true; true; true; false]
  = Done (Some out_of_memory, []) /\
  out_of_memory = lit "{'success':false,'error':'out of memory'}" ++ [newline].
Proof. split; vm_compute; reflexivity. Qed.

(** ** Payloads in the response *)



Lemma plentiful_hd (h : heap) : plentiful h -> hd true h = true.
Proof.
  intros H. destruct h; [reflexivity|]. inversion H; assumption.
Qed.

Lemma handle_file_read_content (sys : system) (path data : list byte)
      (size : Z) (h : heap) :
  sys_read sys path = Opened size (ReadBytes data) ->
  size <= MAX_REQUEST_SIZE ->
  plentiful h ->
  handle_file_read sys path h
  = Done (Some (file_read_response data), tl (tl (tl h))).
Proof.
  intros Hread Hsize Hh.
  pose proof (plentiful_tl _ Hh) as H1. pose proof (plentiful_tl _ H1) as H2.
  unfold handle_file_read. rewrite Hread.
  replace (size >? MAX_REQUEST_SIZE) with false
    by (symmetry; rewrite Z.gtb_ltb; apply Z.ltb_ge; lia).
  unfold bind. rewrite malloc_plentiful by assumption.
  rewrite base64_encode_enc by assumption.
  unfold asprintf. rewrite strdup_answer, (plentiful_hd _ H2).
  reflexivity.
Qed.

(** ** The connection handler: concrete runs *)

Example ping_scenario :
  handle_connection barren [64] (lit "{'operation':'ping'}" ++ [newline]) []
  = Done (Some (lit "{'success':true,'data':{'pong':true}}" ++ [newline]), [], []).
Proof. vm_compute. reflexivity. Qed.

Example stat_missing_scenario :
  handle_connection barren [64]
    (lit "{'operation':'file_stat','path':'/nonexistent'}" ++ [newline]) []
  = Done (Some (lit "{'success':false,'error':'stat: No such file or directory'}"
                ++ [newline]), [], []).
Proof. vm_compute. reflexivity. Qed.

Example unknown_operation_scenario :
  handle_connection barren [64] (lit "{'operation':'frobnicate'}" ++ [newline]) []
  = Done (Some (lit "{'success':false,'error':'unknown operation'}"
                ++ [newline]), [], []).
Proof. vm_compute. reflexivity. Qed.

(** ** Reading the request *)

Lemma take_nonpos (n : Z) (l : list byte) : n <= 0 -> take n l = [].
Proof.
  intros H. destruct l; [reflexivity|]. cbn [take].
  rewrite (proj2 (Z.ltb_ge 0 n)) by lia. reflexivity.
Qed.

Lemma drop_nonpos (n : Z) (l : list byte) : n <= 0 -> drop n l = l.
Proof.
  intros H. destruct l; [reflexivity|]. cbn [drop].
  rewrite (proj2 (Z.ltb_ge 0 n)) by lia. reflexivity.
Qed.

Lemma take_cons (n : Z) (c : byte) (l : list byte) :
  0 < n -> take n (c :: l) = c :: take (n - 1) l.
Proof.
  intros H. cbn [take]. rewrite (proj2 (Z.ltb_lt 0 n)) by lia. reflexivity.
Qed.

Lemma drop_cons (n : Z) (c : byte) (l : list byte) :
  0 < n -> drop n (c :: l) = drop (n - 1) l.
Proof.
  intros H. cbn [drop]. rewrite (proj2 (Z.ltb_lt 0 n)) by lia. reflexivity.
Qed.

Lemma take_drop (l : list byte) : forall n, take n l ++ drop n l = l.
Proof.
  induction l as [|c l IH]; intros n; [reflexivity|].
  destruct (Z.ltb_spec 0 n).
  - rewrite take_cons, drop_cons by lia. cbn [app]. f_equal. apply IH.
  - rewrite take_nonpos, drop_nonpos by lia. reflexivity.
Qed.

Lemma len_take (l : list byte) :
  forall n, len (take n l) = Z.max 0 (Z.min n (len l)).
Proof.
  induction l as [|c l IH]; intros n.
  - cbn [take]. change (len []) with 0. lia.
  - pose proof (len_nonneg l). destruct (Z.ltb_spec 0 n).
    + rewrite take_cons by lia. len_simpl. rewrite IH. lia.
    + rewrite take_nonpos by lia. len_simpl. change (len []) with 0. lia.
Qed.

Lemma take_all (l : list byte) : forall n, len l <= n -> take n l = l.
Proof.
  induction l as [|c l IH]; intros n; [reflexivity|].
  len_simpl. intros H. pose proof (len_nonneg l).
  rewrite take_cons by lia. f_equal. apply IH. lia.
Qed.

Lemma drop_all (l : list byte) : forall n, len l <= n -> drop n l = [].
Proof.
  induction l as [|c l IH]; intros n; [reflexivity|].
  len_simpl. intros H. pose proof (len_nonneg l).
  rewrite drop_cons by lia. apply IH. lia.
Qed.

Lemma take_app (a b : list byte) :
  forall n, take n (a ++ b) = take n a ++ take (n - len a) b.
Proof.
  induction a as [|c a IH]; intros n.
  - cbn [app take]. change (len []) with 0. f_equal. lia.
  - cbn [app]. pose proof (len_nonneg a). destruct (Z.ltb_spec 0 n).
    + rewrite !take_cons by lia. cbn [app]. f_equal. rewrite IH. len_simpl.
      f_equal. f_equal. lia.
    + rewrite !take_nonpos by (len_simpl; lia). reflexivity.
Qed.

Lemma drop_app (a b : list byte) :
  forall n, drop n (a ++ b) = drop n a ++ drop (n - len a) b.
Proof.
  induction a as [|c a IH]; intros n.
  - cbn [app drop]. change (len []) with 0. f_equal. lia.
  - cbn [app]. pose proof (len_nonneg a). destruct (Z.ltb_spec 0 n).
    + rewrite !drop_cons by lia. rewrite IH. len_simpl. f_equal. f_equal. lia.
    + rewrite drop_nonpos by lia. rewrite (drop_nonpos n (c :: a)) by lia.
      rewrite drop_nonpos by (len_simpl; lia). reflexivity.
Qed.

Lemma memchr_app (a b : list byte) (c : byte) :
  memchr (a ++ b) c = memchr a c || memchr b c.
Proof. apply existsb_app. Qed.

Lemma memchr_take (l : list byte) (c : byte) (n : Z) :
  memchr l c = false -> memchr (take n l) c = false.
Proof.
  intros H. rewrite <- (take_drop l n), memchr_app in H.
  apply orb_false_iff in H. apply H.
Qed.

Lemma memchr_drop (l : list byte) (c : byte) (n : Z) :
  memchr l c = false -> memchr (drop n l) c = false.
Proof.
  intros H. rewrite <- (take_drop l n), memchr_app in H.
  apply orb_false_iff in H. apply H.
Qed.

Lemma len_zero (l : list byte) : len l <= 0 -> l = [].
Proof.
  destruct l; [reflexivity|]. len_simpl. pose proof (len_nonneg l). lia.
Qed.

Lemma total_nonneg (chunks : list Z) :
  Forall (fun k => 0 < k) chunks -> 0 <= total chunks.
Proof.
  induction 1 as [|k chunks Hk _ IH]; cbn [total fold_right]; [lia|].
  fold (total chunks). lia.
Qed.

(** Whatever the peer sends and however it arrives, what is read is a
    prefix of it, no longer than the buffer less one byte. *)
Lemma read_request_prefix (chunks : list Z) :
  forall (pending request : list byte),
    len request <= MAX_REQUEST_SIZE - 1 ->
    fst (read_request chunks pending request)
    ++ snd (read_request chunks pending request) = request ++ pending /\
    len (fst (read_request chunks pending request)) <= MAX_REQUEST_SIZE - 1.
Proof.
  induction chunks as [|k chunks IH]; intros pending request Hlen.
  - cbn [read_request]. destruct (len request <? MAX_REQUEST_SIZE - 1);
      cbn [fst snd]; auto.
  - cbn [read_request]. destruct (Z.ltb_spec (len request) (MAX_REQUEST_SIZE - 1));
      cbn [fst snd]; auto.
    set (count := MAX_REQUEST_SIZE - len request - 1).
    set (got := take (Z.min k count) pending).
    destruct (len got <=? 0); cbn [fst snd]; auto.
    assert (Hgot : len got <= count).
    { unfold got. rewrite len_take. lia. }
    assert (Hsplit : got ++ drop (len got) pending = pending).
    { unfold got. rewrite len_take.
      pose proof (len_nonneg pending).
      destruct (Z.le_ge_cases (Z.min k count) (len pending)).
      - destruct (Z.le_ge_cases 0 (Z.min k count)).
        + replace (Z.max 0 (Z.min (Z.min k count) (len pending)))
            with (Z.min k count) by lia.
          apply take_drop.
        + rewrite take_nonpos, drop_nonpos by lia. reflexivity.
      - rewrite take_all, drop_all by lia. apply app_nil_r. }
    destruct (memchr (request ++ got) newline); cbn [fst snd].
    + rewrite <- app_assoc, Hsplit. split; [reflexivity|].
      len_simpl. unfold count in Hgot. lia.
    + destruct (IH (drop (len got) pending) (request ++ got)) as [H1 H2].
      { len_simpl. unfold count in Hgot. lia. }
      rewrite H1, <- app_assoc, Hsplit. auto.
Qed.

(** A request that ends with its only newline and fits the buffer less
    one byte is read in full, when the kernel delivers all of it. *)
Lemma read_request_line (chunks : list Z) :
  forall (body request : list byte),
    Forall (fun k => 0 < k) chunks ->
    len body + 1 <= total chunks ->
    len request + len body + 1 <= MAX_REQUEST_SIZE - 1 ->
    memchr (request ++ body) newline = false ->
    read_request chunks (body ++ [newline]) request
    = (request ++ body ++ [newline], []).
Proof.
  induction chunks as [|k chunks IH]; intros body request Hpos Hsum Hfit Hnl;
    pose proof (len_nonneg body); pose proof (len_nonneg request).
  - cbn [total fold_right] in Hsum. lia.
  - cbn [total fold_right] in Hsum. fold (total chunks) in Hsum.
    inversion Hpos as [|? ? Hk Hpos']; subst.
    cbn [read_request].
    rewrite (proj2 (Z.ltb_lt _ _)) by lia.
    set (count := MAX_REQUEST_SIZE - len request - 1).
    destruct (Z.le_gt_cases (len body + 1) (Z.min k count)) as [Hall | Hpart].
    + rewrite take_all by (len_simpl; change (len []) with 0; lia).
      rewrite (proj2 (Z.leb_gt _ _)) by (len_simpl; change (len []) with 0; lia).
      rewrite drop_all by lia.
      replace (memchr (request ++ body ++ [newline]) newline) with true.
      * reflexivity.
      * symmetry. rewrite !memchr_app. cbn. rewrite !orb_true_r. reflexivity.
    + assert (Hk' : Z.min k count = k) by (unfold count in *; lia).
      rewrite Hk'.
      rewrite take_app, (take_nonpos (k - len body)) by lia.
      rewrite app_nil_r.
      assert (Hlt : len (take k body) = k) by (rewrite len_take; lia).
      rewrite Hlt, (proj2 (Z.leb_gt _ _)) by lia.
      rewrite drop_app, (drop_nonpos (k - len body)) by lia.
      assert (Hno : memchr (request ++ take k body) newline = false).
      { rewrite memchr_app in *. apply orb_false_iff in Hnl.
        destruct Hnl as [-> Hb]. cbn [orb]. apply memchr_take, Hb. }
      rewrite Hno.
      rewrite IH; try assumption.
      * rewrite <- !app_assoc. f_equal. f_equal.
        rewrite app_assoc, take_drop. reflexivity.
      * assert (len (drop k body) = len body - k).
        { pose proof (take_drop body k) as E.
          apply (f_equal len) in E. revert E. len_simpl. lia. }
        lia.
      * assert (len (drop k body) = len body - k).
        { pose proof (take_drop body k) as E.
          apply (f_equal len) in E. revert E. len_simpl. lia. }
        len_simpl. lia.
      * rewrite <- app_assoc, take_drop. exact Hnl.
Qed.

(** ** Requests at the size limit *)

(** Bytes without a newline that fill the buffer up to its last byte are
    read, and reading stops there: what follows is left unread. *)
Lemma read_request_full (chunks : list Z) :
  forall (target rest request : list byte),
    Forall (fun k => 0 < k) chunks ->
    len target <= total chunks ->
    len request + len target = MAX_REQUEST_SIZE - 1 ->
    memchr (request ++ target) newline = false ->
    read_request chunks (target ++ rest) request = (request ++ target, rest).
Proof.
  induction chunks as [|k chunks IH]; intros target rest request Hpos Hsum Hfit Hnl;
    pose proof (len_nonneg target); pose proof (len_nonneg request).
  - cbn [total fold_right] in Hsum.
    assert (target = []) by (apply len_zero; lia).
    subst target. cbn [read_request].
    destruct (len request <? MAX_REQUEST_SIZE - 1); rewrite app_nil_r; reflexivity.
  - cbn [total fold_right] in Hsum. fold (total chunks) in Hsum.
    inversion Hpos as [|? ? Hk Hpos']; subst.
    cbn [read_request].
    destruct (Z.ltb_spec (len request) (MAX_REQUEST_SIZE - 1)) as [Hroom | Hfull].
    2:{ assert (target = []) by (apply len_zero; lia).
        subst target. rewrite app_nil_r. reflexivity. }
    set (count := MAX_REQUEST_SIZE - len request - 1).
    assert (Hcount : count = len target) by (unfold count; lia).
    assert (Hmin : 0 < Z.min k count <= len target) by lia.
    rewrite take_app, (take_nonpos (Z.min k count - len target)) by lia.
    rewrite app_nil_r.
    assert (Hlt : len (take (Z.min k count) target) = Z.min k count)
      by (rewrite len_take; lia).
    rewrite Hlt, (proj2 (Z.leb_gt _ _)) by lia.
    rewrite drop_app, (drop_nonpos (Z.min k count - len target)) by lia.
    assert (Hno : memchr (request ++ take (Z.min k count) target) newline = false).
    { rewrite memchr_app in *. apply orb_false_iff in Hnl.
      destruct Hnl as [-> Hb]. cbn [orb]. apply memchr_take, Hb. }
    rewrite Hno.
    assert (Hd : len (drop (Z.min k count) target) = len target - Z.min k count).
    { pose proof (take_drop target (Z.min k count)) as E.
      apply (f_equal len) in E. revert E. len_simpl. lia. }
    pose proof (total_nonneg chunks Hpos').
    rewrite IH; try assumption.
    + rewrite <- !app_assoc. f_equal. f_equal. apply take_drop.
    + lia.
    + len_simpl. lia.
    + rewrite <- app_assoc, take_drop. exact Hnl.
Qed.

Lemma len_padding (n : Z) : 0 <= n -> len (padding n) = n.
Proof.
  intros H. unfold padding, len. rewrite repeat_length. lia.
Qed.

Lemma padding_add (a b : Z) :
  0 <= a -> 0 <= b -> padding (a + b) = padding a ++ padding b.
Proof.
  intros Ha Hb. unfold padding. rewrite Z2Nat.inj_add by lia. apply repeat_app.
Qed.

Lemma blanks_no_newline (n : nat) : memchr (repeat space n) newline = false.
Proof. induction n as [|n IH]; [reflexivity | exact IH]. Qed.

Lemma blanks_c_str (n : nat) (rest : list byte) :
  c_str (repeat space n ++ rest) = repeat space n ++ c_str rest.
Proof.
  induction n as [|n IH]; [reflexivity|].
  cbn [repeat app c_str]. change (Byte.eqb space NUL) with false.
  cbv iota. f_equal. exact IH.
Qed.

Lemma len_padded_ping (size : Z) : 21 <= size -> len (padded_ping size) = size.
Proof.
  intros H. unfold padded_ping. len_simpl. rewrite len_padding by lia.
  change (len ping_text) with 20. lia.
Qed.

Lemma c_str_app (a b : list byte) :
  forallb (fun c => negb (Byte.eqb c NUL)) a = true ->
  c_str (a ++ b) = a ++ c_str b.
Proof.
  induction a as [|c a IH]; intros H; [reflexivity|].
  cbn [forallb] in H. apply andb_true_iff in H. destruct H as [Hc Ha].
  cbn [app c_str]. apply negb_true_iff in Hc. rewrite Hc. f_equal. apply IH, Ha.
Qed.

(** A request that starts with the ping text is answered with pong,
    whatever follows the text. *)
Lemma dispatch_ping (sys : system) (tail : list byte) :
  dispatch sys (ping_text ++ tail) [] = Done (Some pong, []).
Proof. vm_compute. reflexivity. Qed.

Lemma len_ping_text : len ping_text = 20.
Proof. reflexivity. Qed.

Lemma ping_text_clean :
  memchr ping_text newline = false /\
  forallb (fun c => negb (Byte.eqb c NUL)) ping_text = true.
Proof. split; reflexivity. Qed.

(** A request that opens with the ping text and goes on, without a
    newline or a NUL, up to the last byte the buffer takes: this much is
    read and answered, and what the peer sent after it is never read. *)
Lemma full_buffer_ping (sys : system) (size : Z) (head tail : list byte) :
  len head = MAX_REQUEST_SIZE - 21 ->
  memchr head newline = false ->
  forallb (fun c => negb (Byte.eqb c NUL)) head = true ->
  MAX_REQUEST_SIZE - 1 <= size ->
  handle_connection sys [size] ((ping_text ++ head) ++ tail) []
  = Done (Some pong, tail, []).
Proof.
  intros Hlen Hnl Hclean Hsize.
  assert (Hmax : MAX_REQUEST_SIZE = 134217728) by reflexivity.
  assert (Hread : read_request [size] ((ping_text ++ head) ++ tail) []
                  = ([] ++ ping_text ++ head, tail)).
  { apply read_request_full.
    - constructor; [lia | constructor].
    - len_simpl. rewrite len_ping_text. cbn [total fold_right]. lia.
    - len_simpl. rewrite len_ping_text. lia.
    - rewrite app_nil_l, memchr_app, Hnl, (proj1 ping_text_clean). reflexivity. }
  unfold handle_connection, bind. rewrite malloc_answer. cbn [hd tl].
  rewrite Hread. cbn [app]. cbv beta iota.
  rewrite <- app_assoc, c_str_app by (apply ping_text_clean).
  rewrite c_str_app by assumption. cbn [c_str].
  change (Byte.eqb NUL NUL) with true. cbv iota.
  rewrite app_nil_r, dispatch_ping. reflexivity.
Qed.

Lemma padding_clean (n : Z) :
  memchr (padding n) newline = false /\
  forallb (fun c => negb (Byte.eqb c NUL)) (padding n) = true.
Proof.
  unfold padding. generalize (Z.to_nat n) as k.
  induction k as [|k [IH1 IH2]]; split; auto.
Qed.

Lemma padding_0 : padding 0 = [].
Proof. reflexivity. Qed.

Lemma padding_1 : padding 1 = [space].
Proof. reflexivity. Qed.

Opaque padding.

(** A ping request of at least 128 MiB, handed over by one [read]: the
    first 128 MiB less one byte are read and answered, the rest of the
    request is never read. *)
Lemma oversized_ping (sys : system) (size : Z) :
  MAX_REQUEST_SIZE <= size ->
  handle_connection sys [size] (padded_ping size) []
  = Done (Some pong, padding (size - MAX_REQUEST_SIZE) ++ [newline], []).
Proof.
  intros Hsize.
  assert (Hmax : MAX_REQUEST_SIZE = 134217728) by reflexivity.
  assert (Hsplit : padded_ping size
                   = (ping_text ++ padding (MAX_REQUEST_SIZE - 21))
                     ++ (padding (size - MAX_REQUEST_SIZE) ++ [newline])).
  { unfold padded_ping.
    replace (size - 21) with ((MAX_REQUEST_SIZE - 21) + (size - MAX_REQUEST_SIZE))
      by lia.
    rewrite (padding_add (MAX_REQUEST_SIZE - 21) (size - MAX_REQUEST_SIZE)) by lia.
    rewrite <- (app_assoc (padding (MAX_REQUEST_SIZE - 21))).
    apply app_assoc. }
  rewrite Hsplit. apply full_buffer_ping.
  - apply len_padding. lia.
  - exact (proj1 (padding_clean (MAX_REQUEST_SIZE - 21))).
  - exact (proj2 (padding_clean (MAX_REQUEST_SIZE - 21))).
  - lia.
Qed.

Lemma memchr_newline : memchr [newline] newline = true.
Proof. reflexivity. Qed.

Lemma padded_ping_has_newline (size : Z) : memchr (padded_ping size) newline = true.
Proof.
  unfold padded_ping. rewrite !memchr_app, memchr_newline, !orb_true_r.
  reflexivity.
Qed.

(** The claim C3 fails on the code.  A ping request of exactly 128 MiB
    that ends with its newline is not read in full: its last byte, the
    newline, stays unread, and the 128 MiB less one byte before it are
    answered.  A request one byte larger is not rejected either: it gets
    the same answer, and its last two bytes stay unread. *)
Lemma request_at_limit_cut_and_larger_one_answered :
  len (padded_ping MAX_REQUEST_SIZE) = MAX_REQUEST_SIZE /\
  memchr (padded_ping MAX_REQUEST_SIZE) newline = true /\
  handle_connection barren [MAX_REQUEST_SIZE] (padded_ping MAX_REQUEST_SIZE) []
  = Done (Some pong, [newline], []) /\
  len (padded_ping (MAX_REQUEST_SIZE + 1)) = MAX_REQUEST_SIZE + 1 /\
  handle_connection barren [MAX_REQUEST_SIZE + 1]
                    (padded_ping (MAX_REQUEST_SIZE + 1)) []
  = Done (Some pong, [space; newline], []).
Proof.
  assert (Hmax : MAX_REQUEST_SIZE = 134217728) by reflexivity.
  split; [apply len_padded_ping; lia|].
  split; [apply padded_ping_has_newline|].
  split.
  - rewrite (oversized_ping barren MAX_REQUEST_SIZE) by lia.
    rewrite Z.sub_diag, padding_0. reflexivity.
  - split; [apply len_padded_ping; lia|].
    rewrite (oversized_ping barren (MAX_REQUEST_SIZE + 1)) by lia.
    replace (MAX_REQUEST_SIZE + 1 - MAX_REQUEST_SIZE) with 1 by lia.
    rewrite padding_1. reflexivity.
Qed.

(** ** The path echoed by file_stat *)

(** C6 (code defect).  The path of file_stat goes into the response as
    it is, where the output of exec goes through the escape function.
    For the file whose name holds a double quote the path field of the
    response ends at that quote: read back, it is not the path, and the
    rest of the name spills into the envelope.  Escaped, the path would
    have been read back unchanged. *)
Theorem file_stat_path_not_escaped :
  handle_connection regular_files [128] stat_quote_request []
  = Done (Some stat_quote_response, [], []) /\
  json_get_string stat_quote_response (lit "path") []
  = Done (Some (lit "/tmp/a"), []) /\
  json_get_string
    (stat_response (escaped (lit "/tmp/a'b")) (mkstat 3 33188 (lit "2024-01-01T00:00:00Z")))
    (lit "path") []
  = Done (Some (lit "/tmp/a'b"), []).
Proof. repeat split; vm_compute; reflexivity. Qed.

Example file_write_read_scenario :
  handle_connection regular_files [128]
    (lit "{'operation':'file_write','path':'/tmp/t','content':'aGVsbG8='}"
     ++ [newline]) []
  = Done (Some (lit "{'success':true,'data':{'bytes_written':5}}" ++ [newline]),
          [], []) /\
  handle_connection regular_files [128]
    (lit "{'operation':'file_read','path':'/tmp/t'}" ++ [newline]) []
  = Done (Some (lit "{'success':true,'data':{'content':'YWJj','size':3}}"
                ++ [newline]), [], []).
Proof. split; vm_compute; reflexivity. Qed.

(** ** Shutdown *)

Module LifecycleFacts.
Import Lifecycle.

(** Outside the main loop no step leads back to the loop: a step of the
    main thread brings the end nearer, a step of a signal handler or of
    the listener thread leaves the main thread where it is. *)
Lemma step_towards_end (s s' : state) :
  at_point s <> MainLoop -> step s s' ->
  at_point s' <> MainLoop /\ ((distance s' < distance s)%nat \/ stays s s').
Proof.
  intros Hloop Hstep.
  inversion Hstep; subst; try contradiction;
    try (split; [exact Hloop | right; repeat split]);
    unfold distance; cbn [at_point children move];
    repeat match goal with
           | Hat : at_point s = _ |- _ => rewrite Hat; clear Hat
           | Hc : children s = _ |- _ => rewrite Hc; clear Hc
           end;
    (split; [discriminate | left; cbn; lia]).
Qed.

(** A state of the shutdown that is not halted has a step of the main
    thread. *)
Lemma step_exists (s : state) :
  at_point s <> MainLoop -> (forall e, at_point s <> Halted e) ->
  exists s', step s s' /\ at_point s' <> MainLoop /\
             (distance s' < distance s)%nat.
Proof.
  intros Hloop Hend.
  assert (Hnext : exists s', step s s' /\ ~ stays s s').
  { destruct (at_point s) as [| | | | | | | ts | | | e] eqn:Hat.
    - congruence.
    - destruct (Z_le_gt_dec 0 (vsock_fd s)).
      + eexists. split; [apply step_close; assumption|].
        intros (H & _). cbn in H. congruence.
      + eexists. split; [apply step_no_listener; [assumption | lia]|].
        intros (H & _). cbn in H. congruence.
    - eexists. split; [apply step_term; assumption|].
      intros (H & _). cbn in H. congruence.
    - eexists. split; [apply step_grace; assumption|].
      intros (H & _). cbn in H. congruence.
    - eexists. split; [apply step_kill; assumption|].
      intros (H & _). cbn in H. congruence.
    - destruct (children s) as [|k] eqn:Hc.
      + eexists. split; [apply step_reaped; assumption|].
        intros (H & _). cbn in H. congruence.
      + eexists. split; [eapply step_reap; eassumption|].
        intros (_ & H & _). cbn in H. lia.
    - eexists. split; [apply step_sync; assumption|].
      intros (H & _). cbn in H. congruence.
    - destruct ts as [|t ts].
      + eexists. split; [apply step_second_sync; assumption|].
        intros (H & _). cbn in H. congruence.
      + eexists. split; [eapply step_umount; eassumption|].
        intros (H & _). cbn in H. rewrite Hat in H. injection H as H.
        apply (f_equal (@length string)) in H. cbn in H. lia.
    - eexists. split; [apply step_reboot; assumption|].
      intros (H & _). cbn in H. congruence.
    - eexists. split; [apply step_exit; assumption|].
      intros (H & _). cbn in H. congruence.
    - exfalso. apply (Hend e). reflexivity. }
  destruct Hnext as (s' & Hstep & Hmoved). exists s'.
  destruct (step_towards_end s s' Hloop Hstep) as [Hloop' [Hless | Hstay]];
    [auto | contradiction].
Qed.

Lemma halted_is_final (s s' : state) (e : ending) :
  at_point s = Halted e -> ~ step s s'.
Proof.
  intros Hat Hstep. inversion Hstep; subst; try congruence;
    match goal with H : forall e, at_point s <> Halted e |- _ =>
      exact (H e Hat) end.
Qed.

Lemma run_first (s s1 s2 : state) : step s s1 -> run s1 s2 -> run s s2.
Proof.
  intros Hstep Hrun. induction Hrun as [|s2 s3 _ IH Hstep'].
  - eapply run_on; [apply run_here | exact Hstep].
  - eapply run_on; eassumption.
Qed.

(** The shutdown comes to its end. *)
Lemma run_to_end (n : nat) :
  forall s, (distance s <= n)%nat -> at_point s <> MainLoop ->
            exists s_end e, run s s_end /\ at_point s_end = Halted e.
Proof.
  induction n as [|n IH]; intros s Hn Hloop.
  - destruct (at_point s) as [| | | | | | | ts | | | e] eqn:Hat;
      try (unfold distance in Hn; rewrite Hat in Hn; cbn in Hn; lia).
    + congruence.
    + exists s, e. split; [apply run_here | exact Hat].
  - destruct (at_point s) as [| | | | | | | ts | | | e] eqn:Hat;
      try (destruct (step_exists s) as (s' & Hstep & Hloop' & Hless);
           [congruence | intros e'; congruence |];
           destruct (IH s') as (s_end & e' & Hrun & Hend);
           [lia | exact Hloop' |];
           exists s_end, e'; split; [eapply run_first; eassumption | exact Hend]).
    exists s, e. split; [apply run_here | exact Hat].
Qed.

End LifecycleFacts.

(** ** The decoder on arbitrary non-empty input *)

Lemma decode_step_total (pre suf : list byte) (ca cb cc cd : byte)
      (out : buffer) (h : heap) :
  len (stored out) + group_output cc cd <= cap out ->
  exists r,
    decode_step (pre ++ ca :: cb :: cc :: cd :: suf) (len pre) out h = Done (r, h) /\
    forall out', r = Some out' ->
                 cap out' = cap out /\
                 len (stored out') = len (stored out) + group_output cc cd.
Proof.
  intros Hroom. unfold decode_step, bind.
  rewrite load_here, load_at1, load_at2, load_at3.
  unfold group_output, pad_count in *.
  destruct ((base64_decode_table ca <? 0) || (base64_decode_table cb <? 0));
    [eexists; split; [reflexivity | discriminate]|].
  destruct (Byte.eqb cc pad), (Byte.eqb cd pad); cbn [negb andb];
    repeat match goal with
    | |- context [if ?b then ret None else _] =>
        destruct b; [eexists; split; [reflexivity | discriminate]|]
    end.
  all: repeat match goal with
       | |- context [byte_of ?x] => generalize (byte_of x); intro
       end.
  all: unfold put, ret, fault; cbn [stored cap];
    repeat (match goal with
            | |- context [Z.ltb ?a ?b] =>
                rewrite (proj2 (Z.ltb_lt a b)) by (len_simpl; lia)
            end; cbn [stored cap]);
    eexists; (split; [reflexivity|]);
    intros out' E; injection E as <-; cbn [stored cap]; len_simpl; split; lia.
Qed.

Lemma decode_output_range (data : list byte) : 0 <= decode_output data.
Proof.
  assert (H : forall n (d : list byte), (length d <= n)%nat -> 0 <= decode_output d).
  { induction n as [|n IH]; intros d Hd.
    - destruct d; [cbn; lia | cbn in Hd; lia].
    - destruct d as [|ca [|cb [|cc [|cd rest]]]]; cbn [decode_output]; try lia.
      destruct rest as [|c rest].
      + unfold group_output, pad_count.
        destruct (Byte.eqb cc pad), (Byte.eqb cd pad); lia.
      + assert (0 <= decode_output (c :: rest)) by (apply IH; cbn in *; lia).
        lia. }
  apply (H (length data)). apply Nat.le_refl.
Qed.

Lemma decode_loop_total (k : nat) :
  forall (pre suf : list byte) (out : buffer) (h : heap),
    length suf = (4 * k)%nat ->
    len (stored out) + decode_output suf < cap out ->
    exists r,
      decode_loop k (pre ++ suf) (len pre) out h = Done (r, h) /\
      forall out', r = Some out' -> len (stored out') < cap out'.
Proof.
  induction k as [|k IH]; intros pre suf out h Hlen Hroom.
  - destruct suf; [|discriminate Hlen]. cbn [decode_loop decode_output] in *.
    eexists. split; [reflexivity|]. intros out' E. injection E as <-. lia.
  - destruct suf as [|ca [|cb [|cc [|cd rest]]]]; try (cbn in Hlen; lia).
    assert (Hrest : length rest = (4 * k)%nat) by (cbn [length] in Hlen; lia).
    pose proof (decode_output_range rest) as Hpos.
    assert (Hgroup : group_output cc cd <= 3 /\ 0 <= group_output cc cd).
    { unfold group_output, pad_count.
      destruct (Byte.eqb cc pad), (Byte.eqb cd pad); lia. }
    assert (Hneed : len (stored out) + group_output cc cd <= cap out /\
                    len (stored out) + group_output cc cd + decode_output rest
                    < cap out).
    { cbn [decode_output] in Hroom. destruct rest as [|c rest'].
      - cbn [decode_output]. lia.
      - lia. }
    destruct (decode_step_total pre rest ca cb cc cd out h (proj1 Hneed))
      as (r & Hstep & Hout).
    cbn [decode_loop]. unfold bind at 1. rewrite Hstep.
    destruct r as [out1|]; [|eexists; split; [reflexivity | discriminate]].
    destruct (Hout out1 eq_refl) as [Hcap Hstored].
    replace (pre ++ ca :: cb :: cc :: cd :: rest)
      with ((pre ++ [ca; cb; cc; cd]) ++ rest)
      by (rewrite <- app_assoc; reflexivity).
    replace (len pre + 4) with (len (pre ++ [ca; cb; cc; cd]))
      by (len_simpl; lia).
    apply IH; [exact Hrest | lia].
Qed.

(** The output counted from the two padding probes is what the loop
    stores at most. *)
Lemma decode_output_probes (k : nat) :
  forall data : list byte,
    length data = (4 * S k)%nat ->
    decode_output data
    = 3 * Z.of_nat (S k)
      - pad_count (nth (Z.to_nat (len data - 1)) data NUL)
      - pad_count (nth (Z.to_nat (len data - 2)) data NUL).
Proof.
  induction k as [|k IH]; intros data Hlen.
  - destruct data as [|ca [|cb [|cc [|cd [|c rest]]]]]; try (cbn in Hlen; lia).
    change (decode_output [ca; cb; cc; cd]) with (3 - pad_count cc - pad_count cd).
    change (nth (Z.to_nat (len [ca; cb; cc; cd] - 1)) [ca; cb; cc; cd] NUL) with cd.
    change (nth (Z.to_nat (len [ca; cb; cc; cd] - 2)) [ca; cb; cc; cd] NUL) with cc.
    lia.
  - destruct data as [|ca [|cb [|cc [|cd rest]]]]; try (cbn in Hlen; lia).
    assert (Hrest : length rest = (4 * S k)%nat) by (cbn [length] in Hlen; lia).
    cbn [decode_output]. destruct rest as [|c rest']; [discriminate Hrest|].
    rewrite (IH (c :: rest') Hrest).
    set (rest := c :: rest') in *.
    assert (Hl : len rest = 4 * Z.of_nat (S k)) by (unfold len; lia).
    assert (E1 : nth (Z.to_nat (len (ca :: cb :: cc :: cd :: rest) - 1))
                     (ca :: cb :: cc :: cd :: rest) NUL
                 = nth (Z.to_nat (len rest - 1)) rest NUL).
    { len_simpl.
      replace (Z.to_nat (len rest + 1 + 1 + 1 + 1 - 1))
        with (S (S (S (S (Z.to_nat (len rest - 1)))))) by lia.
      reflexivity. }
    assert (E2 : nth (Z.to_nat (len (ca :: cb :: cc :: cd :: rest) - 2))
                     (ca :: cb :: cc :: cd :: rest) NUL
                 = nth (Z.to_nat (len rest - 2)) rest NUL).
    { len_simpl.
      replace (Z.to_nat (len rest + 1 + 1 + 1 + 1 - 2))
        with (S (S (S (S (Z.to_nat (len rest - 2)))))) by lia.
      reflexivity. }
    rewrite E1, E2. lia.
Qed.

(** ** The child of exec: concrete runs *)

(** On every non-empty string whose length is a multiple of four the
    decoder reads and writes inside its objects: it returns the decoded
    bytes or NULL. *)
Lemma base64_decode_total (data : list byte) (h : heap) :
  data <> [] -> len data mod 4 = 0 ->
  exists r h', base64_decode data h = Done (r, h').
Proof.
  intros Hne Hmod.
  assert (Hk : exists k, length data = (4 * S k)%nat).
  { apply Z.mod_divide in Hmod; [|lia]. destruct Hmod as [q Hq].
    assert (0 < len data).
    { destruct data; [contradiction | len_simpl; pose proof (len_nonneg data); lia]. }
    exists (Z.to_nat (q - 1)). unfold len in *. lia. }
  destruct Hk as [k Hk].
  assert (Hl : len data = 4 * Z.of_nat (S k)) by (unfold len; lia).
  unfold base64_decode. rewrite Hmod. cbn [Z.eqb negb]. unfold bind.
  unfold load. rewrite !(proj2 (Z.leb_le _ _)), !(proj2 (Z.ltb_lt _ _)) by lia.
  cbn [andb]. unfold ret at 1 2.
  rewrite malloc_answer.
  destruct (hd true h); [|eexists _, _; reflexivity].
  assert (Htrips : Z.to_nat ((len data + 3) / 4) = S k).
  { rewrite Hl.
    replace (4 * Z.of_nat (S k) + 3) with (3 + Z.of_nat (S k) * 4) by lia.
    rewrite Z.div_add by lia. change (3 / 4) with 0. lia. }
  assert (Hsize : BASE64_DECODE_SIZE (len data) = 3 * Z.of_nat (S k)).
  { unfold BASE64_DECODE_SIZE. rewrite Hl.
    replace (4 * Z.of_nat (S k) + 3) with (3 + Z.of_nat (S k) * 4) by lia.
    rewrite Z.div_add by lia. change (3 / 4) with 0. lia. }
  rewrite Htrips, Hsize.
  pose proof (decode_output_probes k data Hk) as Hprobe.
  unfold pad_count in Hprobe.
  set (c1 := nth (Z.to_nat (len data - 1)) data NUL) in *.
  set (c2 := nth (Z.to_nat (len data - 2)) data NUL) in *.
  match goal with
  | |- context [decode_loop _ _ _ ?out] =>
      destruct (decode_loop_total (S k) [] data out (tl h) Hk) as (r & Hloop & Hout)
  end.
  { cbn [stored cap]. change (len []) with 0.
    destruct (Byte.eqb c1 pad), (Byte.eqb c2 pad); lia. }
  cbn [app] in Hloop. change (len []) with 0 in Hloop. rewrite Hloop.
  destruct r as [out'|]; [|eexists _, _; reflexivity].
  rewrite terminate_room by (apply Hout; reflexivity).
  eexists _, _. reflexivity.
Qed.

Example exec_child_falls_back_to_shell :
  exec_child (bytes_eqb bin_sh) [lit "echo"; lit "hi"] []
  = Done (Runs bin_sh [bin_sh; lit "-c"; lit "echo hi"], []).
Proof. vm_compute. reflexivity. Qed.

Example exec_child_exit_127 :
  exec_child (fun _ => false) [lit "echo"; lit "hi"] [] = Done (ExitsWith 127, []).
Proof. vm_compute. reflexivity. Qed.

(** ** The captured streams are bounded *)

Lemma pipe_read_bound (pipe buf : list byte) :
  len buf <= MAX_RESPONSE_SIZE - 1 ->
  len (fst (pipe_read pipe buf)) <= MAX_RESPONSE_SIZE - 1.
Proof.
  intros H. unfold pipe_read. cbn [fst]. len_simpl. rewrite len_take. lia.
Qed.

Lemma supervise_bound (timeout_ms t0 ks : Z) (ps : list poll) :
  forall pipe_out pipe_err out err : list byte,
    len out <= MAX_RESPONSE_SIZE - 1 ->
    len err <= MAX_RESPONSE_SIZE - 1 ->
    len (snd (fst (supervise timeout_ms t0 ks ps pipe_out pipe_err out err)))
    <= MAX_RESPONSE_SIZE - 1 /\
    len (snd (supervise timeout_ms t0 ks ps pipe_out pipe_err out err))
    <= MAX_RESPONSE_SIZE - 1.
Proof.
  induction ps as [|p ps IH]; intros pipe_out pipe_err out err Hout Herr.
  - cbn. auto.
  - cbn [supervise].
    pose proof (pipe_read_bound (pipe_out ++ out_ready p) out Hout) as H1.
    pose proof (pipe_read_bound (pipe_err ++ err_ready p) err Herr) as H2.
    destruct (pipe_read (pipe_out ++ out_ready p) out) as [out1 pipe_out1].
    destruct (pipe_read (pipe_err ++ err_ready p) err) as [err1 pipe_err1].
    cbn [fst] in H1, H2.
    destruct (wait_nohang p) as [r|].
    + pose proof (pipe_read_bound (pipe_out1 ++ out_last r) out1 H1) as H3.
      pose proof (pipe_read_bound (pipe_err1 ++ err_last r) err1 H2) as H4.
      destruct (pipe_read (pipe_out1 ++ out_last r) out1) as [out2 ?].
      destruct (pipe_read (pipe_err1 ++ err_last r) err1) as [err2 ?].
      cbn [fst snd] in *. auto.
    + destruct (clock p - t0 >? Z.quot timeout_ms 1000); cbn [fst snd]; auto.
Qed.

(** Each stream handed to the escape function holds at most 128 MiB
    less one byte. *)
Lemma collected_bound (timeout_ms : Z) (run : child_run) :
  forall (status : Z) (out err : list byte),
    collected timeout_ms run = (status, out, err) ->
    len out <= MAX_RESPONSE_SIZE - 1 /\ len err <= MAX_RESPONSE_SIZE - 1.
Proof.
  intros status out err H.
  pose proof (supervise_bound timeout_ms (start run) (kill_status run)
                (polls run) [] [] [] []) as Hb.
  unfold collected in H. rewrite H in Hb. cbn [fst snd] in Hb.
  apply Hb; change (len []) with 0; unfold MAX_RESPONSE_SIZE; lia.
Qed.

(** ** Base64: the text of an encoding, and what the decoder accepts *)

Lemma base64_text_plain (c : byte) :
  base64_text c = true ->
  escape_char c = [c] /\ short_escape c = true /\
  Byte.eqb c dquote = false /\ Byte.eqb c backslash = false /\
  Byte.eqb c newline = false /\ Byte.eqb c NUL = false.
Proof.
  destruct c; intros H; try discriminate H; repeat split.
Qed.

Lemma char_at_text (n k : Z) : base64_text (char_at n k) = true.
Proof.
  unfold base64_text, base64_digit. rewrite decode_char_at.
  rewrite (proj2 (Z.leb_le _ _)) by apply sextet_range. reflexivity.
Qed.

Lemma low_char_text (n : Z) : base64_text (base64_char (Z.land n 63)) = true.
Proof.
  unfold base64_text, base64_digit. rewrite decode_low_char.
  rewrite (proj2 (Z.leb_le _ _)) by apply low_sextet_range. reflexivity.
Qed.

Lemma enc_text (b : list byte) : forallb base64_text (enc b) = true.
Proof.
  induction b as [| x | x y | x y z r IH] using list_ind3;
    cbn [enc forallb app]; cbv zeta;
    rewrite ?char_at_text, ?low_char_text; try reflexivity.
  cbn [andb]. exact IH.
Qed.

Lemma escaped_text (t : list byte) :
  forallb base64_text t = true -> escaped t = t.
Proof.
  induction t as [|c t IH]; intros H; [reflexivity|].
  cbn [forallb] in H. apply andb_true_iff in H. destruct H as [Hc Ht].
  cbn [escaped flat_map]. rewrite (proj1 (base64_text_plain c Hc)).
  cbn [app]. f_equal. apply IH, Ht.
Qed.

(** X1.  When its buffer is granted the encoder returns a text of four
    characters for every three bytes begun, made of characters of the
    alphabet and the padding character only; the escape function leaves
    such a text unchanged, so it can stand between quotes as it is. *)
Theorem base64_encode_is_plain_text (b : list byte) (h : heap) :
  plentiful h ->
  exists t,
    base64_encode b h = Done (Some t, tl h) /\
    len t = 4 * ((len b + 2) / 3) /\
    forallb base64_text t = true /\
    escaped t = t.
Proof.
  intros Hh. exists (enc b). split; [apply base64_encode_enc, Hh|].
  split; [|split; [apply enc_text | apply escaped_text, enc_text]].
  rewrite len_enc, <- groups_trips. pose proof (len_nonneg b).
  rewrite Z2Nat.id by (apply Z.div_pos; lia). reflexivity.
Qed.

Lemma base64_encode_is_plain_text_witness :
  exists t,
    base64_encode (lit "hello") [] = Done (Some t, []) /\
    len t = 8 /\ forallb base64_text t = true /\ escaped t = t.
Proof.
  apply (base64_encode_is_plain_text (lit "hello") []). constructor.
Defined.

(** X2.  For every non-empty byte sequence, decoding what the encoder
    wrote gives the sequence back, as long as the two buffers are
    granted. *)
Theorem base64_decode_inverts_encode (b : list byte) (h : heap) :
  plentiful h -> b <> [] ->
  exists t,
    base64_encode b h = Done (Some t, tl h) /\
    base64_decode t (tl h) = Done (Some b, tl (tl h)).
Proof.
  intros Hh Hne. exists (enc b).
  split; [apply base64_encode_enc, Hh|].
  apply base64_decode_enc; [apply plentiful_tl, Hh | exact Hne].
Qed.

Lemma base64_decode_inverts_encode_witness :
  exists t,
    base64_encode [x00; xff; x80] [] = Done (Some t, []) /\
    base64_decode t [] = Done (Some [x00; xff; x80], []).
Proof.
  apply (base64_decode_inverts_encode [x00; xff; x80] []);
    [constructor | discriminate].
Defined.

(** X3.  On every non-empty string whose length is a multiple of four
    the decoder neither reads outside its input nor writes outside its
    buffer, whatever the characters are and whatever the allocator
    answers: it returns bytes or NULL. *)
Theorem base64_decode_stays_in_bounds (data : list byte) (h : heap) :
  data <> [] -> len data mod 4 = 0 ->
  exists r h', base64_decode data h = Done (r, h').
Proof. apply base64_decode_total. Qed.

Lemma base64_decode_stays_in_bounds_witness :
  exists r h', base64_decode (lit "a=b=c==d") [false] = Done (r, h').
Proof.
  apply base64_decode_stays_in_bounds; [discriminate | reflexivity].
Defined.

Lemma decode_step_verdict (pre suf : list byte) (ca cb cc cd : byte)
      (out : buffer) (h : heap) :
  len (stored out) + group_output cc cd <= cap out ->
  exists r,
    decode_step (pre ++ ca :: cb :: cc :: cd :: suf) (len pre) out h = Done (r, h) /\
    is_some r = base64_digit ca && base64_digit cb && base64_text cc
                && base64_text cd /\
    forall out', r = Some out' ->
                 cap out' = cap out /\
                 len (stored out') = len (stored out) + group_output cc cd.
Proof.
  intros Hroom. unfold decode_step, bind.
  rewrite load_here, load_at1, load_at2, load_at3.
  unfold group_output, pad_count, base64_text, base64_digit in *.
  rewrite !(Z.leb_antisym _ 0).
  destruct (base64_decode_table ca <? 0), (base64_decode_table cb <? 0),
    (base64_decode_table cc <? 0), (base64_decode_table cd <? 0),
    (Byte.eqb cc pad), (Byte.eqb cd pad); cbn [orb negb andb];
    try (eexists; split; [reflexivity | split; [reflexivity | discriminate]]).
  all: repeat match goal with
       | |- context [byte_of ?x] => generalize (byte_of x); intro
       end.
  all: unfold put, ret, fault; cbn [stored cap];
    repeat (match goal with
            | |- context [Z.ltb ?a ?b] =>
                rewrite (proj2 (Z.ltb_lt a b)) by (len_simpl; lia)
            end; cbn [stored cap]);
    eexists; (split; [reflexivity|]); (split; [reflexivity|]);
    intros out' E; injection E as <-; cbn [stored cap]; len_simpl; split; lia.
Qed.

Lemma decode_loop_verdict (k : nat) :
  forall (pre suf : list byte) (out : buffer) (h : heap),
    length suf = (4 * k)%nat ->
    len (stored out) + decode_output suf < cap out ->
    exists r,
      decode_loop k (pre ++ suf) (len pre) out h = Done (r, h) /\
      is_some r = base64_groups suf /\
      forall out', r = Some out' ->
                   len (stored out') < cap out' /\
                   len (stored out') <= len (stored out) + 3 * Z.of_nat k.
Proof.
  induction k as [|k IH]; intros pre suf out h Hlen Hroom.
  - destruct suf; [|discriminate Hlen]. cbn [decode_loop decode_output] in *.
    eexists. split; [reflexivity|]. split; [reflexivity|].
    intros out' E. injection E as <-. lia.
  - destruct suf as [|ca [|cb [|cc [|cd rest]]]]; try (cbn in Hlen; lia).
    assert (Hrest : length rest = (4 * k)%nat) by (cbn [length] in Hlen; lia).
    pose proof (decode_output_range rest) as Hpos.
    assert (Hgroup : group_output cc cd <= 3 /\ 0 <= group_output cc cd).
    { unfold group_output, pad_count.
      destruct (Byte.eqb cc pad), (Byte.eqb cd pad); lia. }
    assert (Hneed : len (stored out) + group_output cc cd <= cap out /\
                    len (stored out) + group_output cc cd + decode_output rest
                    < cap out).
    { cbn [decode_output] in Hroom. destruct rest as [|c rest'].
      - cbn [decode_output]. lia.
      - lia. }
    destruct (decode_step_verdict pre rest ca cb cc cd out h (proj1 Hneed))
      as (r & Hstep & Hverdict & Hout).
    cbn [decode_loop base64_groups]. unfold bind at 1. rewrite Hstep.
    destruct r as [out1|].
    + destruct (Hout out1 eq_refl) as [Hcap Hstored].
      replace (pre ++ ca :: cb :: cc :: cd :: rest)
        with ((pre ++ [ca; cb; cc; cd]) ++ rest)
        by (rewrite <- app_assoc; reflexivity).
      replace (len pre + 4) with (len (pre ++ [ca; cb; cc; cd]))
        by (len_simpl; lia).
      destruct (IH (pre ++ [ca; cb; cc; cd]) rest out1 h Hrest)
        as (r & Hloop & Hv & Hb); [lia|].
      exists r. split; [exact Hloop|]. split.
      * rewrite Hv. cbn [is_some] in Hverdict. rewrite <- Hverdict. reflexivity.
      * intros out' E. destruct (Hb out' E). split; lia.
    + eexists. split; [reflexivity|]. split.
      * cbn [is_some] in *. rewrite <- Hverdict. reflexivity.
      * discriminate.
Qed.

(** X4.  On a non-empty string whose length is a multiple of four, with
    its buffer granted, the decoder returns bytes exactly when every group
    of four characters has two characters of the alphabet followed by two
    that are of the alphabet or the padding character, and NULL otherwise;
    the bytes returned are at most three for each group. *)
Theorem base64_decode_accepts_well_formed_groups (data : list byte) (h : heap) :
  data <> [] -> len data mod 4 = 0 -> plentiful h ->
  exists r,
    base64_decode data h = Done (r, tl h) /\
    is_some r = base64_groups data /\
    forall out, r = Some out -> len out <= 3 * (len data / 4).
Proof.
  intros Hne Hmod Hh.
  assert (Hk : exists k, length data = (4 * S k)%nat).
  { apply Z.mod_divide in Hmod; [|lia]. destruct Hmod as [q Hq].
    assert (0 < len data).
    { destruct data; [contradiction | len_simpl; pose proof (len_nonneg data); lia]. }
    exists (Z.to_nat (q - 1)). unfold len in *. lia. }
  destruct Hk as [k Hk].
  assert (Hl : len data = 4 * Z.of_nat (S k)) by (unfold len; lia).
  assert (Hdiv : len data / 4 = Z.of_nat (S k)).
  { rewrite Hl, Z.mul_comm. apply Z.div_mul. lia. }
  unfold base64_decode. rewrite Hmod. cbn [Z.eqb negb]. unfold bind.
  unfold load. rewrite !(proj2 (Z.leb_le _ _)), !(proj2 (Z.ltb_lt _ _)) by lia.
  cbn [andb]. unfold ret at 1 2.
  rewrite malloc_plentiful by assumption.
  assert (Htrips : Z.to_nat ((len data + 3) / 4) = S k).
  { rewrite Hl.
    replace (4 * Z.of_nat (S k) + 3) with (3 + Z.of_nat (S k) * 4) by lia.
    rewrite Z.div_add by lia. change (3 / 4) with 0. lia. }
  assert (Hsize : BASE64_DECODE_SIZE (len data) = 3 * Z.of_nat (S k)).
  { unfold BASE64_DECODE_SIZE. rewrite Hl.
    replace (4 * Z.of_nat (S k) + 3) with (3 + Z.of_nat (S k) * 4) by lia.
    rewrite Z.div_add by lia. change (3 / 4) with 0. lia. }
  rewrite Htrips, Hsize.
  pose proof (decode_output_probes k data Hk) as Hprobe.
  unfold pad_count in Hprobe.
  set (c1 := nth (Z.to_nat (len data - 1)) data NUL) in *.
  set (c2 := nth (Z.to_nat (len data - 2)) data NUL) in *.
  match goal with
  | |- context [decode_loop _ _ _ ?out] =>
      destruct (decode_loop_verdict (S k) [] data out (tl h) Hk)
        as (r & Hloop & Hv & Hout)
  end.
  { cbn [stored cap]. change (len []) with 0.
    destruct (Byte.eqb c1 pad), (Byte.eqb c2 pad); lia. }
  cbn [app] in Hloop. change (len []) with 0 in Hloop. rewrite Hloop.
  destruct r as [out'|].
  - destruct (Hout out' eq_refl) as [Hfit Hbound].
    rewrite terminate_room by exact Hfit.
    eexists. split; [reflexivity|]. split; [exact Hv|].
    intros out E. injection E as <-. rewrite Hdiv.
    cbn [stored] in Hbound. change (len []) with 0 in Hbound. lia.
  - eexists. split; [reflexivity|]. split; [exact Hv | discriminate].
Qed.

Lemma base64_decode_accepts_well_formed_groups_witness :
  exists r,
    base64_decode (lit "aGk=a.==") [] = Done (r, []) /\
    is_some r = base64_groups (lit "aGk=a.==") /\
    forall out, r = Some out -> len out <= 3 * (len (lit "aGk=a.==") / 4).
Proof.
  apply (base64_decode_accepts_well_formed_groups (lit "aGk=a.==") []);
    [discriminate | reflexivity | constructor].
Defined.

(** ** JSON helpers: escaping, reading back, numbers *)

Lemma escape_char_printable (c : byte) :
  forallb printable (escape_char c) = true.
Proof. destruct c; reflexivity. Qed.

Lemma escaped_printable (s : list byte) : forallb printable (escaped s) = true.
Proof.
  induction s as [|c s IH]; [reflexivity|].
  cbn [escaped flat_map]. rewrite forallb_app, escape_char_printable. exact IH.
Qed.

Lemma printable_no_newline (t : list byte) :
  forallb printable t = true -> memchr t newline = false.
Proof.
  induction t as [|c t IH]; intros H; [reflexivity|].
  cbn [forallb] in H. apply andb_true_iff in H. destruct H as [Hc Ht].
  unfold memchr in *. cbn [existsb]. rewrite (IH Ht), orb_false_r.
  destruct (Byte.eqb newline c) eqn:E; [|reflexivity].
  apply Byte.byte_dec_bl in E. subst c. discriminate Hc.
Qed.

(** X5.  On a string that has no control byte other than newline,
    carriage return and tab before its first NUL, with its buffer
    granted, the escape function stays inside the buffer and returns a
    text at most twice as long as the string, in which every byte is 0x20
    or above (so it holds no newline) and whose end is found by the scan
    for the closing quote. *)
Theorem json_escape_stays_in_buffer (str : list byte) (h : heap) :
  plentiful h ->
  forallb short_escape (c_str str) = true ->
  exists t,
    json_escape str h = Done (Some t, tl h) /\
    len t <= 2 * len (c_str str) /\
    forallb printable t = true /\
    memchr t newline = false /\
    forall rest, string_body (t ++ dquote :: rest) = t.
Proof.
  intros Hh Hs. destruct (json_escape_short str h Hh Hs) as [Hrun Hlen].
  exists (escaped (c_str str)). split; [exact Hrun|]. split; [exact Hlen|].
  split; [apply escaped_printable|].
  split; [apply printable_no_newline, escaped_printable|].
  intros rest. apply string_body_escaped, Hs.
Qed.

Lemma json_escape_stays_in_buffer_witness :
  exists t,
    json_escape (lit "say 'hi'\" ++ [newline; NUL; x01]) [] = Done (Some t, []) /\
    len t <= 2 * len (c_str (lit "say 'hi'\" ++ [newline; NUL; x01])) /\
    forallb printable t = true /\
    memchr t newline = false /\
    forall rest, string_body (t ++ dquote :: rest) = t.
Proof.
  apply (json_escape_stays_in_buffer (lit "say 'hi'\" ++ [newline; NUL; x01]) []);
    [constructor | reflexivity].
Defined.

Lemma skipn_length_app (a b : list byte) : skipn (length a) (a ++ b) = b.
Proof. induction a as [|c a IH]; [reflexivity | exact IH]. Qed.

Lemma skip_separators_to_quote (seps x : list byte) :
  forallb is_separator seps = true ->
  skip_separators (seps ++ dquote :: x) = dquote :: x.
Proof.
  induction seps as [|c seps IH]; intros H; [reflexivity|].
  cbn [forallb] in H. apply andb_true_iff in H. destruct H as [Hc Hs].
  cbn [app skip_separators]. unfold is_separator in Hc. rewrite Hc.
  apply IH, Hs.
Qed.

(** The value of a string field: the field found by the search, its
    value written with the escape function. *)
Lemma json_get_string_field (json key s seps rest : list byte) (h : heap) :
  strstr json (search_key key)
  = Some (search_key key ++ seps ++ dquote :: escaped s ++ dquote :: rest) ->
  forallb is_separator seps = true ->
  forallb short_escape s = true ->
  plentiful h ->
  json_get_string json key h = Done (Some s, tl h).
Proof.
  intros Hfind Hseps Hs Hh. unfold json_get_string. rewrite Hfind.
  cbv zeta. rewrite skipn_length_app, skip_separators_to_quote by assumption.
  cbn [deref tl]. change (Byte.eqb dquote dquote) with true. cbn [negb].
  rewrite string_body_escaped by assumption.
  rewrite unescape_string_answer, (plentiful_hd _ Hh).
  rewrite unescape_escaped by assumption. reflexivity.
Qed.

(** X6.  A string field written with the escape function is read back
    by [json_get_string]: when the first occurrence of the quoted key is
    followed by separators and by the escaped form of [s] between quotes,
    the value returned is [s] itself, for every [s] without control bytes
    that take the six-character escape. *)
Theorem json_get_string_reads_escaped_field
        (json key s seps rest : list byte) (h : heap) :
  strstr json (search_key key)
  = Some (search_key key ++ seps ++ dquote :: escaped s ++ dquote :: rest) ->
  forallb is_separator seps = true ->
  forallb short_escape s = true ->
  plentiful h ->
  json_get_string json key h = Done (Some s, tl h).
Proof.
  intros Hfind Hseps Hs Hh.
  exact (json_get_string_field json key s seps rest h Hfind Hseps Hs Hh).
Qed.

Lemma json_get_string_reads_escaped_field_witness :
  json_get_string
    (exec_response 0 (escaped (lit "a 'b'" ++ [newline])) []) (lit "stdout") []
  = Done (Some (lit "a 'b'" ++ [newline]), []).
Proof.
  apply (json_get_string_reads_escaped_field _ _ _ [colon]
           (lit ",'stderr':''}}" ++ [newline]));
    try reflexivity. constructor.
Defined.

Lemma nilempty_digits (d : Decimal.uint) :
  forallb isdigit (list_byte_of_string (NilEmpty.string_of_uint d)) = true.
Proof. induction d; cbn; auto. Qed.

Lemma bytes_of_uint_digits (d : Decimal.uint) :
  forallb isdigit (bytes_of_uint d) = true /\
  exists c t, bytes_of_uint d = c :: t /\ isdigit c = true.
Proof.
  unfold bytes_of_uint.
  destruct d; cbn [NilZero.string_of_uint];
    (split; [first [reflexivity | apply nilempty_digits]
            | cbn; eexists _, _; split; reflexivity]).
Qed.

Lemma decimal_chars (z : Z) : forallb decimal_char (decimal z) = true.
Proof.
  assert (H : forall d, forallb decimal_char (bytes_of_uint d) = true).
  { intros d. destruct (bytes_of_uint_digits d) as [Hd _].
    revert Hd. generalize (bytes_of_uint d) as l.
    induction l as [|c l IH]; [reflexivity|]. cbn [forallb].
    intros Hd. apply andb_true_iff in Hd. destruct Hd as [Hc Hl].
    unfold decimal_char at 1. rewrite Hc. cbn [orb andb]. apply IH, Hl. }
  unfold decimal. destruct (Z.to_int z) as [d|d]; cbn [NilZero.string_of_int].
  - apply H.
  - change (forallb decimal_char ("-"%byte :: bytes_of_uint d) = true).
    cbn [forallb]. rewrite H. reflexivity.
Qed.

Lemma decimal_no_newline (z : Z) : memchr (decimal z) newline = false.
Proof.
  pose proof (decimal_chars z) as H. revert H.
  generalize (decimal z) as l. induction l as [|c l IH]; intros H; [reflexivity|].
  cbn [forallb] in H. apply andb_true_iff in H. destruct H as [Hc Hl].
  unfold memchr in *. cbn [existsb]. rewrite (IH Hl), orb_false_r.
  destruct (Byte.eqb newline c) eqn:E; [|reflexivity].
  apply Byte.byte_dec_bl in E. subst c. discriminate Hc.
Qed.

Lemma bytes_of_string_cons (a : Ascii.ascii) (s : string) :
  list_byte_of_string (String a s)
  = Ascii.byte_of_ascii a :: list_byte_of_string s.
Proof. reflexivity. Qed.

Lemma digits_value_digit (c : byte) (p : list byte) (acc : Z) :
  isdigit c = true ->
  digits_value (c :: p) acc = digits_value p (acc * 10 + (byte_val c - 48)).
Proof. intros H. cbn [digits_value]. rewrite H. reflexivity. Qed.

Lemma digits_value_stop (rest : list byte) (acc : Z) :
  isdigit (deref rest) = false -> digits_value rest acc = acc.
Proof.
  intros H. destruct rest as [|c rest]; [reflexivity|].
  cbn [digits_value]. cbn [deref] in H. rewrite H. reflexivity.
Qed.

Ltac byte_value :=
  match goal with
  | |- context [byte_val ?c] =>
      let v := eval vm_compute in (byte_val c) in change (byte_val c) with v
  end.

(** The digits read by [atoi], with a running value that is positive. *)
Lemma digits_value_acc (d : Decimal.uint) :
  forall (acc : positive) (rest : list byte),
    isdigit (deref rest) = false ->
    digits_value (list_byte_of_string (NilEmpty.string_of_uint d) ++ rest)
                 (Z.pos acc)
    = Z.pos (Pos.of_uint_acc d acc).
Proof.
  induction d; intros acc rest Hrest;
    cbn [NilEmpty.string_of_uint Pos.of_uint_acc];
    [ apply digits_value_stop, Hrest
    | rewrite bytes_of_string_cons; cbn [app];
      rewrite digits_value_digit by reflexivity;
      rewrite <- (IHd _ rest Hrest); f_equal; byte_value; lia .. ].
Qed.

Lemma digits_value_uint (d : Decimal.uint) :
  forall rest : list byte,
    isdigit (deref rest) = false ->
    digits_value (list_byte_of_string (NilEmpty.string_of_uint d) ++ rest) 0
    = Z.of_uint d.
Proof.
  unfold Z.of_uint.
  induction d; intros rest Hrest;
    cbn [NilEmpty.string_of_uint Pos.of_uint];
    [ apply digits_value_stop, Hrest
    | rewrite bytes_of_string_cons; cbn [app];
      rewrite digits_value_digit by reflexivity; byte_value;
      first [ apply IHd; exact Hrest
            | match goal with
              | |- digits_value _ ?v = Z.of_N (N.pos (Pos.of_uint_acc _ ?p)) =>
                  change v with (Z.pos p); apply digits_value_acc; exact Hrest
              end ] .. ].
Qed.

Lemma digits_value_bytes_of_uint (d : Decimal.uint) (rest : list byte) :
  isdigit (deref rest) = false ->
  digits_value (bytes_of_uint d ++ rest) 0 = Z.of_uint d.
Proof.
  intros Hrest. unfold bytes_of_uint.
  destruct d; try (apply digits_value_uint; exact Hrest).
  change (digits_value ("0"%byte :: rest) 0 = 0).
  rewrite digits_value_digit by reflexivity.
  apply digits_value_stop, Hrest.
Qed.

Lemma skip_spaces_digit (c : byte) (t : list byte) :
  isdigit c = true -> skip_spaces (c :: t) = c :: t /\
                      Byte.eqb c "-" = false /\ Byte.eqb c "+" = false /\
                      is_separator c = false.
Proof. destruct c; intros H; try discriminate H; repeat split. Qed.

Lemma to_int_in_range (z : Z) :
  -2147483648 <= z <= 2147483647 -> to_int z = z.
Proof.
  intros H. unfold to_int. rewrite Z.mod_small by lia. lia.
Qed.

Lemma atoi_minus (p : list byte) :
  atoi ("-"%byte :: p) = to_int (- digits_value p 0).
Proof. reflexivity. Qed.

Lemma atoi_decimal (z : Z) (rest : list byte) :
  -2147483648 <= z <= 2147483647 ->
  isdigit (deref rest) = false ->
  atoi (decimal z ++ rest) = z /\
  skip_separators (decimal z ++ rest) = decimal z ++ rest.
Proof.
  intros Hz Hrest. unfold decimal.
  pose proof (DecimalZ.of_to z) as Hof.
  destruct (Z.to_int z) as [d|d]; cbn [NilZero.string_of_int Z.of_int] in *.
  - fold (bytes_of_uint d). unfold atoi.
    destruct (bytes_of_uint_digits d) as (_ & c & t & Ebytes & Hc).
    pose proof (digits_value_bytes_of_uint d rest Hrest) as Hval.
    rewrite Ebytes in *. cbn [app] in *.
    destruct (skip_spaces_digit c (t ++ rest) Hc) as (Hskip & Hm & Hp & Hsep).
    cbv zeta. rewrite Hskip, Hm, Hp, Hval, Hof.
    split; [apply to_int_in_range, Hz|].
    cbn [skip_separators]. unfold is_separator in Hsep. rewrite Hsep. reflexivity.
  - rewrite bytes_of_string_cons. fold (bytes_of_uint d). cbn [app].
    change (Ascii.byte_of_ascii _) with ("-"%byte).
    rewrite atoi_minus, (digits_value_bytes_of_uint d rest Hrest), Hof.
    split; [apply to_int_in_range, Hz | reflexivity].
Qed.

(** The value of an integer field: the field found by the search, its
    value printed in decimal. *)
Lemma json_get_int_field (json key seps rest : list byte) (z : Z) :
  strstr json (search_key key)
  = Some (search_key key ++ seps ++ decimal z ++ rest) ->
  forallb is_separator seps = true ->
  -2147483648 <= z <= 2147483647 ->
  isdigit (deref rest) = false ->
  json_get_int json key = Some z.
Proof.
  intros Hfind Hseps Hz Hrest. unfold json_get_int. rewrite Hfind. cbv zeta.
  rewrite skipn_length_app. f_equal.
  destruct (atoi_decimal z rest Hz Hrest) as [Hatoi Hskip].
  assert (Hs : skip_separators (seps ++ decimal z ++ rest) = decimal z ++ rest).
  { clear Hfind. induction seps as [|c seps IH]; [exact Hskip|].
    cbn [forallb] in Hseps. apply andb_true_iff in Hseps.
    destruct Hseps as [Hc Hs]. cbn [app skip_separators].
    unfold is_separator in Hc. rewrite Hc. apply IH, Hs. }
  rewrite Hs. exact Hatoi.
Qed.

(** X7.  An integer field printed in decimal is read back by
    [json_get_int]: when the first occurrence of the quoted key is
    followed by separators, by the decimal text of an [int] and by
    something that is not a digit, the value stored is that integer. *)
Theorem json_get_int_reads_decimal (json key seps rest : list byte) (z : Z) :
  strstr json (search_key key)
  = Some (search_key key ++ seps ++ decimal z ++ rest) ->
  forallb is_separator seps = true ->
  -2147483648 <= z <= 2147483647 ->
  isdigit (deref rest) = false ->
  json_get_int json key = Some z.
Proof.
  intros Hfind Hseps Hz Hrest.
  exact (json_get_int_field json key seps rest z Hfind Hseps Hz Hrest).
Qed.

Lemma json_get_int_reads_decimal_witness :
  json_get_int (lit "{'cmd':['x'], 'timeout' : " ++ decimal (-2147483648) ++ lit "}")
               (lit "timeout") = Some (-2147483648).
Proof.
  apply (json_get_int_reads_decimal _ _ [space; colon; space] (lit "}"));
    try reflexivity; lia.
Defined.

Lemma memchr_lit_free (a b : list byte) :
  memchr a newline = false -> memchr b newline = false ->
  memchr (a ++ b) newline = false.
Proof. intros Ha Hb. rewrite memchr_app, Ha, Hb. reflexivity. Qed.

(** X8.  The envelopes are single lines: the response of exec, for every
    exit code and every two streams once escaped, the response of
    file_read, for every content, and an error response whose message
    has no newline each end with their only newline. *)
Theorem responses_are_single_lines :
  (forall (code : Z) (out err : list byte),
     one_line (exec_response code (escaped out) (escaped err))) /\
  (forall data : list byte, one_line (file_read_response data)) /\
  (forall msg : list byte,
     memchr msg newline = false -> one_line (error_response msg)).
Proof.
  split; [|split].
  - intros code out err. unfold one_line, exec_response.
    eexists. rewrite !app_assoc. split; [reflexivity|].
    repeat apply memchr_lit_free; try reflexivity;
      first [ apply decimal_no_newline
            | apply printable_no_newline, escaped_printable ].
  - intros data. unfold one_line, file_read_response.
    eexists. rewrite !app_assoc. split; [reflexivity|].
    repeat apply memchr_lit_free; try reflexivity;
      first [ apply decimal_no_newline | idtac ].
    rewrite <- (escaped_text (enc data)) by apply enc_text.
    apply printable_no_newline, escaped_printable.
  - intros msg Hmsg. unfold one_line, error_response.
    eexists. rewrite !app_assoc. split; [reflexivity|].
    repeat apply memchr_lit_free; try reflexivity. exact Hmsg.
Qed.

Lemma responses_are_single_lines_witness :
  one_line (error_response (lit "stat: No such file or directory")).
Proof.
  apply (proj2 (proj2 responses_are_single_lines)). reflexivity.
Defined.

(** ** Exec: the wait status, the captured streams, the arguments *)

Lemma wexitstatus_value (status : Z) :
  WEXITSTATUS status = (status / 256) mod 256.
Proof.
  unfold WEXITSTATUS. rewrite Z.shiftr_land.
  change (Z.shiftr 65280 8) with (Z.ones 8).
  rewrite Z.land_ones, Z.shiftr_div_pow2 by lia. reflexivity.
Qed.

Lemma wifexited_value (status : Z) :
  WIFEXITED status = (status mod 128 =? 0).
Proof.
  unfold WIFEXITED. change 127 with (Z.ones 7).
  rewrite Z.land_ones by lia. reflexivity.
Qed.

(** X9.  The exit code reported for a wait status is the second byte of
    the status when its low seven bits are clear, and -1 otherwise: it
    is always -1 or a number from 0 to 255. *)
Theorem exit_code_is_minus_one_or_a_byte (status : Z) :
  exit_code_of status
  = (if status mod 128 =? 0 then (status / 256) mod 256 else -1) /\
  (exit_code_of status = -1 \/ 0 <= exit_code_of status <= 255).
Proof.
  unfold exit_code_of. rewrite wifexited_value, wexitstatus_value.
  split; [reflexivity|].
  destruct (status mod 128 =? 0); [right | left; reflexivity].
  pose proof (Z.mod_pos_bound (status / 256) 256). lia.
Qed.

Lemma max_response_positive : 0 <= MAX_RESPONSE_SIZE - 1.
Proof. unfold MAX_RESPONSE_SIZE. lia. Qed.

Lemma len_take_le (n : Z) (l : list byte) : 0 <= n -> len (take n l) <= n.
Proof. intros H. rewrite len_take. pose proof (len_nonneg l). lia. Qed.

(** One read, seen from the bytes offered so far: the buffer holds their
    first [MAX_RESPONSE_SIZE - 1] bytes and the pipe keeps the others. *)
Lemma pipe_read_offered (x new : list byte) :
  pipe_read (drop (MAX_RESPONSE_SIZE - 1) x ++ new)
            (take (MAX_RESPONSE_SIZE - 1) x)
  = (take (MAX_RESPONSE_SIZE - 1) (x ++ new),
     drop (MAX_RESPONSE_SIZE - 1) (x ++ new)).
Proof.
  pose proof max_response_positive as Hm.
  set (m := MAX_RESPONSE_SIZE - 1) in *.
  unfold pipe_read.
  replace (MAX_RESPONSE_SIZE - len (take m x) - 1) with (m - len (take m x))
    by (subst m; lia).
  pose proof (len_take_le m x Hm) as Hle.
  assert (E : x ++ new = take m x ++ (drop m x ++ new))
    by (rewrite app_assoc, take_drop; reflexivity).
  rewrite E.
  rewrite (take_app (take m x)), (drop_app (take m x)).
  rewrite (take_all (take m x)), (drop_all (take m x)) by lia.
  reflexivity.
Qed.

Lemma supervise_offered (timeout_ms t0 ks : Z) (ps : list poll) :
  forall x y : list byte,
    let m := MAX_RESPONSE_SIZE - 1 in
    let r := supervise timeout_ms t0 ks ps (drop m x) (drop m y)
                       (take m x) (take m y) in
    snd (fst r) = take m (x ++ offered out_ready out_last timeout_ms t0 ps) /\
    snd r = take m (y ++ offered err_ready err_last timeout_ms t0 ps).
Proof.
  cbv zeta.
  induction ps as [|p ps IH]; intros x y.
  - cbn [supervise offered fst snd]. rewrite !app_nil_r. auto.
  - cbn [supervise offered]. rewrite !pipe_read_offered.
    destruct (wait_nohang p) as [r|].
    + rewrite !pipe_read_offered. cbn [fst snd]. rewrite <- !app_assoc. auto.
    + destruct (clock p - t0 >? Z.quot timeout_ms 1000).
      * cbn [fst snd]. rewrite !app_nil_r. auto.
      * rewrite !app_assoc. apply IH.
Qed.

(** X10.  Each captured stream is what its pipe offered to the reads of
    the loop, in order and without gaps, cut after 128 MiB less one
    byte: nothing is reordered or dropped before that limit. *)
Theorem exec_captures_prefix_of_output (timeout_ms : Z) (run : child_run) :
  snd (fst (collected timeout_ms run))
  = take (MAX_RESPONSE_SIZE - 1)
         (offered out_ready out_last timeout_ms (start run) (polls run)) /\
  snd (collected timeout_ms run)
  = take (MAX_RESPONSE_SIZE - 1)
         (offered err_ready err_last timeout_ms (start run) (polls run)).
Proof.
  unfold collected.
  exact (supervise_offered timeout_ms (start run) (kill_status run)
                           (polls run) [] []).
Qed.

(** A poll at which the child is still running and the deadline has not
    passed. *)
Lemma supervise_status (timeout_ms t0 ks : Z) (p : poll) (after : list poll) :
  forall (before : list poll) (po pe out err : list byte),
    Forall (fun q => wait_nohang q = None /\
                     clock q - t0 <= Z.quot timeout_ms 1000) before ->
    fst (fst (supervise timeout_ms t0 ks (before ++ p :: after) po pe out err))
    = match wait_nohang p with
      | Some r => status_of r
      | None =>
          if clock p - t0 >? Z.quot timeout_ms 1000 then status_if_killed p
          else fst (fst (supervise timeout_ms t0 ks (p :: after) [] [] [] []))
      end
    \/ (wait_nohang p = None /\ clock p - t0 <= Z.quot timeout_ms 1000).
Proof.
  induction before as [|q before IH]; intros po pe out err Hb.
  - cbn [app supervise].
    destruct (pipe_read (po ++ out_ready p) out) as [out1 po1].
    destruct (pipe_read (pe ++ err_ready p) err) as [err1 pe1].
    destruct (wait_nohang p) as [r|].
    + destruct (pipe_read (po1 ++ out_last r) out1).
      destruct (pipe_read (pe1 ++ err_last r) err1). left. reflexivity.
    + destruct (Z.gtb_spec (clock p - t0) (Z.quot timeout_ms 1000));
        [left; reflexivity | right; split; [reflexivity | lia]].
  - inversion Hb as [|q' b' [Hw Hc] Hb']; subst.
    cbn [app supervise].
    destruct (pipe_read (po ++ out_ready q) out) as [out1 po1].
    destruct (pipe_read (pe ++ err_ready q) err) as [err1 pe1].
    rewrite Hw.
    destruct (Z.gtb_spec (clock q - t0) (Z.quot timeout_ms 1000)); [lia|].
    apply IH, Hb'.
Qed.

(** X11.  The loop ends at the first poll that finds the child gone or
    the deadline passed.  A child found gone is reported with its own
    status, whatever the timeout and the clock; a child still running is
    killed only when more whole seconds than [timeout_ms / 1000] have
    gone by since the start. *)
Theorem exec_reaps_before_it_kills (timeout_ms : Z) (run : child_run)
        (before after : list poll) (p : poll) :
  polls run = before ++ p :: after ->
  Forall (fun q => wait_nohang q = None /\
                   clock q - start run <= Z.quot timeout_ms 1000) before ->
  (forall r, wait_nohang p = Some r ->
             fst (fst (collected timeout_ms run)) = status_of r) /\
  (wait_nohang p = None -> clock p - start run > Z.quot timeout_ms 1000 ->
   fst (fst (collected timeout_ms run)) = status_if_killed p).
Proof.
  intros Hp Hb. unfold collected. rewrite Hp.
  destruct (supervise_status timeout_ms (start run) (kill_status run) p after
              before [] [] [] [] Hb) as [H|[Hw Hc]].
  - split.
    + intros r Hr. rewrite H, Hr. reflexivity.
    + intros Hw Hc. rewrite H, Hw.
      destruct (Z.gtb_spec (clock p - start run) (Z.quot timeout_ms 1000));
        [reflexivity | lia].
  - split; [intros r Hr; congruence | intros _ Hgt; lia].
Qed.

Lemma exec_reaps_before_it_kills_witness :
  fst (fst (collected 30000 sleep_1)) = 0.
Proof.
  assert (Hb : Forall (fun q => wait_nohang q = None /\
                               clock q - start sleep_1 <= Z.quot 30000 1000)
                      [mkpoll [] [] None 100 9]).
  { constructor; [split; [reflexivity | vm_compute; discriminate] | constructor]. }
  exact (proj1 (exec_reaps_before_it_kills 30000 sleep_1
                  [mkpoll [] [] None 100 9] []
                  (mkpoll [] [] (Some (mkreaped 0 [] [])) 101 9) eq_refl Hb)
               (mkreaped 0 [] []) eq_refl).
Defined.

(** *** The arguments *)

Lemma parse_cmd_bound (fuel : nat) :
  forall (p : list byte) (argv res : list (list byte)) (h h' : heap),
    parse_cmd fuel p argv h = Done (Some res, h') ->
    (length argv <= 255)%nat -> (length res <= 255)%nat.
Proof.
  induction fuel as [|fuel IH]; intros p argv res h h' Hrun Hlen;
    cbn [parse_cmd] in Hrun;
    destruct (negb (at_end p) && negb (Byte.eqb (deref p) rbracket)
              && (Z.of_nat (length argv) <? 255)) eqn:Hgo;
    try (unfold ret in Hrun; congruence).
  apply andb_true_iff in Hgo. destruct Hgo as [_ Hroom].
  apply Z.ltb_lt in Hroom.
  set (q := skip_cmd_separators p) in *.
  destruct (Byte.eqb (deref q) dquote).
  - unfold bind in Hrun. rewrite unescape_string_answer in Hrun.
    apply IH in Hrun; [exact Hrun|].
    destruct (hd true h); [rewrite length_app; cbn [length]; lia | exact Hlen].
  - destruct (negb (at_end q) && negb (Byte.eqb (deref q) rbracket));
      apply IH in Hrun; assumption.
Qed.

(** X12.  The argument array never overflows: whatever the request
    holds, at most 255 arguments are stored, so that the terminating
    null pointer fits in the 256 slots. *)
Theorem exec_argv_at_most_255 (arr_start : list byte)
        (argv : list (list byte)) (h h' : heap) :
  exec_argv arr_start h = Done (Some argv, h') ->
  (length argv <= 255)%nat.
Proof.
  intros H. unfold exec_argv in H.
  apply (parse_cmd_bound _ _ _ _ _ _ H). cbn [length]. lia.
Qed.

Lemma exec_argv_at_most_255_witness :
  (length [lit "ls"; lit "-l"] <= 255)%nat.
Proof.
  apply (exec_argv_at_most_255 (lit "['ls', '-l']}") _ [] []).
  vm_compute. reflexivity.
Defined.

Lemma cmd_safe_short (c : byte) : cmd_safe c = true -> short_escape c = true.
Proof. destruct c; intros H; try discriminate H; reflexivity. Qed.

Lemma cmd_safe_all_short (a : list byte) :
  forallb cmd_safe a = true -> forallb short_escape a = true.
Proof.
  induction a as [|c a IH]; [reflexivity|]. cbn [forallb]. intros H.
  apply andb_true_iff in H. destruct H as [Hc Ha].
  rewrite (cmd_safe_short c Hc). exact (IH Ha).
Qed.

Lemma unescape_cmd_escape_char (c : byte) (rest : list byte) :
  cmd_safe c = true ->
  unescape unescape_char_cmd (escape_char c ++ rest)
  = c :: unescape unescape_char_cmd rest.
Proof. destruct c; intros H; try discriminate H; reflexivity. Qed.

Lemma unescape_cmd_escaped (a : list byte) :
  forallb cmd_safe a = true -> unescape unescape_char_cmd (escaped a) = a.
Proof.
  induction a as [|c a IH]; intros H; [reflexivity|].
  cbn [forallb] in H. apply andb_true_iff in H. destruct H as [Hc Ha].
  cbn [escaped flat_map]. rewrite unescape_cmd_escape_char by exact Hc.
  f_equal. exact (IH Ha).
Qed.

(** One turn of the loop on an item written as [cmd_items] writes it. *)
Lemma parse_cmd_item (fuel : nat) (first : bool) (a tail : list byte)
      (argv : list (list byte)) (h : heap) :
  forallb cmd_safe a = true ->
  (length argv < 255)%nat ->
  plentiful h ->
  parse_cmd (S fuel)
            ((if first then [] else [comma]) ++ dquote :: escaped a
             ++ dquote :: tail) argv h
  = parse_cmd fuel tail (argv ++ [a]) (tl h).
Proof.
  intros Ha Hlen Hh.
  assert (Hroom : (Z.of_nat (length argv) <? 255) = true)
    by (apply Z.ltb_lt; lia).
  pose proof (string_body_escaped a tail (cmd_safe_all_short a Ha)) as Hbody.
  destruct first; cbn [app parse_cmd]; rewrite Hroom;
    unfold at_end; cbn [deref skip_cmd_separators];
    change (Byte.eqb dquote NUL) with false;
    change (Byte.eqb dquote rbracket) with false;
    change (Byte.eqb comma NUL) with false;
    change (Byte.eqb comma rbracket) with false;
    change (Byte.eqb comma space) with false;
    change (Byte.eqb comma comma) with true;
    change (Byte.eqb dquote space) with false;
    change (Byte.eqb dquote comma) with false;
    change (Byte.eqb dquote tab) with false;
    change (Byte.eqb dquote newline) with false;
    change (Byte.eqb dquote dquote) with true;
    cbn [negb andb orb deref tl];
    change (Byte.eqb dquote dquote) with true; cbv iota;
    rewrite Hbody; unfold bind;
    rewrite unescape_string_answer, (plentiful_hd h Hh),
            (unescape_cmd_escaped a Ha), skipn_length_app;
    cbn [deref tl]; change (Byte.eqb dquote dquote) with true; cbv iota;
    reflexivity.
Qed.

Lemma skipn_tl (n : nat) (h : heap) : skipn n (tl h) = skipn (S n) h.
Proof. destruct h; [destruct n; reflexivity | reflexivity]. Qed.

Lemma cmd_items_cons (first : bool) (a : list byte) (args : list (list byte))
      (tail : list byte) :
  cmd_items first (a :: args) ++ tail
  = (if first then [] else [comma])
    ++ dquote :: escaped a ++ dquote :: cmd_items false args ++ tail.
Proof.
  destruct first; simpl; rewrite <- app_assoc; reflexivity.
Qed.

Lemma parse_cmd_items (rest : list byte) (args : list (list byte)) :
  forall (first : bool) (fuel : nat) (argv : list (list byte)) (h : heap),
    plentiful h ->
    (length argv + length args <= 255)%nat ->
    forallb (forallb cmd_safe) args = true ->
    (length args <= fuel)%nat ->
    parse_cmd fuel (cmd_items first args ++ rbracket :: rest) argv h
    = Done (Some (argv ++ args), skipn (length args) h).
Proof.
  induction args as [|a args IH]; intros first fuel argv h Hh Hlen Hsafe Hfuel.
  - cbn [cmd_items app length skipn]. rewrite app_nil_r.
    destruct fuel; reflexivity.
  - cbn [forallb] in Hsafe. apply andb_true_iff in Hsafe.
    destruct Hsafe as [Ha Hargs]. cbn [length] in Hlen, Hfuel.
    destruct fuel as [|fuel]; [lia|].
    rewrite cmd_items_cons.
    rewrite (parse_cmd_item fuel first a
               (cmd_items false args ++ rbracket :: rest) argv h Ha)
      by (assumption || lia).
    rewrite IH; [| apply plentiful_tl, Hh | rewrite length_app; cbn [length]; lia
                 | exact Hargs | lia].
    rewrite <- app_assoc. cbn [app length]. rewrite skipn_tl. reflexivity.
Qed.

Lemma cmd_items_length (args : list (list byte)) :
  forall first, (length args <= length (cmd_items first args))%nat.
Proof.
  induction args as [|a args IH]; intros first; [apply Nat.le_refl|].
  cbn [cmd_items]. rewrite !length_app. cbn [length]. rewrite length_app.
  cbn [length]. specialize (IH false). lia.
Qed.

(** The arguments read from an array written as [cmd_items] writes it. *)
Lemma exec_argv_items (args : list (list byte)) (rest : list byte) (h : heap) :
  plentiful h ->
  (length args <= 255)%nat ->
  forallb (forallb cmd_safe) args = true ->
  exec_argv (lbracket :: cmd_items true args ++ rbracket :: rest) h
  = Done (Some args, skipn (length args) h).
Proof.
  intros Hh Hlen Hsafe. unfold exec_argv. cbn [tl].
  rewrite (parse_cmd_items rest args true _ [] h Hh); try assumption.
  - reflexivity.
  - pose proof (cmd_items_length args true) as Hl.
    cbn [length]. rewrite length_app. lia.
Qed.

(** X13.  The cmd array parser reads back what the escape function
    writes: for at most 255 arguments without control characters other
    than newline and tab, each escaped between quotes and separated by
    commas, the arguments passed on are the original ones, in order. *)
Theorem exec_argv_reads_escaped_items (args : list (list byte))
        (rest : list byte) (h : heap) :
  plentiful h ->
  (length args <= 255)%nat ->
  forallb (forallb cmd_safe) args = true ->
  exec_argv (lbracket :: cmd_items true args ++ rbracket :: rest) h
  = Done (Some args, skipn (length args) h).
Proof.
  intros Hh Hlen Hsafe. exact (exec_argv_items args rest h Hh Hlen Hsafe).
Qed.

Lemma exec_argv_reads_escaped_items_witness :
  exec_argv (lbracket :: cmd_items true [lit "/bin/echo"; lit "a 'b'\c" ++ [newline; tab]]
             ++ rbracket :: lit "}") []
  = Done (Some [lit "/bin/echo"; lit "a 'b'\c" ++ [newline; tab]], []).
Proof.
  apply (exec_argv_reads_escaped_items
           [lit "/bin/echo"; lit "a 'b'\c" ++ [newline; tab]] (lit "}") []).
  - constructor.
  - cbn [length]. lia.
  - reflexivity.
Defined.

(** *** The shell fallback of the child *)

Lemma strcat_answer (dst : buffer) (s : list byte) (h : heap) :
  strcat dst s h
  = if len (stored dst) + len s + 1 <=? cap dst
    then Done (mkbuf (cap dst) (stored dst ++ s), h) else Fault.
Proof.
  unfold strcat. destruct (len (stored dst) + len s + 1 <=? cap dst); reflexivity.
Qed.

Lemma join_args_answer (argv : list (list byte)) :
  forall (first : bool) (line : buffer) (h : heap),
    len (stored line) + 1 <= cap line ->
    join_args first argv line h
    = if len (stored line) + len (joined first argv) + 1 <=? cap line
      then Done (mkbuf (cap line) (stored line ++ joined first argv), h)
      else Fault.
Proof.
  induction argv as [|a argv IH]; intros first line h Hline.
  - cbn [join_args joined]. change (len []) with 0.
    rewrite (proj2 (Z.leb_le _ _)) by lia. rewrite app_nil_r.
    destruct line; reflexivity.
  - cbn [join_args joined]. unfold bind.
    pose proof (len_nonneg a) as Ha.
    pose proof (len_nonneg (joined false argv)) as Hj.
    destruct first.
    + unfold ret at 1. rewrite strcat_answer. cbn [app].
      destruct (Z.leb_spec (len (stored line) + len a + 1) (cap line)) as [H1|H1].
      * rewrite IH by (cbn [stored cap]; len_simpl; lia).
        cbn [stored cap]. len_simpl. rewrite <- app_assoc.
        replace (len (stored line) + len a + len (joined false argv) + 1)
          with (len (stored line) + (len a + len (joined false argv)) + 1) by lia.
        reflexivity.
      * len_simpl. rewrite (proj2 (Z.leb_gt _ _)) by lia. reflexivity.
    + rewrite strcat_answer. change (len [space]) with 1.
      destruct (Z.leb_spec (len (stored line) + 1 + 1) (cap line)) as [H0|H0].
      * rewrite strcat_answer. cbn [stored cap]. len_simpl.
        destruct (Z.leb_spec (len (stored line) + (0 + 1) + len a + 1) (cap line))
          as [H1|H1].
        -- rewrite IH by (cbn [stored cap]; len_simpl; lia).
           cbn [stored cap]. len_simpl. rewrite <- !app_assoc.
           replace (len (stored line) + (0 + 1) + len a
                    + len (joined false argv) + 1)
             with (len (stored line)
                   + (0 + 1 + (len a + len (joined false argv))) + 1) by lia.
           reflexivity.
        -- rewrite (proj2 (Z.leb_gt _ _)) by lia. reflexivity.
      * len_simpl. rewrite (proj2 (Z.leb_gt _ _)) by lia. reflexivity.
Qed.

(** X14.  When the program cannot be executed the child hands the shell
    the arguments joined by single blanks, provided the joined line is
    shorter than the 4096 bytes of its buffer; from 4096 bytes on the
    line is written past the end of the buffer. *)
Theorem exec_child_shell_line (can_exec : list byte -> bool)
        (argv : list (list byte)) (h : heap) :
  can_exec (hd [] argv) = false ->
  exec_child can_exec argv h
  = if len (joined true argv) <? 4096
    then Done (if can_exec bin_sh
               then Runs bin_sh [bin_sh; lit "-c"; joined true argv]
               else ExitsWith 127, h)
    else Fault.
Proof.
  intros Hexec. unfold exec_child. rewrite Hexec. unfold bind.
  rewrite join_args_answer by (cbn [stored cap]; change (len []) with 0; lia).
  cbn [stored cap app]. change (len []) with 0.
  destruct (Z.ltb_spec (len (joined true argv)) 4096).
  - rewrite (proj2 (Z.leb_le _ _)) by lia. cbn [stored].
    destruct (can_exec bin_sh); reflexivity.
  - rewrite (proj2 (Z.leb_gt _ _)) by lia. reflexivity.
Qed.

Lemma exec_child_shell_line_witness :
  exec_child (bytes_eqb bin_sh) [lit "cd"; lit "/tmp"] []
  = Done (Runs bin_sh [bin_sh; lit "-c"; lit "cd /tmp"], []).
Proof.
  apply (exec_child_shell_line (bytes_eqb bin_sh) [lit "cd"; lit "/tmp"] []).
  reflexivity.
Defined.

(** ** File contents and requests, end to end *)

Lemma plain_facts (c : byte) :
  plain c = true ->
  escape_char c = [c] /\ short_escape c = true /\ Byte.eqb dquote c = false.
Proof. destruct c; intros H; try discriminate H; repeat split. Qed.

Lemma escaped_plain (s : list byte) :
  forallb plain s = true -> escaped s = s /\ forallb short_escape s = true.
Proof.
  induction s as [|c s IH]; intros H; [split; reflexivity|].
  cbn [forallb] in H. apply andb_true_iff in H. destruct H as [Hc Hs].
  destruct (plain_facts c Hc) as (He & Hshort & _).
  destruct (IH Hs) as [IH1 IH2].
  cbn [escaped flat_map forallb]. fold (escaped s).
  rewrite He, IH1, Hshort, IH2. split; reflexivity.
Qed.

Lemma base64_text_is_plain (t : list byte) :
  forallb base64_text t = true -> forallb plain t = true.
Proof.
  induction t as [|c t IH]; intros H; [reflexivity|].
  cbn [forallb] in H. apply andb_true_iff in H. destruct H as [Hc Ht].
  cbn [forallb]. rewrite (IH Ht), andb_true_r.
  clear - Hc. destruct c; try discriminate Hc; reflexivity.
Qed.

Lemma json_get_string_plain_field (json key s seps rest : list byte) (h : heap) :
  strstr json (search_key key)
  = Some (search_key key ++ seps ++ dquote :: s ++ dquote :: rest) ->
  forallb is_separator seps = true ->
  forallb plain s = true ->
  plentiful h ->
  json_get_string json key h = Done (Some s, tl h).
Proof.
  intros Hfind Hseps Hs Hh. destruct (escaped_plain s Hs) as [He Hshort].
  rewrite <- He in Hfind.
  exact (json_get_string_field json key s seps rest h Hfind Hseps Hshort Hh).
Qed.

(** No occurrence of a quoted word starts in a text without quotes. *)
Lemma strstr_skip (v rest needle : list byte) :
  forallb plain v = true ->
  strstr (v ++ rest) (dquote :: needle) = strstr rest (dquote :: needle).
Proof.
  induction v as [|c v IH]; intros H; [reflexivity|].
  cbn [forallb] in H. apply andb_true_iff in H. destruct H as [Hc Hv].
  destruct (plain_facts c Hc) as (_ & _ & Hq).
  cbn [app strstr starts_with]. rewrite Hq. cbn [andb]. exact (IH Hv).
Qed.

(** X15.  What file_read sends can be taken back: the content field of
    its response, read with [json_get_string] and passed through
    [base64_decode], is the bytes of the file, for every file that is
    not empty. *)
Theorem file_read_content_decodes_to_file (sys : system)
        (path data : list byte) (size : Z) (h : heap) :
  sys_read sys path = Opened size (ReadBytes data) ->
  size <= MAX_REQUEST_SIZE ->
  data <> [] ->
  plentiful h ->
  exists (response : list byte) (h1 : heap),
    handle_file_read sys path h = Done (Some response, h1) /\
    json_get_string response (lit "content") h1 = Done (Some (enc data), tl h1) /\
    base64_decode (enc data) (tl h1) = Done (Some data, tl (tl h1)).
Proof.
  intros Hread Hsize Hne Hh.
  exists (file_read_response data), (tl (tl (tl h))).
  assert (H3 : plentiful (tl (tl (tl h)))) by (do 3 apply plentiful_tl; exact Hh).
  split; [apply (handle_file_read_content sys path data size h); assumption|].
  split.
  - apply (json_get_string_plain_field _ _ _ [colon]
             (lit ",'size':" ++ decimal (len data) ++ lit "}}" ++ [newline]));
      [reflexivity | reflexivity | apply base64_text_is_plain, enc_text | exact H3].
  - apply base64_decode_enc; [apply plentiful_tl; exact H3 | exact Hne].
Qed.

Lemma file_read_content_decodes_to_file_witness :
  exists (response : list byte) (h1 : heap),
    handle_file_read regular_files (lit "/etc/hostname") [] = Done (Some response, h1) /\
    json_get_string response (lit "content") h1
    = Done (Some (enc (lit "abc")), tl h1) /\
    base64_decode (enc (lit "abc")) (tl h1) = Done (Some (lit "abc"), tl (tl h1)).
Proof.
  apply (file_read_content_decodes_to_file regular_files (lit "/etc/hostname")
           (lit "abc") 3 []).
  - reflexivity.
  - unfold MAX_REQUEST_SIZE. lia.
  - discriminate.
  - constructor.
Defined.

(** X16.  A file_write request for an absolute path of plain characters
    and the base64 text of some bytes hands exactly these bytes to the
    write on that path, and answers with the number of bytes written. *)
Theorem file_write_request_stores_bytes (sys : system) (p b : list byte)
        (n : Z) (h : heap) :
  forallb plain p = true ->
  b <> [] ->
  plentiful h ->
  sys_write sys ("/"%byte :: p) b = Written n ->
  dispatch sys (file_write_request ("/"%byte :: p) (enc b)) h
  = Done (Some (lit "{'success':true,'data':{'bytes_written':" ++ decimal n
                ++ lit "}}" ++ [newline]),
          skipn 5 h).
Proof.
  intros Hp Hb Hh Hwrite.
  pose proof (plentiful_tl _ Hh) as H1. pose proof (plentiful_tl _ H1) as H2.
  pose proof (plentiful_tl _ H2) as H3. pose proof (plentiful_tl _ H3) as H4.
  assert (Hpath : forallb plain ("/"%byte :: p) = true)
    by (cbn [forallb]; rewrite Hp; reflexivity).
  pose proof (base64_text_is_plain _ (enc_text b)) as Henc.
  unfold dispatch, bind.
  rewrite (json_get_string_plain_field
             (file_write_request ("/"%byte :: p) (enc b)) (lit "operation") (lit "file_write")
             [colon]
             (lit ",'path':'" ++ ("/"%byte :: p) ++ lit "','content':'"
              ++ enc b ++ lit "'}" ++ [newline]) h
             eq_refl eq_refl eq_refl Hh).
  change (bytes_eqb (lit "file_write") (lit "ping")) with false.
  change (bytes_eqb (lit "file_write") (lit "file_read")) with false.
  change (bytes_eqb (lit "file_write") (lit "file_write")) with true.
  cbv beta iota.
  rewrite (json_get_string_plain_field
             (file_write_request ("/"%byte :: p) (enc b)) (lit "path") ("/"%byte :: p) [colon]
             (lit ",'content':'" ++ enc b ++ lit "'}" ++ [newline]) (tl h)
             eq_refl eq_refl Hpath H1).
  cbv beta iota.
  assert (Hfind : strstr (file_write_request ("/"%byte :: p) (enc b))
                         (search_key (lit "content"))
                  = Some (search_key (lit "content") ++ [colon]
                          ++ dquote :: enc b ++ dquote :: lit "}" ++ [newline])).
  { change (strstr (file_write_request ("/"%byte :: p) (enc b))
                   (search_key (lit "content")))
      with (strstr (p ++ lit "','content':'" ++ enc b ++ lit "'}" ++ [newline])
                   (dquote :: lit "content'")).
    rewrite strstr_skip by exact Hp. reflexivity. }
  rewrite (json_get_string_plain_field
             (file_write_request ("/"%byte :: p) (enc b)) (lit "content") (enc b) [colon]
             (lit "}" ++ [newline]) (tl (tl h)) Hfind eq_refl Henc H2).
  cbv beta iota.
  unfold handle_file_write, bind.
  rewrite base64_decode_enc by assumption.
  rewrite Hwrite. unfold asprintf. rewrite strdup_answer, (plentiful_hd _ H4).
  cbn [or_out_of_memory]. unfold ret. f_equal. f_equal.
  destruct h as [|? [|? [|? [|? [|? ?]]]]]; reflexivity.
Qed.

Lemma file_write_request_stores_bytes_witness :
  dispatch regular_files (file_write_request (lit "/tmp/a b") (enc (lit "hello"))) []
  = Done (Some (lit "{'success':true,'data':{'bytes_written':" ++ decimal 5
                ++ lit "}}" ++ [newline]), []).
Proof.
  apply (file_write_request_stores_bytes regular_files (lit "tmp/a b")
           (lit "hello") 5 []).
  - reflexivity.
  - discriminate.
  - constructor.
  - reflexivity.
Defined.

(** X17.  The handler puts a request line together from however many
    reads deliver it: for a line without NUL that fits the buffer, sent
    with its newline, the answer is that of the dispatch on the whole
    line, and nothing is left unread. *)
Theorem handle_connection_reassembles_line (sys : system) (chunks : list Z)
        (line : list byte) (h : heap) :
  Forall (fun k => 0 < k) chunks ->
  len line + 1 <= total chunks ->
  len line + 1 <= MAX_REQUEST_SIZE - 1 ->
  memchr line newline = false ->
  forallb (fun c => negb (Byte.eqb c NUL)) line = true ->
  hd true h = true ->
  handle_connection sys chunks (line ++ [newline]) h
  = (response <- dispatch sys (line ++ [newline]) ;; ret (response, [])) (tl h).
Proof.
  intros Hpos Hsum Hfit Hnl Hnul Hh.
  unfold handle_connection. unfold bind at 1. rewrite malloc_answer, Hh.
  rewrite (read_request_line chunks line [] Hpos Hsum)
    by (change (len []) with 0; cbn [app]; lia || assumption).
  cbn [app]. rewrite c_str_terminated.
  assert (Hc : c_str (line ++ [newline]) = line ++ [newline]).
  { rewrite <- (app_nil_r (line ++ [newline])) at 1.
    rewrite c_str_app; [cbn [c_str]; apply app_nil_r|].
    rewrite forallb_app, Hnul. reflexivity. }
  rewrite Hc. reflexivity.
Qed.

Lemma handle_connection_reassembles_line_witness :
  handle_connection barren [3; 1; 64] (ping_text ++ [newline]) []
  = (response <- dispatch barren (ping_text ++ [newline]) ;; ret (response, []))
      [].
Proof.
  apply (handle_connection_reassembles_line barren [3; 1; 64] ping_text []).
  - repeat constructor.
  - vm_compute. discriminate.
  - vm_compute. discriminate.
  - reflexivity.
  - reflexivity.
  - reflexivity.
Defined.

Lemma skip_separators_stops (seps rest : list byte) :
  forallb is_separator seps = true ->
  is_separator (deref rest) = false ->
  skip_separators (seps ++ rest) = rest.
Proof.
  intros Hseps Hrest.
  induction seps as [|c seps IH].
  - destruct rest as [|c rest]; [reflexivity|].
    cbn [app skip_separators]. cbn [deref] in Hrest.
    unfold is_separator in Hrest. rewrite Hrest. reflexivity.
  - cbn [forallb] in Hseps. apply andb_true_iff in Hseps.
    destruct Hseps as [Hc Hs]. cbn [app skip_separators].
    unfold is_separator in Hc. rewrite Hc. exact (IH Hs).
Qed.

Lemma atoi_without_number (rest : list byte) :
  numeric_start (deref rest) = false -> atoi rest = 0.
Proof.
  destruct rest as [|c rest]; [reflexivity|]. cbn [deref]. intros H.
  unfold numeric_start in H. repeat (apply orb_false_iff in H; destruct H as [H ?]).
  unfold atoi. cbn [skip_spaces].
  match goal with Hs : isspace c = false |- _ => rewrite Hs end.
  cbv zeta iota.
  match goal with Hm : Byte.eqb c "-" = false |- _ => rewrite Hm end.
  match goal with Hp : Byte.eqb c "+" = false |- _ => rewrite Hp end.
  cbn [digits_value].
  match goal with Hd : isdigit c = false |- _ => rewrite Hd end.
  reflexivity.
Qed.

(** X18.  A key whose value is not a number reads as 0, not as missing:
    when the first occurrence of the quoted key is followed by
    separators and then by anything that does not start a number (a
    quote, a comma, a bracket, the end), [json_get_int] stores 0. *)
Theorem json_get_int_without_number_is_zero (json key seps rest : list byte) :
  strstr json (search_key key) = Some (search_key key ++ seps ++ rest) ->
  forallb is_separator seps = true ->
  numeric_start (deref rest) = false ->
  json_get_int json key = Some 0.
Proof.
  intros Hfind Hseps Hrest. unfold json_get_int. rewrite Hfind. cbv zeta.
  rewrite skipn_length_app. f_equal.
  rewrite skip_separators_stops; [apply atoi_without_number, Hrest | exact Hseps |].
  unfold numeric_start in Hrest.
  destruct (is_separator (deref rest)); [discriminate Hrest | reflexivity].
Qed.

Lemma json_get_int_without_number_is_zero_witness :
  json_get_int
    (lit "{'operation':'exec','cmd':['timeout','5','ls'],'timeout':60000}")
    (lit "timeout") = Some 0.
Proof.
  apply (json_get_int_without_number_is_zero _ _ []
           (lit ",'5','ls'],'timeout':60000}")); reflexivity.
Defined.

(** ** Shutdown: the calls in full *)

Module ShutdownFacts.
Import Lifecycle ShutdownSequence.

Lemma on_course_enter (fd0 : Z) (sd rb : bool) (n : nat) :
  on_course fd0 n rb (enter fd0 sd rb n).
Proof. constructor; reflexivity. Qed.

Lemma repeat_snoc (e : event) (k : nat) : repeat e (S k) = repeat e k ++ [e].
Proof. induction k as [|k IH]; [reflexivity|]. cbn [repeat app] in *. f_equal. exact IH. Qed.

Lemma umount_next (t : string) (ts : list string) (k : nat) :
  t :: ts = skipn k mount_points ->
  firstn (length mount_points - length ts) mount_points
  = firstn (length mount_points - length (t :: ts)) mount_points ++ [t] /\
  ts = skipn (S k) mount_points.
Proof.
  unfold mount_points.
  do 7 (destruct k as [|k];
        [cbn [skipn]; intros H;
         first [discriminate H | injection H as -> ->; split; reflexivity]|]).
  cbn [skipn]. intros H. discriminate H.
Qed.

Ltac course on_trace on_children :=
  constructor;
  [ unfold issued; cbn [at_point trace children move]; on_trace
  | cbn [do_reboot move]; assumption
  | cbn [at_point move]; intros Hd; discriminate Hd
  | cbn [at_point children move]; on_children ].

Lemma on_course_step (fd0 : Z) (n : nat) (rb : bool) (s s' : state) :
  on_course fd0 n rb s -> step s s' -> on_course fd0 n rb s'.
Proof.
  intros [Htrace Harg Hfd Hch] Hstep.
  inversion Hstep as [? ? ? ? ? Hat | ? Hat | ? Hat Hpos | ? Hat Hneg | ? Hat
                      | ? Hat | ? Hat | ? k Hat Hk | ? Hat Hk | ? Hat
                      | ? t ts Hat | ? Hat | ? Hat | ? Hat | ? Hat
                      | ? ? ? Hrunning | ? ? Htested Hrunning];
    subst s'; unfold issued in Htrace; try rewrite Hat in Htrace, Hch;
    try contradiction.
  - (* the listener is closed *)
    specialize (Hfd Hat).
    course ltac:(rewrite Htrace, Hfd; unfold closing;
                 rewrite (proj2 (Z.leb_le 0 fd0)) by lia; reflexivity)
           ltac:(assumption).
  - (* there is no listener *)
    specialize (Hfd Hat).
    course ltac:(rewrite Htrace, app_nil_r; unfold closing;
                 rewrite (proj2 (Z.leb_gt 0 fd0)) by lia; reflexivity)
           ltac:(assumption).
  - course ltac:(rewrite Htrace; reflexivity) ltac:(assumption).
  - course ltac:(rewrite Htrace, <- app_assoc; reflexivity) ltac:(assumption).
  - course ltac:(rewrite Htrace, Hch, Nat.sub_diag, <- app_assoc; cbn [repeat];
                 rewrite app_nil_r; reflexivity)
           ltac:(lia).
  - (* one child is collected *)
    course ltac:(rewrite Htrace, Hk; replace (n - k)%nat with (S (n - S k)) by lia;
                 rewrite repeat_snoc, <- !app_assoc; reflexivity)
           ltac:(lia).
  - (* no child is left *)
    course ltac:(rewrite Htrace, Hk, Nat.sub_0_r; unfold reaping;
                 rewrite <- !app_assoc; reflexivity)
           ltac:(exact I).
  - course ltac:(rewrite Htrace, Nat.sub_diag, <- !app_assoc; reflexivity)
           ltac:(exists 0%nat; reflexivity).
  - (* one file system is unmounted *)
    destruct Hch as [k Hk]. destruct (umount_next t ts k Hk) as [Hfirst Hnext].
    course ltac:(rewrite Htrace, Hfirst, map_app, <- !app_assoc; reflexivity)
           ltac:(exists (S k); exact Hnext).
  - course ltac:(rewrite Htrace, <- !app_assoc; reflexivity) ltac:(exact I).
  - (* reboot does not return *)
    course ltac:(rewrite Htrace, Harg, <- !app_assoc;
                 destruct rb; cbn [reboot_ending leaving]; rewrite ?app_nil_r;
                 reflexivity)
           ltac:(left; rewrite Harg; reflexivity).
  - course ltac:(rewrite Htrace, Harg, <- !app_assoc; reflexivity) ltac:(exact I).
  - course ltac:(rewrite Htrace, <- !app_assoc; reflexivity)
           ltac:(right; reflexivity).
  - (* a signal sets a flag *)
    constructor; [exact Htrace | exact Harg | exact Hfd | exact Hch].
  - (* the listener thread stores its descriptor *)
    constructor; [exact Htrace | exact Harg | | exact Hch].
    cbn [at_point vsock_fd]. intros Hat. contradiction.
Qed.

Lemma on_course_run (fd0 : Z) (sd rb : bool) (n : nat) (s : state) :
  run (enter fd0 sd rb n) s -> on_course fd0 n rb s.
Proof.
  induction 1 as [|s1 s2 _ IH Hstep].
  - apply on_course_enter.
  - eapply on_course_step; eassumption.
Qed.

(** X19.  A shutdown that has come to its end has issued exactly one
    sequence of calls: the listener closed if there was one, SIGTERM to
    all, two seconds of sleep, SIGKILL to all, one successful [waitpid]
    for each child and the one that finds none, [sync], the six lazy
    unmounts from /tmp down to /proc, [sync] again, [reboot] with the
    command chosen by the argument, and [_exit(0)] only if [reboot]
    returned. *)
Theorem shutdown_issues_exact_sequence
        (fd0 : Z) (sd rb : bool) (n : nat) (s : state) (e : ending) :
  run (enter fd0 sd rb n) s ->
  at_point s = Halted e ->
  trace s
  = (if 0 <=? fd0 then [Close fd0] else [])
    ++ [Kill (-1) SIGTERM; Sleep 2; Kill (-1) SIGKILL]
    ++ repeat (Waitpid true) n ++ [Waitpid false; Sync]
    ++ map Umount2 ["/tmp"; "/run"; "/dev/pts"; "/dev"; "/sys"; "/proc"]%string
    ++ [Sync; Reboot (if rb then RB_AUTOBOOT else RB_POWER_OFF)]
    ++ match e with Exited _ => [Exit 0] | _ => [] end.
Proof.
  intros Hrun Hat.
  destruct (on_course_run fd0 sd rb n s Hrun) as [Htrace _ _ _].
  unfold issued in Htrace. rewrite Hat in Htrace. rewrite Htrace.
  unfold closing, signalling, reaping, unmounting, leaving, reboot_call,
    mount_points.
  rewrite <- !app_assoc. reflexivity.
Qed.

Ltac take_step rule :=
  eapply LifecycleFacts.run_first; [eapply rule; first [reflexivity | cbn; lia]|].

Lemma run_powered_off : run (enter 5 true false 1) powered_off.
Proof.
  take_step step_close. take_step step_term. take_step step_grace.
  take_step step_kill. take_step step_reap. take_step step_reaped.
  take_step step_sync. do 6 take_step step_umount.
  take_step step_second_sync. take_step step_reboot.
  apply run_here.
Qed.

Lemma shutdown_issues_exact_sequence_witness :
  trace powered_off
  = [Close 5; Kill (-1) SIGTERM; Sleep 2; Kill (-1) SIGKILL;
     Waitpid true; Waitpid false; Sync;
     Umount2 "/tmp"; Umount2 "/run"; Umount2 "/dev/pts";
     Umount2 "/dev"; Umount2 "/sys"; Umount2 "/proc";
     Sync; Reboot RB_POWER_OFF].
Proof.
  exact (shutdown_issues_exact_sequence 5 true false 1 powered_off PoweredOff
           run_powered_off eq_refl).
Defined.

(** *** The listener and the first signal *)

Lemma first_occurrence (x : event) (pre post pre' post' : list event) :
  ~ In x pre -> ~ In x post ->
  pre ++ x :: post = pre' ++ x :: post' -> pre' = pre.
Proof.
  revert pre'. induction pre as [|a pre IH]; intros pre' Hpre Hpost Heq.
  - destruct pre' as [|b pre']; [reflexivity|].
    cbn in Heq. injection Heq as _ Heq. exfalso. apply Hpost.
    rewrite Heq. apply in_or_app. right. left. reflexivity.
  - destruct pre' as [|b pre'].
    + cbn in Heq. injection Heq as Ha _. exfalso. apply Hpre. left. exact Ha.
    + cbn in Heq. injection Heq as -> Heq. f_equal.
      apply IH; [|exact Hpost | exact Heq].
      intros Hin. apply Hpre. right. exact Hin.
Qed.

Ltac split_in H :=
  repeat first
    [ apply in_app_or in H; destruct H as [H | H]
    | apply repeat_spec in H
    | apply in_map_iff in H; destruct H as (? & H & _)
    | destruct H as [H | H] ].

(** The calls issued up to a point: nothing, the close alone, or the
    close, the broadcast SIGTERM and calls that are neither. *)
Lemma issued_shape (fd0 : Z) (n : nat) (rb : bool) (s : state) :
  (issued fd0 n rb s = [] /\
   (at_point s = MainLoop \/ at_point s = CloseListener)) \/
  (issued fd0 n rb s = closing fd0 /\ at_point s = SendTerm) \/
  (exists rest,
     issued fd0 n rb s = closing fd0 ++ broadcast_term :: rest /\
     forall e, In e rest -> e <> broadcast_term /\ forall fd, e <> Close fd).
Proof.
  unfold issued, signalling, reaping, unmounting, leaving, broadcast_term.
  destruct (at_point s) as [| | | | | | | ts | | | e];
    [left; auto | left; auto | right; left; auto | ..];
    right; right; eexists; (split; [cbn [app]; reflexivity|]);
    intros x Hin; try destruct e; split_in Hin;
    try contradiction; subst x;
    (split; [discriminate | intros fd; discriminate]).
Qed.

Lemma closing_holds (fd0 : Z) (e : event) :
  In e (closing fd0) -> e = Close fd0 /\ 0 <= fd0.
Proof.
  unfold closing. destruct (Z.leb_spec 0 fd0) as [Hfd | Hfd].
  - intros [<- | []]. auto.
  - intros [].
Qed.

Lemma closing_known (fd0 : Z) : 0 <= fd0 -> closing fd0 = [Close fd0].
Proof.
  intros Hfd. unfold closing. rewrite (proj2 (Z.leb_le 0 fd0) Hfd). reflexivity.
Qed.

Lemma run_listener_left_open :
  run (enter (-1) true false 0) listener_left_open.
Proof.
  take_step step_no_listener.
  eapply LifecycleFacts.run_first;
    [apply (step_listener _ 5); [discriminate | intros e; discriminate]|].
  take_step step_term. take_step step_grace. take_step step_kill.
  take_step step_reaped. take_step step_sync. do 6 take_step step_umount.
  take_step step_second_sync. take_step step_reboot.
  apply run_here.
Qed.

(** The claim C8 fails on the code.  A SIGTERM arrives before the
    listener thread has opened its socket: the main thread leaves its
    loop and [do_shutdown] finds [vsock_fd] negative, so it closes
    nothing.  The listener thread then opens its socket, descriptor 5.
    The broadcast SIGTERM is sent and the machine powered off with the
    listener socket open: no [close] was ever issued. *)
Lemma listener_opened_late_is_left_open :
  run booted (enter (-1) true false 0) /\
  run (enter (-1) true false 0) listener_left_open /\
  In (Kill (-1) SIGTERM) (trace listener_left_open) /\
  vsock_fd listener_left_open = 5 /\
  forall fd, ~ In (Close fd) (trace listener_left_open).
Proof.
  split; [|split; [exact run_listener_left_open | split; [|split]]].
  - eapply LifecycleFacts.run_first;
      [apply (step_signal booted true false); intros e; discriminate|].
    eapply LifecycleFacts.run_first;
      [apply step_enter; reflexivity|].
    apply run_here.
  - left. reflexivity.
  - reflexivity.
  - intros fd Hin.
    repeat (destruct Hin as [Hin | Hin]; [discriminate Hin|]). exact Hin.
Qed.

(** C8 (amended).  In every execution of the shutdown sequence, entered
    with any value of [vsock_fd], any argument and any number of
    children, whatever signals arrive and whatever the listener thread
    stores meanwhile, the test of [vsock_fd] and the close that follows
    it being one step.  When [vsock_fd] holds a descriptor at the test
    of [do_shutdown], the close of that descriptor is the first call
    issued; no other descriptor is ever closed, so when [vsock_fd] is
    negative at the test nothing is closed, and a socket stored later
    stays open.  What precedes a broadcast SIGTERM in the calls issued
    is exactly that close, or nothing; the SIGTERM is sent as soon as
    the point after the close is passed.  Control is never at the main
    loop again: every step of the main thread brings the end nearer, a
    step of a signal handler or of the listener thread leaves the main
    thread where it is.  At the end [reboot] has been called with the
    command the argument chooses, the machine reboots or powers off
    accordingly, and [_exit(0)] is called exactly when [reboot]
    returned.  The end can be reached from every state. *)
Theorem shutdown_closes_known_listener_first_and_never_returns
        (fd0 : Z) (sd rb : bool) (n : nat) (s : state) :
  run (enter fd0 sd rb n) s ->
  (0 <= fd0 -> at_point s <> CloseListener ->
   exists rest, trace s = Close fd0 :: rest) /\
  (forall fd, In (Close fd) (trace s) -> fd = fd0 /\ 0 <= fd0) /\
  (forall pre post,
     trace s = pre ++ Kill (-1) SIGTERM :: post ->
     pre = if 0 <=? fd0 then [Close fd0] else []) /\
  (at_point s <> CloseListener -> at_point s <> SendTerm ->
   In (Kill (-1) SIGTERM) (trace s)) /\
  at_point s <> MainLoop /\
  (forall s', step s s' ->
              at_point s' <> MainLoop /\
              ((distance s' < distance s)%nat \/ stays s s')) /\
  (forall e, at_point s = Halted e ->
             (e = reboot_ending rb \/ e = Exited 0) /\
             In (Reboot (reboot_call rb)) (trace s) /\
             (In (Exit 0) (trace s) <-> e = Exited 0)) /\
  (exists s_end e,
     run s s_end /\ at_point s_end = Halted e /\
     (e = reboot_ending rb \/ e = Exited 0)).
Proof.
  intros Hrun.
  destruct (on_course_run fd0 sd rb n s Hrun) as [Htrace Harg Hfd Hch].
  assert (Hloop : at_point s <> MainLoop).
  { intros Hat. rewrite Hat in Hch. exact Hch. }
  pose proof (issued_shape fd0 n rb s) as Hshape. rewrite <- Htrace in Hshape.
  split; [|split; [|split; [|split; [|split; [|split; [|split]]]]]].
  - (* the close comes first *)
    intros Hknown Hat.
    destruct Hshape as [(_ & [Hp | Hp]) | [(Htr & _) | (rest & Htr & _)]];
      try contradiction; rewrite Htr, (closing_known fd0 Hknown).
    + exists []. reflexivity.
    + eexists. reflexivity.
  - (* nothing else is closed *)
    intros fd Hin.
    destruct Hshape as [(Htr & _) | [(Htr & _) | (rest & Htr & Hrest)]];
      rewrite Htr in Hin.
    + destruct Hin.
    + destruct (closing_holds fd0 _ Hin) as [E Hknown].
      injection E as ->. auto.
    + apply in_app_or in Hin. destruct Hin as [Hin | [Hin | Hin]].
      * destruct (closing_holds fd0 _ Hin) as [E Hknown].
        injection E as ->. auto.
      * discriminate Hin.
      * exfalso. exact (proj2 (Hrest _ Hin) fd eq_refl).
  - (* what precedes the broadcast *)
    intros pre post Heq.
    assert (Hnone : forall l, (forall e, In e l -> e <> broadcast_term) ->
                              l <> pre ++ broadcast_term :: post).
    { intros l Hl E. apply (Hl broadcast_term); [|reflexivity].
      rewrite E. apply in_or_app. right. left. reflexivity. }
    destruct Hshape as [(Htr & _) | [(Htr & _) | (rest & Htr & Hrest)]].
    + exfalso. apply (Hnone (trace s)); [|exact Heq].
      rewrite Htr. intros e [].
    + exfalso. apply (Hnone (trace s)); [|exact Heq].
      rewrite Htr. intros e Hin E.
      destruct (closing_holds fd0 _ Hin) as [E' _]. rewrite E in E'.
      discriminate E'.
    + rewrite Htr in Heq.
      apply (first_occurrence broadcast_term (closing fd0) rest pre post);
        [| |exact Heq].
      * intros Hin. destruct (closing_holds fd0 _ Hin) as [E' _].
        discriminate E'.
      * intros Hin. exact (proj1 (Hrest _ Hin) eq_refl).
  - (* the broadcast is sent *)
    intros Hat Hat'.
    destruct Hshape as [(_ & [Hp | Hp]) | [(_ & Hp) | (rest & Htr & _)]];
      try contradiction.
    rewrite Htr. apply in_or_app. right. left. reflexivity.
  - exact Hloop.
  - intros s' Hstep. apply LifecycleFacts.step_towards_end; assumption.
  - (* the end *)
    intros e Hat. rewrite Hat in Hch. split; [exact Hch|].
    unfold issued in Htrace. rewrite Hat in Htrace. rewrite Htrace.
    split.
    + do 4 (apply in_or_app; right). apply in_or_app. left. left. reflexivity.
    + unfold signalling, reaping, unmounting, leaving. split.
      * intros Hin. destruct Hch as [-> | ->]; [|reflexivity].
        exfalso. destruct rb; cbn [reboot_ending] in Hin; split_in Hin;
          try contradiction;
          first [discriminate Hin
                | destruct (closing_holds fd0 _ Hin) as [E _]; discriminate E].
      * intros ->. do 5 (apply in_or_app; right). left. reflexivity.
  - (* the end is reached *)
    destruct (LifecycleFacts.run_to_end (distance s) s (Nat.le_refl _) Hloop)
      as (s_end & e & Hrun' & Hat).
    exists s_end, e. split; [exact Hrun' | split; [exact Hat|]].
    assert (Hend : on_course fd0 n rb s_end).
    { clear Hat. induction Hrun' as [|s1 s2 _ IH Hstep].
      - constructor; assumption.
      - eapply on_course_step; eassumption. }
    destruct Hend as [_ _ _ Hend]. rewrite Hat in Hend. exact Hend.
Qed.

Lemma shutdown_closes_known_listener_first_and_never_returns_witness :
  (exists rest, trace powered_off = Close 5 :: rest) /\
  at_point powered_off <> MainLoop /\
  In (Reboot RB_POWER_OFF) (trace powered_off) /\
  (In (Exit 0) (trace powered_off) <-> PoweredOff = Exited 0).
Proof.
  destruct (shutdown_closes_known_listener_first_and_never_returns
              5 true false 1 powered_off run_powered_off)
    as (Hclose & _ & _ & _ & Hloop & _ & Hend & _).
  split; [apply Hclose; [lia | discriminate]|].
  split; [exact Hloop|].
  exact (proj2 (Hend PoweredOff eq_refl)).
Defined.

End ShutdownFacts.

(** ** Start-up and the listener *)

Module BootFacts.
Import Boot.

Lemma mounts_app (a b : list event) : mounts (a ++ b) = mounts a ++ mounts b.
Proof. apply flat_map_app. Qed.

Lemma nodes_app (a b : list event) : nodes (a ++ b) = nodes a ++ nodes b.
Proof. apply flat_map_app. Qed.

Lemma mounted_app (a b : list event) : mounted (a ++ b) = mounted a ++ mounted b.
Proof. unfold mounted. rewrite mounts_app, filter_app, map_app. reflexivity. Qed.

Lemma settled_app (a b : list event) : settled (a ++ b) = settled a ++ settled b.
Proof. unfold settled. rewrite mounts_app, filter_app, map_app. reflexivity. Qed.

(** What one call of [mount_fs] adds to the calls made: no device node,
    and at most one mount, on its target, whose answer decides the
    result. *)
Lemma mount_fs_adds (k : kernel) (source target fstype : string) (flags : Z)
      (data : option string) (tr : list event) :
  exists (r : Z) (ev : list event),
    mount_fs k source target fstype flags data tr = (r, tr ++ ev) /\
    nodes ev = [] /\
    ((mounts ev = [] /\ r = -1) \/
     exists a, mounts ev = [(target, a)] /\ r = if settles a then 0 else -1).
Proof.
  unfold mount_fs, then_sys, syscall, unit_sys, settles.
  set (st := k tr (Stat target)).
  destruct (ret st =? 0); cbn [negb].
  - set (tr1 := tr ++ [(Stat target, st)]).
    set (m := k tr1 (Mount source target fstype flags data)).
    exists (if negb (ret m =? 0)
            then if negb (errno m =? EBUSY) then -1 else 0 else 0),
           [(Stat target, st); (Mount source target fstype flags data, m)].
    split; [|split; [reflexivity|]].
    + subst tr1. rewrite <- app_assoc.
      destruct (ret m =? 0); [reflexivity|]. destruct (errno m =? EBUSY); reflexivity.
    + right. exists m. split; [reflexivity|].
      destruct (ret m =? 0); [reflexivity|]. destruct (errno m =? EBUSY); reflexivity.
  - set (tr1 := tr ++ [(Stat target, st)]).
    set (mk := k tr1 (Mkdir target 493)).
    destruct (negb (ret mk =? 0) && negb (errno mk =? EEXIST)); cbn [negb].
    + exists (-1), [(Stat target, st); (Mkdir target 493, mk)].
      split; [subst tr1; rewrite <- app_assoc; reflexivity|].
      split; [reflexivity|]. left. split; reflexivity.
    + set (tr2 := tr1 ++ [(Mkdir target 493, mk)]).
      set (m := k tr2 (Mount source target fstype flags data)).
      exists (if negb (ret m =? 0)
              then if negb (errno m =? EBUSY) then -1 else 0 else 0),
             [(Stat target, st); (Mkdir target 493, mk);
              (Mount source target fstype flags data, m)].
      split; [|split; [reflexivity|]].
      * subst tr2 tr1. rewrite <- !app_assoc.
        destruct (ret m =? 0); [reflexivity|].
        destruct (errno m =? EBUSY); reflexivity.
      * right. exists m. split; [reflexivity|].
        destruct (ret m =? 0); [reflexivity|]. destruct (errno m =? EBUSY); reflexivity.
Qed.

(** The same, for the mounts that succeeded and for those reported. *)
Lemma mount_fs_mounted (k : kernel) (source target fstype : string) (flags : Z)
      (data : option string) (tr : list event) :
  exists (r : Z) (ev : list event),
    mount_fs k source target fstype flags data tr = (r, tr ++ ev) /\
    (r = 0 \/ r = -1) /\
    (mounted ev = [] \/ (mounted ev = [target] /\ r = 0)).
Proof.
  destruct (mount_fs_adds k source target fstype flags data tr)
    as (r & ev & Hrun & _ & [[Hm Hr] | (a & Hm & Hr)]);
    exists r, ev; (split; [exact Hrun|]); unfold mounted; rewrite Hm;
    cbn [filter map snd fst].
  - split; [right; exact Hr | left; reflexivity].
  - unfold settles in Hr.
    destruct (ret a =? 0); cbn [orb map fst] in *.
    + split; [left; exact Hr | right; split; [reflexivity | exact Hr]].
    + split; [destruct (errno a =? EBUSY); auto | left; reflexivity].
Qed.

Lemma mount_fs_settled (k : kernel) (source target fstype : string) (flags : Z)
      (data : option string) (tr : list event) :
  exists (r : Z) (ev : list event),
    mount_fs k source target fstype flags data tr = (r, tr ++ ev) /\
    (r = 0 \/ r = -1) /\
    nodes ev = [] /\
    ((settled ev = [target] /\ r = 0) \/ (settled ev = [] /\ r = -1)).
Proof.
  destruct (mount_fs_adds k source target fstype flags data tr)
    as (r & ev & Hrun & Hn & [[Hm Hr] | (a & Hm & Hr)]);
    exists r, ev; (split; [exact Hrun|]);
    (split; [| split; [exact Hn|]]);
    unfold settled; rewrite ?Hm; cbn [filter map snd fst].
  - right. exact Hr.
  - right. split; [reflexivity | exact Hr].
  - destruct (settles a); auto.
  - destruct (settles a); cbn [map fst]; auto.
Qed.

Lemma make_devices_adds (k : kernel) (ds : list (string * Z * Z * Z)) :
  forall tr, exists ev,
    make_devices k ds tr = (tt, tr ++ ev) /\ mounts ev = [].
Proof.
  induction ds as [|[[[path mode] major] minor] ds IH]; intros tr.
  - exists []. rewrite app_nil_r. split; reflexivity.
  - cbn [make_devices]. unfold then_sys, syscall, unit_sys.
    set (st := k tr (Stat path)).
    destruct (ret st =? 0); cbn [negb].
    + destruct (IH (tr ++ [(Stat path, st)])) as (ev & Hrun & Hm).
      exists ((Stat path, st) :: ev). rewrite Hrun, <- app_assoc.
      split; [reflexivity | exact Hm].
    + set (tr1 := tr ++ [(Stat path, st)]).
      set (mk := k tr1 (Mknod path mode major minor)).
      destruct (IH (tr1 ++ [(Mknod path mode major minor, mk)]))
        as (ev & Hrun & Hm).
      exists ((Stat path, st) :: (Mknod path mode major minor, mk) :: ev).
      rewrite Hrun. subst tr1. rewrite <- !app_assoc.
      split; [reflexivity | exact Hm].
Qed.

Lemma mounts_none_mounted (ev : list event) : mounts ev = [] -> mounted ev = [].
Proof. unfold mounted. intros ->. reflexivity. Qed.

Lemma mounts_none_settled (ev : list event) : mounts ev = [] -> settled ev = [].
Proof. unfold settled. intros ->. reflexivity. Qed.

Lemma mount_fs_targets (k : kernel) (source target fstype : string) (flags : Z)
      (data : option string) (tr : list event) :
  exists (r : Z) (ev : list event),
    mount_fs k source target fstype flags data tr = (r, tr ++ ev) /\
    (r = 0 \/ r = -1) /\
    (map fst (mounts ev) = [] \/ map fst (mounts ev) = [target]).
Proof.
  destruct (mount_fs_adds k source target fstype flags data tr)
    as (r & ev & Hrun & _ & [[Hm Hr] | (a & Hm & Hr)]);
    exists r, ev; (split; [exact Hrun|]); rewrite Hm; cbn [map fst].
  - auto.
  - destruct (settles a); auto.
Qed.

Lemma syscall_adds (k : kernel) (c : call) (tr : list event) :
  exists a, syscall k c tr = (a, tr ++ [(c, a)]).
Proof. exists (k tr c). reflexivity. Qed.

Ltac settle_result :=
  cbv beta iota;
  repeat (progress (change (negb (0 =? 0)) with false;
                    change (negb (-1 =? 0)) with true;
                    cbv beta iota)).

(** One step of the run of [setup_filesystems]: the next call is
    replaced by what it adds to the calls made; the run splits on the
    result of [mount_fs] where the result is looked at. *)
Ltac mount_next spec k :=
  match goal with
  | |- context [mount_fs k ?s ?t ?f ?fl ?d ?tr] =>
      let r := fresh "r" in
      let ev := fresh "ev" in
      let Hrun := fresh "Hrun" in
      let Hr := fresh "Hr" in
      let H := fresh "Hadd" in
      destruct (spec k s t f fl d tr) as (r & ev & Hrun & Hr & H);
      rewrite Hrun; clear Hrun; cbv beta iota;
      tryif (match goal with |- context [r] => idtac end)
      then (destruct Hr as [Hr | Hr]; subst r; settle_result)
      else clear Hr
  end.

Ltac syscall_next k :=
  match goal with
  | |- context [syscall k ?c ?tr] =>
      let a := fresh "a" in
      let Hrun := fresh "Hrun" in
      destruct (syscall_adds k c tr) as (a & Hrun);
      rewrite Hrun; clear Hrun; cbv beta iota
  end.

Ltac devices_next k :=
  match goal with
  | |- context [make_devices k ?ds ?tr] =>
      let ev := fresh "ev" in
      let Hrun := fresh "Hrun" in
      let H := fresh "Hdev" in
      destruct (make_devices_adds k ds tr) as (ev & Hrun & H);
      rewrite Hrun; clear Hrun; cbv beta iota
  end.

Ltac run_setup spec k :=
  unfold setup_filesystems, then_sys, unit_sys;
  repeat first [mount_next spec k | syscall_next k | devices_next k].

Ltac use_all f :=
  repeat match goal with
         | H : f _ = _ |- _ => rewrite H; clear H
         end.

(** The cases left open by the run. *)
Ltac open_cases :=
  repeat match goal with
         | H : _ \/ _ |- _ => destruct H as [H | H]
         | H : _ /\ _ |- _ =>
             let H' := fresh H in destruct H as [H H']
         end;
  try match goal with
      | H : -1 = 0 |- _ => discriminate H
      | H : 0 = -1 |- _ => discriminate H
      end.

(** X20.  Whatever the kernel answers, the file systems that
    [setup_filesystems] mounts are among those [do_shutdown] unmounts,
    and they are unmounted in the reverse order of their mounting: the
    targets of the successful mounts, in order, are the list of
    [do_shutdown] read backwards and restricted to them.  No mount is
    even tried on another target. *)
Theorem mounts_are_undone_in_reverse_order (k : kernel) :
  let tr := snd (setup_filesystems k []) in
  mounted tr = filter (among (mounted tr)) (rev Lifecycle.mount_points) /\
  forallb (among Lifecycle.mount_points) (map fst (mounts tr)) = true.
Proof.
  cbv zeta. split.
  - run_setup mount_fs_mounted k;
      try match goal with
          | H : mounts _ = [] |- _ => apply mounts_none_mounted in H
          end;
      cbn [snd]; rewrite ?mounted_app; open_cases; use_all mounted;
      reflexivity.
  - run_setup mount_fs_targets k;
      cbn [snd]; rewrite ?mounts_app, ?map_app; open_cases;
      repeat match goal with
             | H : map fst (mounts _) = _ |- _ => rewrite H; clear H
             | H : mounts _ = _ |- _ => rewrite H; clear H
             end;
      reflexivity.
Qed.

(** X21.  [setup_filesystems] reports success exactly when /proc, /sys
    and /dev are each mounted or found busy, in this order; what happens
    to /dev/pts, /run and /tmp does not count.  On success the four
    links are asked for last; on failure it returns at once, before any
    device node or link is asked for. *)
Theorem setup_filesystems_needs_proc_sys_dev (k : kernel) :
  let r := fst (setup_filesystems k []) in
  let tr := snd (setup_filesystems k []) in
  (r = 0 /\
   firstn 3 (settled tr) = ["/proc"; "/sys"; "/dev"]%string /\
   exists made,
     nodes tr
     = made ++ ["/dev/fd"; "/dev/stdin"; "/dev/stdout"; "/dev/stderr"]%string)
  \/
  (r = -1 /\ nodes tr = [] /\
   (settled tr = [] \/ settled tr = ["/proc"]%string
    \/ settled tr = ["/proc"; "/sys"]%string)).
Proof.
  cbv zeta. run_setup mount_fs_settled k; cbn [fst snd]; open_cases;
    first
      [ (* a failure *)
        right; split; [reflexivity|];
        rewrite ?nodes_app, ?settled_app; use_all nodes; use_all settled;
        split; [reflexivity|]; cbn [app]; auto
      | (* success *)
        left; split; [reflexivity|]; split;
        [ match goal with
          | H : mounts _ = [] |- _ => apply mounts_none_settled in H
          end;
          rewrite ?settled_app; use_all settled; reflexivity
        | match goal with
          | H : mounts ?e = [] |- _ => exists (nodes e)
          end;
          rewrite ?nodes_app; use_all nodes; cbn [nodes flat_map app];
          rewrite <- ?app_assoc; reflexivity ] ].
Qed.

Lemma lor_keeps (f a b : Z) :
  Z.land (Z.lor f (Z.lor a b)) f = f /\
  Z.land (Z.lor f (Z.lor a b)) a = a /\
  Z.land (Z.lor f (Z.lor a b)) b = b.
Proof.
  repeat split; apply Z.bits_inj'; intros n _;
    rewrite Z.land_spec, !Z.lor_spec;
    destruct (Z.testbit f n), (Z.testbit a n), (Z.testbit b n); reflexivity.
Qed.

(** X22.  [setup_loopback] leaves no descriptor behind: on every path
    the socket it opened is closed, once, and nothing else is.  The
    flags it sets are the flags it read with [IFF_UP] and [IFF_RUNNING]
    added, none removed.  [setup_networking] makes the same calls and
    reports success whatever they answer. *)
Theorem loopback_socket_is_closed (k : kernel) (tr0 : list event) :
  exists ev,
    snd (setup_loopback k tr0) = tr0 ++ ev /\
    closed ev = opened ev /\
    (forall fd name v a,
       In (SetFlags fd name v, a) ev ->
       exists g,
         In (GetFlags fd name, g) ev /\ 0 <= ret g /\
         Z.land v (ifr_flags g) = ifr_flags g /\
         Z.land v IFF_UP = IFF_UP /\ Z.land v IFF_RUNNING = IFF_RUNNING) /\
    (fst (setup_loopback k tr0) = 0 \/ fst (setup_loopback k tr0) = -1) /\
    fst (setup_networking k tr0) = 0 /\
    snd (setup_networking k tr0) = snd (setup_loopback k tr0).
Proof.
  assert (Hnet : fst (setup_networking k tr0) = 0 /\
                 snd (setup_networking k tr0) = snd (setup_loopback k tr0)).
  { unfold setup_networking, then_sys, unit_sys.
    destruct (setup_loopback k tr0). split; reflexivity. }
  destruct Hnet as [Hnet1 Hnet2].
  remember (setup_loopback k tr0) as res eqn:E. symmetry in E. revert E.
  unfold setup_loopback, then_sys, unit_sys.
  syscall_next k. cbv zeta.
  destruct (ret a <? 0) eqn:Es.
  - intros <-. exists [(Socket AF_INET SOCK_DGRAM 0, a)]. cbn [fst snd].
    split; [reflexivity|]. split.
    { unfold closed, opened. cbn [flat_map app]. rewrite Es. reflexivity. }
    split; [|auto].
    intros fd name v a' [H|[]]. discriminate H.
  - syscall_next k.
    destruct (ret a0 <? 0) eqn:Eg.
    + syscall_next k. intros <-.
      exists [(Socket AF_INET SOCK_DGRAM 0, a); (GetFlags (ret a) "lo", a0);
              (Close (ret a), a1)].
      cbn [fst snd]. split; [rewrite <- !app_assoc; reflexivity|]. split.
      { unfold closed, opened. cbn [flat_map app]. rewrite Es. reflexivity. }
      split; [|auto].
      intros fd name v a' [H|[H|[H|[]]]]; discriminate H.
    + syscall_next k.
      assert (Hflags : forall ev,
                 ev = [(Socket AF_INET SOCK_DGRAM 0, a);
                       (GetFlags (ret a) "lo", a0);
                       (SetFlags (ret a) "lo"
                                 (Z.lor (ifr_flags a0) (Z.lor IFF_UP IFF_RUNNING)),
                        a1)] ->
                 forall c, forall fd name v' a',
                   In (SetFlags fd name v', a') (ev ++ [(Close (ret a), c)]) ->
                   exists g',
                     In (GetFlags fd name, g') (ev ++ [(Close (ret a), c)]) /\
                     0 <= ret g' /\
                     Z.land v' (ifr_flags g') = ifr_flags g' /\
                     Z.land v' IFF_UP = IFF_UP /\
                     Z.land v' IFF_RUNNING = IFF_RUNNING).
      { intros ev -> c fd name v' a' [H|[H|[H|[H|[]]]]]; try discriminate H.
        injection H as <- <- <- _. exists a0.
        split; [right; left; reflexivity|].
        split; [apply Z.ltb_ge; exact Eg|].
        exact (lor_keeps (ifr_flags a0) IFF_UP IFF_RUNNING). }
      destruct (ret a1 <? 0); syscall_next k; intros <-;
        (eexists; cbn [fst snd];
         split; [rewrite <- !app_assoc; cbn [app]; reflexivity|]);
        (split; [unfold closed, opened; cbn [flat_map app]; rewrite Es;
                 reflexivity|]);
        (split; [exact (Hflags _ eq_refl _) | auto]).
Qed.

Lemma accepted_app (a b : list event) : accepted (a ++ b) = accepted a ++ accepted b.
Proof. apply flat_map_app. Qed.

Lemma threads_app (a b : list event) : threads (a ++ b) = threads a ++ threads b.
Proof. apply flat_map_app. Qed.

Lemma refused_app (a b : list event) : refused (a ++ b) = refused a ++ refused b.
Proof. apply flat_map_app. Qed.

Lemma closed_app (a b : list event) : closed (a ++ b) = closed a ++ closed b.
Proof. apply flat_map_app. Qed.

Lemma opened_app (a b : list event) : opened (a ++ b) = opened a ++ opened b.
Proof. apply flat_map_app. Qed.

(** The accepting loop: every connection accepted goes to
    [pthread_create], the only descriptors closed are those for which
    that failed, and no socket is opened. *)
Lemma serve_adds (k : kernel) (flags : list event -> bool * bool)
      (vsock_fd : Z) (fuel : nat) :
  forall tr, exists returned ev,
    serve k flags fuel vsock_fd tr = (returned, tr ++ ev) /\
    threads ev = accepted ev /\ closed ev = refused ev /\ opened ev = [].
Proof.
  induction fuel as [|fuel IH]; intros tr.
  - exists false, []. rewrite app_nil_r. repeat split.
  - cbn [serve]. destruct (flags tr) as [sd rb].
    destruct (negb sd && negb rb);
      [|exists true, []; rewrite app_nil_r; repeat split].
    unfold then_sys. destruct (syscall_adds k (Accept vsock_fd) tr) as (c & ->).
    cbv zeta.
    destruct (ret c <? 0) eqn:Ec.
    + destruct (IH (tr ++ [(Accept vsock_fd, c)])) as (r & ev & -> & Ht & Hc & Ho).
      exists r, ((Accept vsock_fd, c) :: ev). rewrite <- app_assoc.
      split; [reflexivity|].
      unfold threads, accepted, closed, refused, opened in *.
      cbn [flat_map app]. rewrite Ec. auto.
    + destruct (syscall_adds k (PthreadCreate (ret c)) (tr ++ [(Accept vsock_fd, c)]))
        as (t & ->).
      destruct (ret t =? 0) eqn:Et; cbn [negb];
        match goal with
        | |- context [syscall k ?call ?tr1] =>
            destruct (syscall_adds k call tr1) as (d & ->)
        end;
        match goal with
        | |- context [serve k flags fuel vsock_fd ?tr2] =>
            destruct (IH tr2) as (r & ev & -> & Ht & Hc & Ho)
        end;
        eexists r, (_ :: _ :: _ :: ev); rewrite <- !app_assoc;
        (split; [reflexivity|]);
        unfold threads, accepted, closed, refused, opened in *;
        cbn [flat_map app]; rewrite Ec, Et, ?Ht, ?Hc; auto.
Qed.

(** X23.  The listener leaks no descriptor.  If its set-up fails, the
    socket it opened, if any, is closed again and the global
    [vsock_fd] is left negative, with no connection accepted.  Once it
    listens, [vsock_fd] is the listening socket, which the listener
    itself never closes; every connection accepted is handed to
    [pthread_create], once, in the order of arrival, and the
    descriptors closed are exactly those for which that failed. *)
Theorem listener_leaks_no_descriptor (k : kernel)
        (flags : list event -> bool * bool) (fuel : nat) (tr0 : list event) :
  exists ev,
    snd (vsock_server k flags fuel tr0) = tr0 ++ ev /\
    threads ev = accepted ev /\
    let vsock_fd := fst (fst (vsock_server k flags fuel tr0)) in
    (vsock_fd < 0 /\ closed ev = opened ev /\ accepted ev = [] /\
     snd (fst (vsock_server k flags fuel tr0)) = true)
    \/
    (0 <= vsock_fd /\ opened ev = [vsock_fd] /\ closed ev = refused ev).
Proof.
  remember (vsock_server k flags fuel tr0) as res eqn:E. symmetry in E. revert E.
  unfold vsock_server, then_sys, unit_sys.
  syscall_next k. cbv zeta.
  destruct (ret a <? 0) eqn:Es.
  - intros <-. exists [(Socket AF_VSOCK SOCK_STREAM 0, a)]. cbn [fst snd].
    split; [reflexivity|]. split; [reflexivity|]. left.
    split; [apply Z.ltb_lt; exact Es|].
    unfold closed, opened, accepted. cbn [flat_map app]. rewrite Es. auto.
  - syscall_next k. destruct (ret a0 <? 0).
    + syscall_next k. intros <-. eexists. cbn [fst snd].
      split; [rewrite <- !app_assoc; cbn [app]; reflexivity|].
      split; [reflexivity|]. left. split; [lia|].
      unfold closed, opened, accepted. cbn [flat_map app]. rewrite Es. auto.
    + syscall_next k. destruct (ret a1 <? 0).
      * syscall_next k. intros <-. eexists. cbn [fst snd].
        split; [rewrite <- !app_assoc; cbn [app]; reflexivity|].
        split; [reflexivity|]. left. split; [lia|].
        unfold closed, opened, accepted. cbn [flat_map app]. rewrite Es. auto.
      * match goal with
        | |- context [serve k flags fuel ?fd ?tr] =>
            destruct (serve_adds k flags fd fuel tr) as (r & ev & -> & Ht & Hc & Ho)
        end.
        intros <-.
        exists ([(Socket AF_VSOCK SOCK_STREAM 0, a);
                 (Bind (ret a) VMADDR_CID_ANY VSOCK_PORT, a0);
                 (Listen (ret a) 16, a1)] ++ ev).
        cbn [fst snd].
        split; [rewrite <- !app_assoc; reflexivity|].
        rewrite threads_app, accepted_app, opened_app, closed_app, refused_app,
                Ht, Hc, Ho.
        split; [reflexivity|]. right.
        split; [apply Z.ltb_ge; exact Es|].
        unfold opened, closed, refused. cbn [flat_map app]. rewrite Es. auto.
Qed.

End BootFacts.

(** ** Signals *)

Module SignalFacts.
Import Signals.

Lemma deliver_provided (t : table) (sig : signo) (g : globals) :
  provided sig = true ->
  deliver (setup_signals t) sig g
  = Some (mkglobals (shutdown_requested g || signo_eqb sig SIGTERM)
                    (reboot_requested g || signo_eqb sig SIGINT)).
Proof.
  destruct g as [sd rb].
  destruct sig; intros H; try discriminate H; cbn;
    rewrite ?orb_false_r, ?orb_true_r; reflexivity.
Qed.

(** X24.  After [setup_signals], whatever the dispositions were before,
    the signals SIGHUP, SIGINT, SIGUSR1, SIGUSR2, SIGTERM and SIGCHLD
    never take their default action, and after any sequence of them the
    flags are these: a shutdown is requested if it was already or a
    SIGTERM came, a reboot if it was already or a SIGINT came.  No
    signal withdraws a request, and the other four change nothing. *)
Theorem signals_set_the_flags (t : table) (sigs : list signo) (g : globals) :
  forallb provided sigs = true ->
  deliver_all (setup_signals t) sigs g
  = Some (mkglobals
            (shutdown_requested g || existsb (fun s => signo_eqb s SIGTERM) sigs)
            (reboot_requested g || existsb (fun s => signo_eqb s SIGINT) sigs)).
Proof.
  revert g. induction sigs as [|sig sigs IH]; intros g H.
  - cbn. rewrite !orb_false_r. destruct g; reflexivity.
  - cbn [forallb] in H. apply andb_true_iff in H. destruct H as [Hs Hr].
    cbn [deliver_all existsb]. rewrite deliver_provided by exact Hs.
    rewrite IH by exact Hr. cbn [shutdown_requested reboot_requested].
    rewrite !orb_assoc. reflexivity.
Qed.

Lemma signals_set_the_flags_witness :
  deliver_all (setup_signals at_exec) [SIGCHLD; SIGHUP; SIGINT; SIGUSR1; SIGCHLD]
              (mkglobals false false)
  = Some (mkglobals false true).
Proof.
  apply (signals_set_the_flags at_exec
           [SIGCHLD; SIGHUP; SIGINT; SIGUSR1; SIGCHLD] (mkglobals false false)).
  reflexivity.
Defined.

End SignalFacts.

(** ** An exec request, end to end *)

(** X25.  An exec request whose cmd array holds between 1 and 255
    arguments, free of control characters other than newline and tab
    and written with the escape function, makes the handler spawn
    exactly these arguments and supervise the child with the timeout
    [json_get_int] reads from the request; a failure of [pipe] or [fork]
    is answered with its error.  Such a request has no timeout field:
    the timeout is the default of 30000 ms when the quoted word timeout
    occurs nowhere in it, and otherwise, as when an argument is that
    very word, it is what [atoi] reads after the first occurrence. *)
Theorem exec_request_spawns_arguments (sys : system)
        (args : list (list byte)) (h : heap) :
  plentiful h ->
  args <> [] ->
  (length args <= 255)%nat ->
  forallb (forallb cmd_safe) args = true ->
  dispatch sys (exec_request args) h
  = match sys_spawn sys args with
    | PipeFailed => strdup (error_response (lit "pipe failed"))
    | ForkFailed => strdup (error_response (lit "fork failed"))
    | Forked run => exec_parent (exec_timeout_ms (exec_request args)) run
    end (skipn (S (length args)) h) /\
  (strstr (exec_request args) timeout_key = None ->
   exec_timeout_ms (exec_request args) = 30000) /\
  (forall start : list byte,
     strstr (exec_request args) timeout_key = Some start ->
     exec_timeout_ms (exec_request args)
     = atoi (skip_separators (skipn 9 start))).
Proof.
  intros Hh Hne Hlen Hsafe.
  split; [|split].
  2:{ unfold exec_timeout_ms, json_get_int.
      change (search_key (lit "timeout")) with timeout_key.
      intros ->. reflexivity. }
  2:{ unfold exec_timeout_ms, json_get_int.
      change (search_key (lit "timeout")) with timeout_key.
      intros start0 ->. reflexivity. }
  unfold dispatch, bind.
  rewrite (json_get_string_plain_field (exec_request args) (lit "operation")
             (lit "exec") [colon]
             (lit ",'cmd':" ++ lbracket :: cmd_items true args
              ++ rbracket :: lit "}" ++ [newline]) h
             eq_refl eq_refl eq_refl Hh).
  change (bytes_eqb (lit "exec") (lit "ping")) with false.
  change (bytes_eqb (lit "exec") (lit "file_read")) with false.
  change (bytes_eqb (lit "exec") (lit "file_write")) with false.
  change (bytes_eqb (lit "exec") (lit "file_stat")) with false.
  change (bytes_eqb (lit "exec") (lit "file_delete")) with false.
  change (bytes_eqb (lit "exec") (lit "exec")) with true.
  cbv beta iota.
  unfold handle_exec.
  change (find_cmd_array (exec_request args))
    with (@inr (list byte) (list byte)
               (lbracket :: cmd_items true args
                ++ rbracket :: lit "}" ++ [newline])).
  cbv beta iota. unfold bind.
  rewrite (exec_argv_items args (lit "}" ++ [newline]) (tl h)
             (plentiful_tl _ Hh) Hlen Hsafe).
  rewrite skipn_tl.
  destruct args as [|a args]; [contradiction|]. reflexivity.
Qed.

Lemma exec_request_spawns_arguments_witness :
  dispatch forking (exec_request [lit "/bin/ls"; lit "-l"]) []
  = exec_parent 30000 sleep_1 [] /\
  dispatch forking (exec_request [lit "timeout"; lit "5"; lit "ls"]) []
  = exec_parent 0 sleep_1 [].
Proof.
  assert (Hh : plentiful []) by constructor.
  destruct (exec_request_spawns_arguments forking [lit "/bin/ls"; lit "-l"] []
              Hh ltac:(discriminate) ltac:(cbn [length]; lia) eq_refl)
    as (Hrun & Hdefault & _).
  destruct (exec_request_spawns_arguments forking
              [lit "timeout"; lit "5"; lit "ls"] []
              Hh ltac:(discriminate) ltac:(cbn [length]; lia) eq_refl)
    as (Hrun' & _ & Hgiven).
  split.
  - rewrite Hrun, (Hdefault eq_refl). reflexivity.
  - rewrite Hrun', (Hgiven _ eq_refl). reflexivity.
Defined.

(** ** From the main loop to the end *)

Module MainLoopFacts.
Import Lifecycle MainLoopCourse.

Ltac still_decided Hd :=
  destruct Hd as [Hd | (s_left & Hrun1 & Hat1 & Hf & Hr & Hrb & Hsd & _)];
  [congruence|];
  right; exists s_left; cbn [at_point do_reboot reboot_requested
                         shutdown_requested move];
  repeat (split; [assumption|]).

Lemma decided_step (s0 s s' : state) :
  run s0 s -> decided s0 s -> step s s' -> decided s0 s'.
Proof.
  intros Hrun Hd Hstep.
  inversion Hstep as [? ? ? ? ? Hat | ? Hat Hflags | ? Hat | ? Hat | ? Hat
                      | ? Hat | ? Hat | ? ? Hat | ? Hat | ? Hat | ? ? ? Hat
                      | ? Hat | ? Hat | ? Hat | ? Hat
                      | ? sd rb Hrunning | ? ? Htested Hrunning];
    subst s'.
  - left. reflexivity.
  - right. exists s. cbn.
    repeat (split; [first [assumption | reflexivity | tauto]|]).
    intros e He. discriminate He.
  - still_decided Hd. intros e He. discriminate He.
  - still_decided Hd. intros e He. discriminate He.
  - still_decided Hd. intros e He. discriminate He.
  - still_decided Hd. intros e He. discriminate He.
  - still_decided Hd. intros e He. discriminate He.
  - still_decided Hd. intros e He. discriminate He.
  - still_decided Hd. intros e He. discriminate He.
  - still_decided Hd. intros e He. discriminate He.
  - still_decided Hd. intros e He. discriminate He.
  - still_decided Hd. intros e He. discriminate He.
  - still_decided Hd. intros e He. injection He as <-. left.
    rewrite Hr. reflexivity.
  - still_decided Hd. intros e He. discriminate He.
  - still_decided Hd. intros e He. injection He as <-. right. reflexivity.
  - (* a signal sets a flag *)
    destruct Hd as [Hd | (s_left & Hrun1 & Hat1 & Hf & Hr & Hrb & Hsd & Hend)].
    + left. exact Hd.
    + right. exists s_left. cbn [at_point do_reboot reboot_requested
                             shutdown_requested].
      repeat (split; [first [assumption
                            | intros Hset; rewrite orb_true_iff; auto]|]).
      exact Hend.
  - (* the listener thread stores its descriptor *)
    destruct Hd as [Hd | (s_left & Hrun1 & Hat1 & Hf & Hr & Hrb & Hsd & Hend)].
    + left. exact Hd.
    + right. exists s_left. cbn [at_point do_reboot reboot_requested
                             shutdown_requested].
      repeat (split; [assumption|]). exact Hend.
Qed.

Lemma decided_run (s0 s : state) :
  at_point s0 = MainLoop -> run s0 s -> decided s0 s.
Proof.
  intros H0. induction 1 as [|s1 s2 Hrun IH Hstep].
  - left. exact H0.
  - eapply decided_step; eassumption.
Qed.

(** X26.  The main thread leaves its loop only on a request, and what
    it then does is decided by the reboot flag as it stands when the
    loop is left: with the flag set the machine reboots, otherwise a
    shutdown was requested and it powers off; when both were requested
    by then it reboots.  The flags set when the loop is left are still
    set at the end.  A request that arrives after the loop has been left
    changes nothing: the handlers stay installed and set their flags,
    but the argument of [do_shutdown] has been read. *)
Theorem reboot_request_decides_the_ending (s0 s : state) (e : ending) :
  at_point s0 = MainLoop ->
  run s0 s ->
  at_point s = Halted e ->
  exists s1,
    run s0 s1 /\ at_point s1 = MainLoop /\
    shutdown_requested s1 || reboot_requested s1 = true /\
    (e = reboot_ending (reboot_requested s1) \/ e = Exited 0) /\
    (e = Rebooted -> reboot_requested s = true) /\
    (e = PoweredOff ->
     reboot_requested s1 = false /\ shutdown_requested s = true).
Proof.
  intros H0 Hrun Hat.
  destruct (decided_run s0 s H0 Hrun)
    as [Hd | (s1 & Hrun1 & Hat1 & Hf & Hr & Hrb & Hsd & Hend)]; [congruence|].
  exists s1. repeat (split; [first [assumption | exact (Hend e Hat)]|]).
  destruct (Hend e Hat) as [-> | ->];
    destruct (reboot_requested s1) eqn:E; cbn [reboot_ending orb] in *;
    split; try discriminate; intros _; auto.
  rewrite orb_false_r in Hf. auto.
Qed.

Lemma run_late_reboot_request : run asked_to_stop late_reboot_request.
Proof.
  eapply LifecycleFacts.run_first; [apply step_enter; reflexivity|].
  ShutdownFacts.take_step step_close. ShutdownFacts.take_step step_term.
  eapply LifecycleFacts.run_first;
    [apply (step_signal _ false true); intros e; discriminate|].
  ShutdownFacts.take_step step_grace. ShutdownFacts.take_step step_kill.
  ShutdownFacts.take_step step_reap. ShutdownFacts.take_step step_reaped.
  ShutdownFacts.take_step step_sync.
  do 6 ShutdownFacts.take_step step_umount.
  ShutdownFacts.take_step step_second_sync.
  ShutdownFacts.take_step step_reboot.
  apply run_here.
Qed.

Lemma reboot_request_decides_the_ending_witness :
  reboot_requested late_reboot_request = true /\
  exists s1,
    run asked_to_stop s1 /\ at_point s1 = MainLoop /\
    shutdown_requested s1 || reboot_requested s1 = true /\
    (PoweredOff = reboot_ending (reboot_requested s1) \/
     PoweredOff = Exited 0) /\
    (PoweredOff = Rebooted -> reboot_requested late_reboot_request = true) /\
    (PoweredOff = PoweredOff ->
     reboot_requested s1 = false /\
     shutdown_requested late_reboot_request = true).
Proof.
  split; [reflexivity|].
  exact (reboot_request_decides_the_ending asked_to_stop late_reboot_request
           PoweredOff eq_refl run_late_reboot_request eq_refl).
Defined.

End MainLoopFacts.

(** ** The exec response read back *)

Lemma decimal_char_no_quote (c : byte) :
  decimal_char c = true -> Byte.eqb dquote c = false.
Proof. destruct c; intros H; try discriminate H; reflexivity. Qed.

(** No occurrence of a quoted word starts in a number. *)
Lemma strstr_skip_decimal (z : Z) (rest needle : list byte) :
  strstr (decimal z ++ rest) (dquote :: needle) = strstr rest (dquote :: needle).
Proof.
  pose proof (decimal_chars z) as H. revert H.
  generalize (decimal z) as v.
  induction v as [|c v IH]; intros H; [reflexivity|].
  cbn [forallb] in H. apply andb_true_iff in H. destruct H as [Hc Hv].
  cbn [app strstr starts_with]. rewrite (decimal_char_no_quote c Hc).
  cbn [andb]. exact (IH Hv).
Qed.

(** X27.  The response of exec can be read back with the parsers of the
    program: for every exit code in the range of an [int] and every
    standard output without control bytes that take the six-character
    escape, [json_get_int] finds the exit code in the response and
    [json_get_string] finds the output, whatever the standard error
    holds. *)
Theorem exec_response_reads_back (code : Z) (out err : list byte) (h : heap) :
  -2147483648 <= code <= 2147483647 ->
  forallb short_escape out = true ->
  plentiful h ->
  json_get_int (exec_response code (escaped out) (escaped err)) (lit "exit_code")
  = Some code /\
  json_get_string (exec_response code (escaped out) (escaped err)) (lit "stdout") h
  = Done (Some out, tl h).
Proof.
  intros Hcode Hout Hh. split.
  - apply (json_get_int_field _ _ [colon]
             (lit ",'stdout':'" ++ escaped out ++ lit "','stderr':'"
              ++ escaped err ++ lit "'}}" ++ [newline]));
      [reflexivity | reflexivity | exact Hcode | reflexivity].
  - apply (json_get_string_field _ _ _ [colon]
             (lit ",'stderr':'" ++ escaped err ++ lit "'}}" ++ [newline]));
      [| reflexivity | exact Hout | exact Hh].
    change (strstr (exec_response code (escaped out) (escaped err))
                   (search_key (lit "stdout")))
      with (strstr (decimal code
                    ++ lit ",'stdout':'" ++ escaped out ++ lit "','stderr':'"
                    ++ escaped err ++ lit "'}}" ++ [newline])
                   (dquote :: lit "stdout'")).
    rewrite strstr_skip_decimal. reflexivity.
Qed.

Lemma exec_response_reads_back_witness :
  json_get_int (exec_response (-1) (escaped (lit "'stderr")) (escaped (lit "x")))
               (lit "exit_code") = Some (-1) /\
  json_get_string (exec_response (-1) (escaped (lit "'stderr")) (escaped (lit "x")))
                  (lit "stdout") []
  = Done (Some (lit "'stderr"), []).
Proof.
  apply (exec_response_reads_back (-1) (lit "'stderr") (lit "x") []).
  - lia.
  - reflexivity.
  - constructor.
Defined.

(** * The allocator refusing, and output with control bytes *)

Lemma granted_0 (h : heap) : granted h 0 = hd true h.
Proof. destruct h; reflexivity. Qed.

Lemma granted_S (h : heap) (i : nat) : granted h (S i) = granted (tl h) i.
Proof. destruct h; [destruct i|]; reflexivity. Qed.

(** The escaping loop makes no request to the allocator. *)
Lemma escape_step_heap (out : buffer) (c : byte) (h : heap) :
  escape_step out c h
  = match escape_step out c [] with
    | Done (o, _) => Done (o, h)
    | Fault => Fault
    end.
Proof.
  unfold escape_step, put2, snprintf_u, bind, put, ret, fault.
  repeat first
    [ reflexivity
    | match goal with
      | |- context [if ?b then _ else _] => destruct b; cbn [stored cap]
      end ].
Qed.

Lemma escape_loop_heap (s : list byte) :
  forall (out : buffer) (h : heap),
    escape_loop s out h
    = match escape_loop s out [] with
      | Done (o, _) => Done (o, h)
      | Fault => Fault
      end.
Proof.
  induction s as [|c s IH]; intros out h; [reflexivity|].
  cbn [escape_loop]. unfold bind. rewrite (escape_step_heap out c h).
  destruct (escape_step out c []) as [[o h0]|] eqn:E; [|reflexivity].
  apply escape_step_sound in E. destruct E as [_ ->].
  apply IH.
Qed.

(** [json_escape] on every heap: NULL when its buffer is refused, the
    escaped string when it stays inside the buffer, and beyond the
    buffer otherwise. *)
Lemma json_escape_cases (str : list byte) (h : heap) :
  json_escape str h
  = if hd true h
    then if in_bounds str
         then Done (Some (escaped (c_str str)), tl h)
         else Fault
    else Done (None, tl h).
Proof.
  unfold in_bounds, json_escape, bind. rewrite !malloc_answer.
  cbn [hd tl]. destruct (hd true h); [|reflexivity].
  rewrite (escape_loop_heap _ _ (tl h)).
  destruct (escape_loop (c_str str) _ []) as [[o h0]|] eqn:E; [|reflexivity].
  apply escape_loop_sound in E. destruct E as [-> ->].
  unfold terminate, ret, fault. cbn [stored cap app].
  destruct (len (escaped (c_str str)) <? len (c_str str) * 2 + 1); reflexivity.
Qed.

Lemma short_in_bounds (str : list byte) :
  forallb short_escape (c_str str) = true -> in_bounds str = true.
Proof.
  intros Hs. unfold in_bounds.
  destruct (json_escape_short str [] (Forall_nil _) Hs) as [-> _]. reflexivity.
Qed.

(** The parent of exec on every heap: the six requests to the allocator
    are the two output buffers, the two escape buffers, the response
    text and the text of the error. *)
Lemma exec_parent_cases (timeout_ms : Z) (run : child_run) (h : heap)
      (status : Z) (out err : list byte) :
  collected timeout_ms run = (status, out, err) ->
  (granted h 0 && granted h 1 = false ->
   exec_parent timeout_ms run h
   = Done (if granted h 2 then Some out_of_memory else None, skipn 3 h)) /\
  (granted h 0 && granted h 1 = true ->
   (granted h 2 = true -> in_bounds (out ++ [NUL]) = true) ->
   (granted h 3 = true -> in_bounds (err ++ [NUL]) = true) ->
   exec_parent timeout_ms run h
   = Done (if granted h 4
           then Some (exec_response
                        (exit_code_of status)
                        (if granted h 2 then escaped (c_str out) else [])
                        (if granted h 3 then escaped (c_str err) else []))
           else if granted h 5 then Some out_of_memory else None,
           skipn (if granted h 4 then 5 else 6) h)).
Proof.
  intros Hrun.
  rewrite !granted_S, !granted_0.
  replace (skipn 3 h) with (tl (tl (tl h)))
    by (rewrite <- !skipn_tl; reflexivity).
  replace (skipn (if hd true (tl (tl (tl (tl h)))) then 5 else 6)%nat h)
    with (if hd true (tl (tl (tl (tl h)))) then tl (tl (tl (tl (tl h))))
          else tl (tl (tl (tl (tl (tl h))))))
    by (destruct (hd true (tl (tl (tl (tl h))))); rewrite <- !skipn_tl;
        reflexivity).
  unfold exec_parent, bind. rewrite !malloc_answer, Hrun.
  split.
  - intros Hb.
    destruct (hd true h); [destruct (hd true (tl h)); [discriminate Hb|] |];
      rewrite strdup_answer; reflexivity.
  - intros Hb Hout Herr. apply andb_true_iff in Hb. destruct Hb as [-> ->].
    cbv beta iota.
    rewrite json_escape_cases, c_str_terminated.
    destruct (hd true (tl (tl h))); [rewrite (Hout eq_refl)|];
      (cbv beta iota; rewrite json_escape_cases, c_str_terminated;
       destruct (hd true (tl (tl (tl h)))); [rewrite (Herr eq_refl)|];
       cbv beta iota; unfold asprintf; rewrite strdup_answer;
       destruct (hd true (tl (tl (tl (tl h)))));
       cbn [or_out_of_memory or_empty]; try reflexivity;
       rewrite strdup_answer; reflexivity).
Qed.

(** A success envelope is never the error envelope. *)
Lemma exec_response_is_no_error (code : Z) (so se : list byte) :
  exec_response code so se <> out_of_memory.
Proof.
  intros H. apply (f_equal (fun l => nth 11 l NUL)) in H.
  discriminate H.
Qed.

(** ** Exec after the fork: every answer of the allocator *)

(** C1 (amended).  Once the child has been forked, the only error the
    operation can return is [out of memory]; the requests to the
    allocator are counted from the two output buffers on.  When one of
    the two output buffers is refused the response is that error, if its
    text is granted, and none at all otherwise.  When both are granted,
    whatever the wait status, the response is the success envelope as
    soon as the response text is granted: it carries the exit code (the
    exit status of a normal exit, -1 otherwise) and the two streams in
    escaped form, each cut at its first NUL, and a stream whose escape
    buffer is refused is carried as the empty string; when the response
    text is refused the response is the error again, or none.  A success
    envelope is never the error envelope.  The statement covers every
    stream on which the escape function stays inside its buffer, among
    them every stream without control bytes that take the six-character
    escape; the others are left out. *)
Theorem exec_after_fork_responses (timeout_ms : Z) (run : child_run) (h : heap) :
  forall (status : Z) (out err : list byte),
    collected timeout_ms run = (status, out, err) ->
    (granted h 0 && granted h 1 = false ->
     exists h',
       exec_parent timeout_ms run h
       = Done (if granted h 2 then Some out_of_memory else None, h')) /\
    (granted h 0 && granted h 1 = true ->
     (granted h 2 = true -> in_bounds (out ++ [NUL]) = true) ->
     (granted h 3 = true -> in_bounds (err ++ [NUL]) = true) ->
     exists h',
       exec_parent timeout_ms run h
       = Done (if granted h 4
               then Some (exec_response
                            (if WIFEXITED status then WEXITSTATUS status else -1)
                            (if granted h 2 then escaped (c_str out) else [])
                            (if granted h 3 then escaped (c_str err) else []))
               else if granted h 5 then Some out_of_memory else None, h')) /\
    (forall (code : Z) (so se : list byte),
       exec_response code so se <> out_of_memory) /\
    (forall s : list byte,
       forallb short_escape (c_str s) = true -> in_bounds (s ++ [NUL]) = true).
Proof.
  intros status out err Hrun.
  destruct (exec_parent_cases timeout_ms run h status out err Hrun)
    as [Hrefused Hgranted].
  split; [|split; [|split]].
  - intros Hb. eexists. apply Hrefused, Hb.
  - intros Hb Hout Herr. eexists. apply Hgranted; assumption.
  - apply exec_response_is_no_error.
  - intros s Hs. apply short_in_bounds. rewrite c_str_terminated. exact Hs.
Qed.

Lemma exec_after_fork_responses_witness :
  (exists h',
     exec_parent 30000 prints_red [true; true; true; false]
     = Done (Some (exec_response 0 (escaped (c_str red_text)) []), h')) /\
  (exists h',
     exec_parent 30000 prints_red [true; false; false]
     = Done (None, h')).
Proof.
  destruct (exec_after_fork_responses 30000 prints_red [true; true; true; false]
              0 red_text [] eq_refl) as (_ & Hgranted & _).
  destruct (exec_after_fork_responses 30000 prints_red [true; false; false]
              0 red_text [] eq_refl) as (Hrefused & _).
  split.
  - apply Hgranted; try (intros _); reflexivity.
  - apply Hrefused. reflexivity.
Defined.

(** ** Payloads in the response: every answer of the allocator *)








(** ** The timeout of exec, from the request to the kill *)

(** The request handler passes the timeout it read to the supervisor of
    the child. *)
Lemma handle_exec_supervises (kernel : list (list byte) -> spawn)
      (json arr_start : list byte) (argv : list (list byte)) (h h' : heap)
      (run : child_run) :
  find_cmd_array json = inr arr_start ->
  exec_argv arr_start h = Done (Some argv, h') ->
  argv <> [] ->
  kernel argv = Forked run ->
  handle_exec kernel json h = exec_parent (exec_timeout_ms json) run h'.
Proof.
  intros Hfind Hargv Hne Hfork. unfold handle_exec, bind.
  rewrite Hfind, Hargv. destruct argv as [|a argv]; [contradiction|].
  rewrite Hfork. reflexivity.
Qed.

(** With a timeout of -1000 or less the deadline has passed at the
    first poll. *)
Lemma supervise_negative_timeout (timeout_ms : Z) (run : child_run)
      (p : poll) (ps : list poll) :
  timeout_ms <= -1000 ->
  polls run = p :: ps ->
  start run <= clock p ->
  fst (fst (collected timeout_ms run))
  = match wait_nohang p with
    | Some r => status_of r
    | None => status_if_killed p
    end.
Proof.
  intros Hneg Hpolls Hclock. unfold collected. rewrite Hpolls.
  assert (Hq : Z.quot timeout_ms 1000 <= -1).
  { apply Z.quot_le_upper_bound; lia. }
  destruct (supervise_status timeout_ms (start run) (kill_status run) p ps
              [] [] [] [] [] (Forall_nil _)) as [H | [_ Hc]]; [|lia].
  cbn [app] in H. rewrite H.
  destruct (wait_nohang p); [reflexivity|].
  destruct (Z.gtb_spec (clock p - start run) (Z.quot timeout_ms 1000));
    [reflexivity | lia].
Qed.

(** C7 (amended).  When the quoted word timeout occurs nowhere in the
    request, the timeout is 30000 ms.  When its first occurrence is a
    timeout field, that is, followed by separators, by the decimal text
    of an [int] and by something that is not a digit, the timeout is
    that integer as given, whatever its sign: nothing replaces a
    negative value by the default.  The handler passes the timeout to
    the loop that supervises the child, and with a timeout of -1000 or
    less that loop ends at its first poll, the clock not having gone
    backwards: a child found gone is reported with its own status, a
    child still running is killed there.  Requests in which the quoted
    word first occurs elsewhere are left out. *)
Theorem exec_timeout_default_and_given (json : list byte) :
  (strstr json timeout_key = None -> exec_timeout_ms json = 30000) /\
  (forall (seps rest : list byte) (z : Z),
     strstr json timeout_key = Some (timeout_key ++ seps ++ decimal z ++ rest) ->
     forallb is_separator seps = true ->
     -2147483648 <= z <= 2147483647 ->
     isdigit (deref rest) = false ->
     exec_timeout_ms json = z) /\
  (forall (kernel : list (list byte) -> spawn) (arr_start : list byte)
          (argv : list (list byte)) (h h' : heap) (run : child_run),
     find_cmd_array json = inr arr_start ->
     exec_argv arr_start h = Done (Some argv, h') ->
     argv <> [] ->
     kernel argv = Forked run ->
     handle_exec kernel json h = exec_parent (exec_timeout_ms json) run h') /\
  (exec_timeout_ms json <= -1000 ->
   forall (run : child_run) (p : poll) (ps : list poll),
     polls run = p :: ps ->
     start run <= clock p ->
     fst (fst (collected (exec_timeout_ms json) run))
     = match wait_nohang p with
       | Some r => status_of r
       | None => status_if_killed p
       end).
Proof.
  split; [|split; [|split]].
  - unfold exec_timeout_ms, json_get_int.
    change (search_key (lit "timeout")) with timeout_key.
    intros ->. reflexivity.
  - intros seps rest z Hfind Hseps Hz Hrest. unfold exec_timeout_ms.
    rewrite (json_get_int_field json (lit "timeout") seps rest z
               Hfind Hseps Hz Hrest).
    reflexivity.
  - intros kernel arr_start argv h h' run.
    apply handle_exec_supervises.
  - intros Hneg run p ps. apply supervise_negative_timeout, Hneg.
Qed.

Lemma exec_timeout_default_and_given_witness :
  exec_timeout_ms default_timeout_request = 30000 /\
  exec_timeout_ms negative_timeout_request = -5000 /\
  fst (fst (collected (exec_timeout_ms negative_timeout_request) sleep_1)) = 9.
Proof.
  destruct (exec_timeout_default_and_given default_timeout_request) as [Habs _].
  destruct (exec_timeout_default_and_given negative_timeout_request)
    as (_ & Hgiven & _ & Hkill).
  split; [apply Habs; reflexivity|].
  split.
  - apply (Hgiven [colon] (lit "}")); [reflexivity | reflexivity | lia | reflexivity].
  - assert (Hneg : exec_timeout_ms negative_timeout_request <= -1000)
      by (vm_compute; discriminate).
    apply (Hkill Hneg sleep_1
                 (mkpoll [] [] None 100 9)
                 [mkpoll [] [] (Some (mkreaped 0 [] [])) 101 9] eq_refl).
    cbn [start clock sleep_1]. lia.
Defined.

(** ** The connection handler: reads that fail or end *)

Lemma len_drop (l : list byte) (k : Z) :
  0 <= k <= len l -> len (drop k l) = len l - k.
Proof.
  intros Hk. pose proof (take_drop l k) as E.
  apply (f_equal len) in E. revert E. len_simpl. rewrite len_take. lia.
Qed.

(** Reads that return at least one byte each and deliver a part without
    a newline; then a read fails, or the stream has ended, or no call
    follows.  Reading stops there. *)
Lemma read_request_stopped (chunks : list Z) :
  forall (first rest request : list byte) (after : list Z),
    Forall (fun k => 0 < k) chunks ->
    total chunks = len first ->
    len request + len first <= MAX_REQUEST_SIZE - 1 ->
    memchr (request ++ first) newline = false ->
    match after with
    | [] => True
    | k :: _ => k <= 0 \/ rest = []
    end ->
    read_request (chunks ++ after) (first ++ rest) request
    = (request ++ first, rest).
Proof.
  induction chunks as [|k chunks IH];
    intros first rest request after Hpos Hsum Hfit Hnl Hstop;
    pose proof (len_nonneg first); pose proof (len_nonneg request).
  - cbn [total fold_right] in Hsum.
    assert (first = []) by (apply len_zero; lia). subst first.
    cbn [app]. rewrite app_nil_r.
    destruct after as [|k after]; cbn [read_request].
    + destruct (len request <? MAX_REQUEST_SIZE - 1); reflexivity.
    + destruct (len request <? MAX_REQUEST_SIZE - 1); [|reflexivity].
      destruct Hstop as [Hk | ->].
      * rewrite take_nonpos by lia. reflexivity.
      * destruct (Z.min k (MAX_REQUEST_SIZE - len request - 1) >? 0);
          reflexivity.
  - cbn [total fold_right] in Hsum. fold (total chunks) in Hsum.
    inversion Hpos as [|? ? Hk Hpos']; subst.
    pose proof (total_nonneg chunks Hpos') as Htot.
    cbn [app read_request].
    rewrite (proj2 (Z.ltb_lt _ _)) by lia.
    replace (Z.min k (MAX_REQUEST_SIZE - len request - 1)) with k by lia.
    rewrite take_app, (take_nonpos (k - len first)) by lia.
    rewrite app_nil_r.
    assert (Hlt : len (take k first) = k) by (rewrite len_take; lia).
    rewrite Hlt, (proj2 (Z.leb_gt _ _)) by lia.
    rewrite drop_app, (drop_nonpos (k - len first)) by lia.
    assert (Hno : memchr (request ++ take k first) newline = false).
    { rewrite memchr_app in *. apply orb_false_iff in Hnl.
      destruct Hnl as [-> Hb]. cbn [orb]. apply memchr_take, Hb. }
    rewrite Hno.
    assert (Hd : len (drop k first) = len first - k) by (apply len_drop; lia).
    rewrite IH; try assumption.
    + rewrite <- !app_assoc, take_drop. reflexivity.
    + lia.
    + len_simpl. lia.
    + rewrite <- app_assoc, take_drop. exact Hnl.
Qed.

(** C3 (amended).  The handler never stores more than 128 MiB less one
    byte of a request, the last byte of the buffer being kept for the
    terminator, and it has no rejection for size.  What it reads is a
    prefix of what the peer sent, however the reads go.  When every
    call of [read] returns at least one byte and the calls together
    deliver it, a request of at most 128 MiB less one byte that ends
    with its only newline is read in full, and of a request whose first
    128 MiB less one byte hold no newline exactly these bytes are read
    and the rest stays unread.  When a call of [read] fails, or finds
    the end of the stream, before a newline has arrived, reading stops
    there without another attempt: what has arrived is all that is
    read.  In every case the bytes read, up to their first NUL, are
    dispatched as the request when the request buffer is granted; when
    it is refused nothing is read and nothing answered. *)
Theorem request_read_up_to_buffer_less_one :
  (forall (chunks : list Z) (pending : list byte),
     fst (read_request chunks pending []) ++ snd (read_request chunks pending [])
     = pending /\
     len (fst (read_request chunks pending [])) <= MAX_REQUEST_SIZE - 1) /\
  (forall (chunks : list Z) (body : list byte),
     Forall (fun k => 0 < k) chunks ->
     len body + 1 <= total chunks ->
     len body + 1 <= MAX_REQUEST_SIZE - 1 ->
     memchr body newline = false ->
     read_request chunks (body ++ [newline]) [] = (body ++ [newline], [])) /\
  (forall (chunks : list Z) (target rest : list byte),
     Forall (fun k => 0 < k) chunks ->
     len target <= total chunks ->
     len target = MAX_REQUEST_SIZE - 1 ->
     memchr target newline = false ->
     read_request chunks (target ++ rest) [] = (target, rest)) /\
  (forall (chunks after : list Z) (k : Z) (first rest : list byte),
     Forall (fun k => 0 < k) chunks ->
     total chunks = len first ->
     len first <= MAX_REQUEST_SIZE - 1 ->
     memchr first newline = false ->
     k <= 0 ->
     read_request (chunks ++ k :: after) (first ++ rest) [] = (first, rest)) /\
  (forall (chunks after : list Z) (first : list byte),
     Forall (fun k => 0 < k) chunks ->
     total chunks = len first ->
     len first <= MAX_REQUEST_SIZE - 1 ->
     memchr first newline = false ->
     read_request (chunks ++ after) first [] = (first, [])) /\
  (forall (sys : system) (chunks : list Z) (pending : list byte) (h : heap),
     hd true h = true ->
     handle_connection sys chunks pending h
     = (response <- dispatch sys
                      (c_str (fst (read_request chunks pending []) ++ [NUL])) ;;
        ret (response, snd (read_request chunks pending []))) (tl h)) /\
  (forall (sys : system) (chunks : list Z) (pending : list byte) (h : heap),
     hd true h = false ->
     handle_connection sys chunks pending h = Done (None, pending, tl h)).
Proof.
  split; [|split; [|split; [|split; [|split; [|split]]]]].
  - intros chunks pending.
    apply (read_request_prefix chunks pending []).
    change (len []) with 0. unfold MAX_REQUEST_SIZE. lia.
  - intros chunks body Hpos Hsum Hfit Hnl.
    apply (read_request_line chunks body []); assumption.
  - intros chunks target rest Hpos Hsum Hfit Hnl.
    apply (read_request_full chunks target rest []); assumption.
  - intros chunks after k first rest Hpos Hsum Hfit Hnl Hk.
    apply (read_request_stopped chunks first rest [] (k :: after));
      try assumption. left. exact Hk.
  - intros chunks after first Hpos Hsum Hfit Hnl.
    rewrite <- (app_nil_r first) at 1.
    apply (read_request_stopped chunks first [] [] after); try assumption.
    destruct after; [exact I | right; reflexivity].
  - intros sys chunks pending h Hh.
    unfold handle_connection, bind. rewrite malloc_answer, Hh.
    destruct (read_request chunks pending []) as [request unread].
    reflexivity.
  - intros sys chunks pending h Hh.
    unfold handle_connection, bind. rewrite malloc_answer, Hh. reflexivity.
Qed.

Lemma request_read_up_to_buffer_less_one_witness :
  read_request [8; 64] (ping_text ++ [newline]) [] = (ping_text ++ [newline], []) /\
  read_request [MAX_REQUEST_SIZE]
               ((ping_text ++ padding (MAX_REQUEST_SIZE - 21)) ++ [space; newline]) []
  = (ping_text ++ padding (MAX_REQUEST_SIZE - 21), [space; newline]) /\
  read_request ([8] ++ [-1; 64])
               (lit "{'operat" ++ lit "ion':'ping'}" ++ [newline]) []
  = (lit "{'operat", lit "ion':'ping'}" ++ [newline]) /\
  handle_connection barren [64] (ping_text ++ [newline]) []
  = Done (Some pong, [], []).
Proof.
  destruct request_read_up_to_buffer_less_one
    as (_ & Hline & Hfull & Hfail & _ & Hdisp & _).
  assert (Hmax : MAX_REQUEST_SIZE = 134217728) by reflexivity.
  split; [|split; [|split]].
  - apply Hline.
    + repeat constructor.
    + vm_compute. discriminate.
    + vm_compute. discriminate.
    + reflexivity.
  - apply Hfull.
    + repeat constructor.
    + rewrite len_app, len_ping_text, len_padding by lia.
      unfold total, fold_right. lia.
    + rewrite len_app, len_ping_text, len_padding by lia. lia.
    + rewrite memchr_app, (proj1 (padding_clean (MAX_REQUEST_SIZE - 21))).
      reflexivity.
  - apply Hfail.
    + repeat constructor.
    + reflexivity.
    + vm_compute. discriminate.
    + reflexivity.
    + lia.
  - rewrite (Hdisp barren [64] (ping_text ++ [newline]) [] eq_refl).
    vm_compute. reflexivity.
Defined.
